(** * Fleet coordination core: allocations, shifts, orders, inventory, GPS

    A shallow embedding of the services
    [allocation.service.js], [shift.service.js], [order.service.js],
    [gps.service.js] and of the request validators that guard them.

    The relational store is a record of tables; every table is a list of
    rows in insertion order, so Prisma's [findFirst] without [orderBy] is
    [find] on the list and [findUnique] on a unique key is [find] as well.
    [new Date()] is an explicit argument [now] (milliseconds on the server's
    local clock), and [date.setHours(0, 0, 0, 0)] is [midnight].

    Service calls run in a small state-and-exception monad [M].  A thrown
    error carries no store: the services perform every write either as
    their last step or inside [prisma.$transaction], so a failing call
    leaves the store as it found it. *)

From Stdlib Require Import ZArith List String Ascii Bool Lia Sorted.
Import ListNotations.
Open Scope string_scope.
Open Scope list_scope.
Open Scope Z_scope.

(* ------------------------------------------------------------------ *)
(** ** Time *)

Definition ms_per_day : Z := 86400000.

(** [d.setHours(0, 0, 0, 0)] *)
Definition midnight (t : Z) : Z := t - t mod ms_per_day.

(** A date written to a [DateTime @db.Date] column (the schema's
    [orders.assignedDate], [shifts.shiftDate] and
    [vehicle_allocations.allocationDate] are MySQL [DATE]s): the database
    keeps the UTC calendar date, so the row holds that day's 00:00. *)
Definition db_date (t : Z) : Z := t - t mod ms_per_day.

(* ------------------------------------------------------------------ *)
(** ** Status enumerations (string columns in the schema) *)

Module ShiftStatus.
Inductive t := scheduled | active | completed.
Definition eqb (a b : t) : bool :=
  match a, b with
  | scheduled, scheduled | active, active | completed, completed => true
  | _, _ => false
  end.
End ShiftStatus.

Module OrderStatus.
Inductive t := pending | assigned | in_progress | completed | failed.
Definition eqb (a b : t) : bool :=
  match a, b with
  | pending, pending | assigned, assigned | in_progress, in_progress
  | completed, completed | failed, failed => true
  | _, _ => false
  end.
End OrderStatus.

Module AttemptStatus.
Inductive t := in_progress | completed | failed.
Definition eqb (a b : t) : bool :=
  match a, b with
  | in_progress, in_progress | completed, completed | failed, failed => true
  | _, _ => false
  end.
End AttemptStatus.

(* ------------------------------------------------------------------ *)
(** ** Rows *)

Record Driver := mkDriver { driver_id : Z; driver_name : string }.

Record Vehicle := mkVehicle { vehicle_id : Z; registrationNumber : string }.

Record VehicleAllocation := mkAllocation {
  va_id : Z;
  va_vehicleId : Z;
  va_driverId : Z;
  va_allocationDate : Z
}.

Record Shift := mkShift {
  sh_id : Z;
  sh_driverId : Z;
  sh_vehicleAllocationId : option Z;
  sh_shiftDate : Z;
  sh_status : ShiftStatus.t;
  sh_startTime : option Z;
  sh_endTime : option Z
}.

Record Order := mkOrder {
  o_id : Z;
  o_destinationId : Z;
  o_productId : Z;
  o_quantity : Z;
  o_status : OrderStatus.t;
  o_assignedDriverId : option Z;
  o_assignedDate : option Z
}.

Record OrderAttempt := mkAttempt {
  at_id : Z;
  at_orderId : Z;
  at_shiftId : Z;
  at_status : AttemptStatus.t;
  at_failureReason : option string;
  at_completedAt : option Z
}.

Record Inventory := mkInventory {
  inv_id : Z;
  inv_locationId : Z;
  inv_productId : Z;
  inv_quantity : Z
}.

(** Latitude and longitude are stored as received; they are opaque here. *)
Record GpsLocation := mkGps {
  gps_id : Z;
  gps_vehicleId : Z;
  gps_shiftId : option Z;
  gps_latitude : Z;
  gps_longitude : Z;
  gps_recordedAt : Z
}.

Record Store := mkStore {
  drivers : list Driver;
  vehicles : list Vehicle;
  locations : list Z;
  products : list Z;
  vehicleAllocations : list VehicleAllocation;
  shifts : list Shift;
  orders : list Order;
  orderAttempts : list OrderAttempt;
  inventory : list Inventory;
  gpsLocations : list GpsLocation
}.

Definition with_allocations (st : Store) l :=
  mkStore (drivers st) (vehicles st) (locations st) (products st) l
    (shifts st) (orders st) (orderAttempts st) (inventory st) (gpsLocations st).
Definition with_shifts (st : Store) l :=
  mkStore (drivers st) (vehicles st) (locations st) (products st)
    (vehicleAllocations st) l (orders st) (orderAttempts st) (inventory st)
    (gpsLocations st).
Definition with_orders (st : Store) l :=
  mkStore (drivers st) (vehicles st) (locations st) (products st)
    (vehicleAllocations st) (shifts st) l (orderAttempts st) (inventory st)
    (gpsLocations st).
Definition with_attempts (st : Store) l :=
  mkStore (drivers st) (vehicles st) (locations st) (products st)
    (vehicleAllocations st) (shifts st) (orders st) l (inventory st)
    (gpsLocations st).
Definition with_inventory (st : Store) l :=
  mkStore (drivers st) (vehicles st) (locations st) (products st)
    (vehicleAllocations st) (shifts st) (orders st) (orderAttempts st) l
    (gpsLocations st).
Definition with_gps (st : Store) l :=
  mkStore (drivers st) (vehicles st) (locations st) (products st)
    (vehicleAllocations st) (shifts st) (orders st) (orderAttempts st)
    (inventory st) l.

(** Autoincrement primary keys. *)
Definition next_id (ids : list Z) : Z := 1 + fold_right Z.max 0 ids.

(* ------------------------------------------------------------------ *)
(** ** Errors ([utils/errors.js]) and messages

    Messages are the code's template strings, kept with the values they
    interpolate. *)

Inductive Msg :=
  | MsgText (s : string)
  | MsgNotFound (entity : string) (id : Z)
  | MsgValidation (fields : list string)
  | MsgCannotAssignOrder (s : OrderStatus.t)
  | MsgCannotStartOrder (s : OrderStatus.t)
  | MsgCannotCompleteOrder (s : OrderStatus.t)
  | MsgCannotFailOrder (s : OrderStatus.t)
  | MsgCannotEndShift (s : ShiftStatus.t)
  (** [Cannot end shift: ${n} incomplete order(s) (IDs: ${ids})...] *)
  | MsgIncompleteOrders (count : nat) (ids : list Z)
  | MsgNoVehicleAllocated (driverName : string)
  | MsgShiftAlreadyScheduled (date : Z)
  (** [Vehicle '${registrationNumber}' is already allocated for ${date}] *)
  | MsgVehicleAlreadyAllocated (registrationNumber : string) (date : Z)
  (** [Driver '${name}' already has a vehicle allocated for ${date}] *)
  | MsgDriverAlreadyHasVehicle (driverName : string) (date : Z)
  | MsgAllocationHasShifts (count : nat)
  | MsgGpsNoActiveShift (registrationNumber : string).

(** The four [AppError] subclasses, and Prisma's known request errors
    ([error.code], [error.meta.target]) that reach a [catch]. *)
Inductive Exn :=
  | NotFoundError (m : Msg)
  | ValidationError (m : Msg)
  | ConflictError (m : Msg)
  | BadRequestError (m : Msg)
  | PrismaError (code : string) (target : list string)
  (* Prisma refuses an [Int] value outside 32 bits; the error carries none
     of the codes [errorMiddleware] knows *)
  | IntOutOfRangeError.

(* ------------------------------------------------------------------ *)
(** ** The service monad *)

Inductive Result (A : Type) :=
  | Ok (a : A) (st : Store)
  | Err (e : Exn).
Arguments Ok {A} a st.
Arguments Err {A} e.

Definition M (A : Type) := Store -> Result A.

Definition ret {A} (a : A) : M A := fun st => Ok a st.
Definition bind {A B} (m : M A) (k : A -> M B) : M B :=
  fun st => match m st with Ok a st' => k a st' | Err e => Err e end.
Definition throw {A} (e : Exn) : M A := fun _ => Err e.
Definition reads {A} (f : Store -> A) : M A := fun st => Ok (f st) st.
Definition modify (f : Store -> Store) : M unit := fun st => Ok tt (f st).
(** [try { m } catch (error) { h(error) }] *)
Definition catch {A} (m : M A) (h : Exn -> M A) : M A :=
  fun st => match m st with Ok a st' => Ok a st' | Err e => h e st end.

Notation "x <- m ;; k" := (bind m (fun x => k))
  (at level 61, m at next level, right associativity).
Notation "m ;;; k" := (bind m (fun _ => k))
  (at level 61, right associativity).

(** [if (!x) throw e] *)
Definition find_or {A} (o : option A) (e : Exn) : M A :=
  match o with Some a => ret a | None => throw e end.
(** [if (cond) throw e] *)
Definition throw_if (cond : bool) (e : Exn) : M unit :=
  if cond then throw e else ret tt.

(** [prisma.$transaction(async (tx) => ...)]: all writes of [m] or none. *)
Definition transaction {A} (m : M A) : M A := m.

(* ------------------------------------------------------------------ *)
(** ** Queries *)

Definition opt_eqb (a b : option Z) : bool :=
  match a, b with
  | Some x, Some y => x =? y
  | None, None => true
  | _, _ => false
  end.

Definition find_driver (st : Store) (id : Z) : option Driver :=
  find (fun d => driver_id d =? id) (drivers st).
Definition find_vehicle (st : Store) (id : Z) : option Vehicle :=
  find (fun v => vehicle_id v =? id) (vehicles st).
Definition find_location (st : Store) (id : Z) : option Z :=
  find (fun l => l =? id) (locations st).
Definition find_product (st : Store) (id : Z) : option Z :=
  find (fun p => p =? id) (products st).
Definition find_allocation (st : Store) (id : Z) : option VehicleAllocation :=
  find (fun a => va_id a =? id) (vehicleAllocations st).
Definition find_shift (st : Store) (id : Z) : option Shift :=
  find (fun s => sh_id s =? id) (shifts st).
Definition find_order (st : Store) (id : Z) : option Order :=
  find (fun o => o_id o =? id) (orders st).
Definition find_inventory (st : Store) (locationId productId : Z)
  : option Inventory :=
  find (fun r => (inv_locationId r =? locationId)
                 && (inv_productId r =? productId)) (inventory st).

(** Quantity held at a location for a product (0 when no row exists). *)
Definition inventory_quantity (st : Store) (l p : Z) : Z :=
  match find_inventory st l p with Some r => inv_quantity r | None => 0 end.

(** [findFirst({ where: { driverId, status: 'active' } })] *)
Definition find_active_shift (st : Store) (driverId : Z) : option Shift :=
  find (fun s => (sh_driverId s =? driverId)
                 && ShiftStatus.eqb (sh_status s) ShiftStatus.active) (shifts st).

(* ------------------------------------------------------------------ *)
(** ** Writes: [create], [update] by primary key, [upsert], [delete]

    An [update] whose row is missing raises Prisma's P2025. *)

Definition update_rows {A} (key : A -> Z) (id : Z) (f : A -> A) (l : list A) :=
  map (fun x => if key x =? id then f x else x) l.

Definition order_update (id : Z) (f : Order -> Order) : M Order :=
  o <- reads (fun st => find_order st id);;
  match o with
  | Some o =>
      modify (fun st => with_orders st (update_rows o_id id f (orders st)));;;
      ret (f o)
  | None => throw (PrismaError "P2025" [])
  end.

Definition find_attempt (st : Store) (id : Z) : option OrderAttempt :=
  find (fun a => at_id a =? id) (orderAttempts st).

Definition attempt_update (id : Z) (f : OrderAttempt -> OrderAttempt)
  : M OrderAttempt :=
  a <- reads (fun st => find_attempt st id);;
  match a with
  | Some a =>
      modify (fun st =>
        with_attempts st (update_rows at_id id f (orderAttempts st)));;;
      ret (f a)
  | None => throw (PrismaError "P2025" [])
  end.

Definition attempt_create (orderId shiftId : Z) (status : AttemptStatus.t)
    (failureReason : option string) (completedAt : option Z) : M OrderAttempt :=
  fun st =>
    let a := mkAttempt (next_id (map at_id (orderAttempts st))) orderId shiftId
               status failureReason completedAt in
    Ok a (with_attempts st (orderAttempts st ++ [a])).

Definition shift_update (id : Z) (f : Shift -> Shift) : M Shift :=
  s <- reads (fun st => find_shift st id);;
  match s with
  | Some s =>
      modify (fun st => with_shifts st (update_rows sh_id id f (shifts st)));;;
      ret (f s)
  | None => throw (PrismaError "P2025" [])
  end.

(** [shift.create]; the unique key [driverId_shiftDate] raises P2002. *)
Definition shift_create (driverId : Z) (vehicleAllocationId : option Z)
    (shiftDate : Z) (status : ShiftStatus.t) (startTime : option Z) : M Shift :=
  fun st =>
    if existsb (fun s => (sh_driverId s =? driverId) && (sh_shiftDate s =? shiftDate))
         (shifts st)
    then Err (PrismaError "P2002" ["driverId"; "shiftDate"])
    else
      let s := mkShift (next_id (map sh_id (shifts st))) driverId
                 vehicleAllocationId shiftDate status startTime None in
      Ok s (with_shifts st (shifts st ++ [s])).

(** [tx.inventory.upsert] on the unique key [locationId_productId]. *)
Definition inventory_upsert_increment (locationId productId quantity : Z)
  : M unit :=
  fun st =>
    match find_inventory st locationId productId with
    | Some _ =>
        Ok tt (with_inventory st
          (map (fun r => if (inv_locationId r =? locationId)
                            && (inv_productId r =? productId)
                         then mkInventory (inv_id r) (inv_locationId r)
                                (inv_productId r) (inv_quantity r + quantity)
                         else r) (inventory st)))
    | None =>
        Ok tt (with_inventory st (inventory st ++
          [mkInventory (next_id (map inv_id (inventory st)))
             locationId productId quantity]))
    end.

(* ------------------------------------------------------------------ *)
(** ** Order service ([services/order.service.js]) *)

Definition set_order_status (s : OrderStatus.t) (o : Order) : Order :=
  mkOrder (o_id o) (o_destinationId o) (o_productId o) (o_quantity o) s
    (o_assignedDriverId o) (o_assignedDate o).

Definition order_getById (id : Z) : M Order :=
  o <- reads (fun st => find_order st id);;
  find_or o (NotFoundError (MsgNotFound "Order" id)).

(** Request body of [POST /orders] after validation. *)
Record OrderInput := mkOrderInput {
  in_destinationId : Z;
  in_productId : Z;
  in_quantity : Z;
  in_assignedDriverId : option Z;
  in_assignedDate : option Z
}.

(** JavaScript truthiness of a numeric id ([if (data.assignedDriverId)]). *)
Definition truthy_id (x : option Z) : bool :=
  match x with Some n => negb (n =? 0) | None => false end.

Definition order_create (data : OrderInput) (now : Z) : M Order :=
  destination <- reads (fun st => find_location st (in_destinationId data));;
  product <- reads (fun st => find_product st (in_productId data));;
  _ <- find_or destination
         (NotFoundError (MsgNotFound "Destination" (in_destinationId data)));;
  _ <- find_or product (NotFoundError (MsgNotFound "Product" (in_productId data)));;
  st_date <-
    (if truthy_id (in_assignedDriverId data) then
       let d := match in_assignedDriverId data with Some d => d | None => 0 end in
       driver <- reads (fun st => find_driver st d);;
       _ <- find_or driver (NotFoundError (MsgNotFound "Driver" d));;
       (* data.status = 'assigned'; date to today if not provided *)
       ret (OrderStatus.assigned,
            match in_assignedDate data with
            | Some t => Some t
            | None => Some now
            end)
     else ret (OrderStatus.pending, in_assignedDate data));;
  (* [prisma.order.create]: [assignedDate] is a [DATE] column *)
  fun st =>
    let o := mkOrder (next_id (map o_id (orders st))) (in_destinationId data)
               (in_productId data) (in_quantity data) (fst st_date)
               (in_assignedDriverId data) (option_map db_date (snd st_date)) in
    Ok o (with_orders st (orders st ++ [o])).

Definition order_assign (id driverId : Z) (assignedDate : option Z) (now : Z)
  : M Order :=
  order <- order_getById id;;
  throw_if (negb (OrderStatus.eqb (o_status order) OrderStatus.pending)
            && negb (OrderStatus.eqb (o_status order) OrderStatus.assigned))
    (ConflictError (MsgCannotAssignOrder (o_status order)));;;
  driver <- reads (fun st => find_driver st driverId);;
  _ <- find_or driver (NotFoundError (MsgNotFound "Driver" driverId));;
  let date := midnight (match assignedDate with Some t => t | None => now end) in
  order_update id (fun o =>
    mkOrder (o_id o) (o_destinationId o) (o_productId o) (o_quantity o)
      OrderStatus.assigned (Some driverId) (Some date)).

Definition order_startOrder (id driverId : Z) : M Order :=
  order <- order_getById id;;
  throw_if (negb (opt_eqb (o_assignedDriverId order) (Some driverId)))
    (BadRequestError (MsgText "This order is not assigned to you"));;;
  throw_if (negb (OrderStatus.eqb (o_status order) OrderStatus.assigned))
    (ConflictError (MsgCannotStartOrder (o_status order)));;;
  activeShift <- reads (fun st => find_active_shift st driverId);;
  activeShift <- find_or activeShift (BadRequestError
    (MsgText "Cannot start order: you do not have an active shift"));;
  transaction (
    updatedOrder <- order_update id (set_order_status OrderStatus.in_progress);;
    _ <- attempt_create id (sh_id activeShift) AttemptStatus.in_progress None None;;
    ret updatedOrder).

(** [orderAttempt.findFirst({ where: { orderId, shiftId, status: 'in_progress' } })] *)
Definition find_open_attempt (st : Store) (orderId shiftId : Z)
  : option OrderAttempt :=
  find (fun a => (at_orderId a =? orderId) && (at_shiftId a =? shiftId)
                 && AttemptStatus.eqb (at_status a) AttemptStatus.in_progress)
    (orderAttempts st).

Definition resolve_attempt (s : AttemptStatus.t) (reason : option string)
    (now : Z) (a : OrderAttempt) : OrderAttempt :=
  mkAttempt (at_id a) (at_orderId a) (at_shiftId a) s
    (match reason with Some r => Some r | None => at_failureReason a end)
    (Some now).

Definition order_completeOrder (id driverId now : Z) : M Order :=
  order <- order_getById id;;
  throw_if (negb (opt_eqb (o_assignedDriverId order) (Some driverId)))
    (BadRequestError (MsgText "This order is not assigned to you"));;;
  throw_if (negb (OrderStatus.eqb (o_status order) OrderStatus.in_progress))
    (ConflictError (MsgCannotCompleteOrder (o_status order)));;;
  activeShift <- reads (fun st => find_active_shift st driverId);;
  activeShift <- find_or activeShift (BadRequestError
    (MsgText "Cannot complete order: you do not have an active shift"));;
  attempt <- reads (fun st => find_open_attempt st id (sh_id activeShift));;
  attempt <- find_or attempt
    (BadRequestError (MsgText "No active attempt found for this order"));;
  transaction (
    updatedOrder <- order_update id (set_order_status OrderStatus.completed);;
    _ <- attempt_update (at_id attempt)
           (resolve_attempt AttemptStatus.completed None now);;
    inventory_upsert_increment (o_destinationId order) (o_productId order)
      (o_quantity order);;;
    ret updatedOrder).

Definition order_failOrder (id driverId : Z) (reason : string) (now : Z)
  : M Order :=
  order <- order_getById id;;
  throw_if (negb (opt_eqb (o_assignedDriverId order) (Some driverId)))
    (BadRequestError (MsgText "This order is not assigned to you"));;;
  throw_if (negb (OrderStatus.eqb (o_status order) OrderStatus.assigned)
            && negb (OrderStatus.eqb (o_status order) OrderStatus.in_progress))
    (ConflictError (MsgCannotFailOrder (o_status order)));;;
  activeShift <- reads (fun st => find_active_shift st driverId);;
  activeShift <- find_or activeShift (BadRequestError
    (MsgText "Cannot fail order: you do not have an active shift"));;
  attempt <- reads (fun st => find_open_attempt st id (sh_id activeShift));;
  transaction (
    updatedOrder <- order_update id (set_order_status OrderStatus.failed);;
    match attempt with
    | Some attempt =>
        _ <- attempt_update (at_id attempt)
               (resolve_attempt AttemptStatus.failed (Some reason) now);;
        ret updatedOrder
    | None =>
        _ <- attempt_create id (sh_id activeShift) AttemptStatus.failed
               (Some reason) (Some now);;
        ret updatedOrder
    end).

(* ------------------------------------------------------------------ *)
(** ** Allocation service ([services/allocation.service.js]) *)

(** Unique keys [vehicleId_allocationDate] and [driverId_allocationDate] of
    [VehicleAllocation], checked by the database on every write, in the
    order the schema declares them; [except] is the row being updated.
    Foreign keys to [Vehicle] and [Driver] raise P2003. *)
Definition allocation_constraint_error (st : Store) (except : option Z)
    (vehicleId driverId date : Z) : option Exn :=
  let others := filter (fun a => negb (opt_eqb (Some (va_id a)) except))
                  (vehicleAllocations st) in
  if existsb (fun a => (va_vehicleId a =? vehicleId)
                       && (va_allocationDate a =? date)) others
  then Some (PrismaError "P2002" ["vehicleId"; "allocationDate"])
  else if existsb (fun a => (va_driverId a =? driverId)
                            && (va_allocationDate a =? date)) others
  then Some (PrismaError "P2002" ["driverId"; "allocationDate"])
  else match find_vehicle st vehicleId, find_driver st driverId with
       | Some _, Some _ => None
       | _, _ => Some (PrismaError "P2003" [])
       end.

Definition vehicleAllocation_create (vehicleId driverId date : Z)
  : M VehicleAllocation :=
  fun st =>
    match allocation_constraint_error st None vehicleId driverId date with
    | Some e => Err e
    | None =>
        let a := mkAllocation (next_id (map va_id (vehicleAllocations st)))
                   vehicleId driverId date in
        Ok a (with_allocations st (vehicleAllocations st ++ [a]))
    end.

(** Whether a row already holds the vehicle, resp. the driver, on [date]. *)
Definition vehicle_booked (st : Store) (v date : Z) : bool :=
  existsb (fun a => (va_vehicleId a =? v) && (va_allocationDate a =? date))
    (vehicleAllocations st).

Definition driver_booked (st : Store) (d date : Z) : bool :=
  existsb (fun a => (va_driverId a =? d) && (va_allocationDate a =? date))
    (vehicleAllocations st).

(** [error.meta?.target || []] then [target.includes(field)] *)
Definition includes (target : list string) (field : string) : bool :=
  existsb (String.eqb field) target.

Definition allocation_getById (id : Z) : M VehicleAllocation :=
  a <- reads (fun st => find_allocation st id);;
  find_or a (NotFoundError (MsgNotFound "Allocation" id)).

Definition allocation_create (vehicleId driverId allocationDate : Z)
  : M VehicleAllocation :=
  vehicle <- reads (fun st => find_vehicle st vehicleId);;
  driver <- reads (fun st => find_driver st driverId);;
  vehicle <- find_or vehicle (NotFoundError (MsgNotFound "Vehicle" vehicleId));;
  driver <- find_or driver (NotFoundError (MsgNotFound "Driver" driverId));;
  let date := midnight allocationDate in
  catch (vehicleAllocation_create vehicleId driverId date)
    (fun error =>
       match error with
       | PrismaError code target =>
           if String.eqb code "P2002" then
             if includes target "vehicleId" then
               throw (ConflictError
                 (MsgVehicleAlreadyAllocated (registrationNumber vehicle) date))
             else if includes target "driverId" then
               throw (ConflictError
                 (MsgDriverAlreadyHasVehicle (driver_name driver) date))
             else throw (ConflictError (MsgText
               "Allocation conflict: vehicle or driver already allocated for this date"))
           else throw error
       | _ => throw error
       end).

(** Fields of [PUT /allocations/:id]. *)
Record AllocationChanges := mkChanges {
  ch_vehicleId : option Z;
  ch_driverId : option Z;
  ch_allocationDate : option Z
}.

Definition allocation_update (id : Z) (data : AllocationChanges)
  : M VehicleAllocation :=
  allocation <- allocation_getById id;;
  activeShift <- reads (fun st =>
    find (fun s => opt_eqb (sh_vehicleAllocationId s) (Some id)
                   && ShiftStatus.eqb (sh_status s) ShiftStatus.active)
      (shifts st));;
  throw_if (match activeShift with Some _ => true | None => false end)
    (ConflictError
       (MsgText "Cannot update allocation: there is an active shift using it"));;;
  let v := match ch_vehicleId data with Some v => v | None => va_vehicleId allocation end in
  let d := match ch_driverId data with Some d => d | None => va_driverId allocation end in
  let t := match ch_allocationDate data with
           | Some t => midnight t | None => va_allocationDate allocation end in
  catch
    (fun st =>
       match allocation_constraint_error st (Some id) v d t with
       | Some e => Err e
       | None =>
           let a := mkAllocation id v d t in
           Ok a (with_allocations st
                   (update_rows va_id id (fun _ => a) (vehicleAllocations st)))
       end)
    (fun error =>
       match error with
       | PrismaError code _ =>
           if String.eqb code "P2002"
           then throw (ConflictError
                  (MsgText "Vehicle is already allocated for this date"))
           else throw error
       | _ => throw error
       end).

Definition allocation_remove (id : Z) : M unit :=
  _ <- allocation_getById id;;
  shiftCount <- reads (fun st =>
    List.length (filter (fun s => opt_eqb (sh_vehicleAllocationId s) (Some id))
              (shifts st)));;
  throw_if (Nat.ltb 0 shiftCount)
    (ConflictError (MsgAllocationHasShifts shiftCount));;;
  modify (fun st => with_allocations st
    (filter (fun a => negb (va_id a =? id)) (vehicleAllocations st))).

(** [getByDriverAndDate] *)
Definition find_allocation_for (st : Store) (driverId date : Z)
  : option VehicleAllocation :=
  find (fun a => (va_driverId a =? driverId)
                 && (va_allocationDate a =? midnight date))
    (vehicleAllocations st).

(** [validators/allocation.validator.js]: [vehicleId] and [driverId]
    positive integers, and the custom rule
    [if (value < getTodayAtMidnight()) return helpers.error('date.min')]. *)
Definition allocation_validate (vehicleId driverId allocationDate now : Z)
  : list string :=
  (if vehicleId <=? 0 then ["vehicleId"] else [])
  ++ (if driverId <=? 0 then ["driverId"] else [])
  ++ (if allocationDate <? midnight now
      then ["allocationDate: Allocation date cannot be in the past"] else []).

(** [POST /allocations]: [validate(allocationValidator.create)] then
    [allocationService.create]. *)
Definition allocate (vehicleId driverId allocationDate now : Z)
  : M VehicleAllocation :=
  match allocation_validate vehicleId driverId allocationDate now with
  | [] => allocation_create vehicleId driverId allocationDate
  | errs => throw (ValidationError (MsgValidation errs))
  end.

(** [PUT /allocations/:id]: [validate(allocationValidator.update)] then
    [allocationService.update]. *)
Definition modify_allocation (id : Z) (data : AllocationChanges) (now : Z)
  : M VehicleAllocation :=
  let errs :=
    (match ch_vehicleId data with
     | Some v => if v <=? 0 then ["vehicleId"] else [] | None => [] end)
    ++ (match ch_driverId data with
        | Some d => if d <=? 0 then ["driverId"] else [] | None => [] end)
    ++ (match ch_allocationDate data with
        | Some t => if t <? midnight now
                    then ["allocationDate: Allocation date cannot be in the past"]
                    else []
        | None => [] end) in
  match errs with
  | [] => allocation_update id data
  | errs => throw (ValidationError (MsgValidation errs))
  end.

(* ------------------------------------------------------------------ *)
(** ** Shift service ([services/shift.service.js]) *)

Definition shift_getById (id : Z) : M Shift :=
  s <- reads (fun st => find_shift st id);;
  find_or s (NotFoundError (MsgNotFound "Shift" id)).

(** [findUnique({ where: { driverId_shiftDate: { driverId, shiftDate } } })] *)
Definition find_shift_for (st : Store) (driverId date : Z) : option Shift :=
  find (fun s => (sh_driverId s =? driverId) && (sh_shiftDate s =? date))
    (shifts st).

Definition shift_schedule (driverId shiftDate : Z) : M Shift :=
  driver <- reads (fun st => find_driver st driverId);;
  _ <- find_or driver (NotFoundError (MsgNotFound "Driver" driverId));;
  let date := midnight shiftDate in
  existingShift <- reads (fun st => find_shift_for st driverId date);;
  throw_if (match existingShift with Some _ => true | None => false end)
    (ConflictError (MsgShiftAlreadyScheduled date));;;
  shift_create driverId None date ShiftStatus.scheduled None.

Definition shift_start (driverId now : Z) : M Shift :=
  driver <- reads (fun st => find_driver st driverId);;
  driver <- find_or driver (NotFoundError (MsgNotFound "Driver" driverId));;
  let today := midnight now in
  activeShift <- reads (fun st => find_active_shift st driverId);;
  throw_if (match activeShift with Some _ => true | None => false end)
    (ConflictError (MsgText "Driver already has an active shift"));;;
  allocation <- reads (fun st => find_allocation_for st driverId today);;
  allocation <- find_or allocation
    (BadRequestError (MsgNoVehicleAllocated (driver_name driver)));;
  (* Check if there's a pre-scheduled shift for today *)
  scheduledShift <- reads (fun st => find_shift_for st driverId today);;
  match scheduledShift with
  | Some scheduledShift =>
      shift_update (sh_id scheduledShift) (fun s =>
        mkShift (sh_id s) (sh_driverId s) (Some (va_id allocation))
          (sh_shiftDate s) ShiftStatus.active (Some now) (sh_endTime s))
  | None =>
      shift_create driverId (Some (va_id allocation)) today ShiftStatus.active
        (Some now)
  end.

(** The [where] clause of the incomplete-orders query in [end]. *)
Definition blocks_shift_end (driverId shiftDate : Z) (o : Order) : bool :=
  opt_eqb (o_assignedDriverId o) (Some driverId)
  && opt_eqb (o_assignedDate o) (Some shiftDate)
  && (OrderStatus.eqb (o_status o) OrderStatus.assigned
      || OrderStatus.eqb (o_status o) OrderStatus.in_progress).

Definition shift_end (id driverId now : Z) : M Shift :=
  shift <- shift_getById id;;
  throw_if (negb (sh_driverId shift =? driverId))
    (BadRequestError (MsgText "This shift belongs to a different driver"));;;
  throw_if (negb (ShiftStatus.eqb (sh_status shift) ShiftStatus.active))
    (BadRequestError (MsgCannotEndShift (sh_status shift)));;;
  incompleteOrders <- reads (fun st =>
    filter (blocks_shift_end driverId (sh_shiftDate shift)) (orders st));;
  throw_if (Nat.ltb 0 (List.length incompleteOrders))
    (BadRequestError (MsgIncompleteOrders (List.length incompleteOrders)
                        (map o_id incompleteOrders)));;;
  shift_update id (fun s =>
    mkShift (sh_id s) (sh_driverId s) (sh_vehicleAllocationId s)
      (sh_shiftDate s) ShiftStatus.completed (sh_startTime s) (Some now)).

(* ------------------------------------------------------------------ *)
(** ** GPS service ([services/gps.service.js]) *)

(** [where: { status: 'active', vehicleAllocation: { vehicleId } }] *)
Definition shift_drives_vehicle (st : Store) (vehicleId : Z) (s : Shift) : bool :=
  ShiftStatus.eqb (sh_status s) ShiftStatus.active
  && match sh_vehicleAllocationId s with
     | Some aid =>
         match find_allocation st aid with
         | Some a => va_vehicleId a =? vehicleId
         | None => false
         end
     | None => false
     end.

Definition gps_create (vehicleId latitude longitude : Z)
    (recordedAt : option Z) (now : Z) : M GpsLocation :=
  vehicle <- reads (fun st => find_vehicle st vehicleId);;
  vehicle <- find_or vehicle (NotFoundError (MsgNotFound "Vehicle" vehicleId));;
  activeShift <- reads (fun st =>
    find (shift_drives_vehicle st vehicleId) (shifts st));;
  activeShift <- find_or activeShift
    (BadRequestError (MsgGpsNoActiveShift (registrationNumber vehicle)));;
  fun st =>
    let g := mkGps (next_id (map gps_id (gpsLocations st))) vehicleId
               (Some (sh_id activeShift)) latitude longitude
               (match recordedAt with Some t => t | None => now end) in
    Ok g (with_gps st (gpsLocations st ++ [g])).

(* ------------------------------------------------------------------ *)
(** ** Requests

    Every endpoint of the core as one operation, run at time [now]; a
    request that fails leaves the store unchanged. *)

Inductive Op :=
  | OpAllocate (vehicleId driverId allocationDate : Z)
  | OpModifyAllocation (id : Z) (data : AllocationChanges)
  | OpReleaseAllocation (id : Z)
  | OpScheduleShift (driverId shiftDate : Z)
  | OpStartShift (driverId : Z)
  | OpEndShift (id driverId : Z)
  | OpCreateOrder (data : OrderInput)
  | OpAssignOrder (id driverId : Z) (assignedDate : option Z)
  | OpStartOrder (id driverId : Z)
  | OpCompleteOrder (id driverId : Z)
  | OpFailOrder (id driverId : Z) (reason : string)
  | OpRecordGps (vehicleId latitude longitude : Z) (recordedAt : option Z).

Definition exec (op : Op) (now : Z) : M unit :=
  match op with
  | OpAllocate v d t => allocate v d t now;;; ret tt
  | OpModifyAllocation id data => modify_allocation id data now;;; ret tt
  | OpReleaseAllocation id => allocation_remove id
  | OpScheduleShift d t => shift_schedule d t;;; ret tt
  | OpStartShift d => shift_start d now;;; ret tt
  | OpEndShift id d => shift_end id d now;;; ret tt
  | OpCreateOrder data => order_create data now;;; ret tt
  | OpAssignOrder id d t => order_assign id d t now;;; ret tt
  | OpStartOrder id d => order_startOrder id d;;; ret tt
  | OpCompleteOrder id d => order_completeOrder id d now;;; ret tt
  | OpFailOrder id d r => order_failOrder id d r now;;; ret tt
  | OpRecordGps v la lo t => gps_create v la lo t now;;; ret tt
  end.

Definition step (st : Store) (req : Op * Z) : Store :=
  match exec (fst req) (snd req) st with Ok _ st' => st' | Err _ => st end.

Definition run (reqs : list (Op * Z)) (st : Store) : Store :=
  fold_left step reqs st.

(* ------------------------------------------------------------------ *)
(** ** A small fleet *)

Definition day (n : Z) : Z := n * ms_per_day.

Definition fleet : Store :=
  mkStore [mkDriver 1 "John Smith"; mkDriver 2 "Jane Doe"]
    [mkVehicle 1 "TX-FP-001"; mkVehicle 2 "TX-FP-002"]
    [3] [1] [] [] [] [] [] [].

Definition result_ok {A} (r : Result A) : bool :=
  match r with Ok _ _ => true | Err _ => false end.

(** The two unique keys of [VehicleAllocation], and its primary key, hold in
    the store. *)
Definition alloc_keys_unique (st : Store) : Prop :=
  NoDup (map va_id (vehicleAllocations st)) /\
  NoDup (map (fun a => (va_vehicleId a, va_allocationDate a))
           (vehicleAllocations st)) /\
  NoDup (map (fun a => (va_driverId a, va_allocationDate a))
           (vehicleAllocations st)).

(** A computation that, when it succeeds, leaves the allocations as they
    were. *)
Definition keeps_allocs {A} (m : M A) : Prop :=
  forall st a st', m st = Ok a st' ->
  vehicleAllocations st' = vehicleAllocations st.

(* ------------------------------------------------------------------ *)
(** ** Read side of the services

    [findMany] with [orderBy] on a field returns the rows that pass its
    [where] ordered by that field.  Rows with equal values come out in an
    order the database leaves open; [sort_by] fixes one, and no statement
    below depends on it. *)

Fixpoint insert_by {A} (le : A -> A -> bool) (x : A) (l : list A) : list A :=
  match l with
  | [] => [x]
  | y :: l' => if le x y then x :: l else y :: insert_by le x l'
  end.

Definition sort_by {A} (le : A -> A -> bool) (l : list A) : list A :=
  fold_right (insert_by le) [] l.

(** [allocationService.getAvailableVehicles(date)] *)
Definition allocation_getAvailableVehicles (date : Z) : M (list Vehicle) :=
  let targetDate := midnight date in
  allocatedIds <- reads (fun st =>
    map va_vehicleId
      (filter (fun a => va_allocationDate a =? targetDate)
         (vehicleAllocations st)));;
  reads (fun st =>
    sort_by (fun a b => vehicle_id a <=? vehicle_id b)
      (filter (fun v => negb (existsb (Z.eqb (vehicle_id v)) allocatedIds))
         (vehicles st))).

(** [${order.status}] in a message. *)
Definition order_status_name (s : OrderStatus.t) : string :=
  match s with
  | OrderStatus.pending => "pending"
  | OrderStatus.assigned => "assigned"
  | OrderStatus.in_progress => "in_progress"
  | OrderStatus.completed => "completed"
  | OrderStatus.failed => "failed"
  end.

(** [prisma.order.delete({ where: { id } })].  [OrderAttempt.orderId] is a
    required relation declared without [onDelete], so Prisma's default
    [Restrict] refuses to delete an order an attempt refers to (P2003). *)
Definition order_delete (id : Z) : M unit :=
  fun st =>
    match find_order st id with
    | None => Err (PrismaError "P2025" [])
    | Some _ =>
        if existsb (fun a => at_orderId a =? id) (orderAttempts st)
        then Err (PrismaError "P2003" [])
        else Ok tt (with_orders st
                      (filter (fun o => negb (o_id o =? id)) (orders st)))
    end.

(** [orderService.remove(id)] *)
Definition order_remove (id : Z) : M unit :=
  order <- order_getById id;;
  throw_if (negb (OrderStatus.eqb (o_status order) OrderStatus.pending))
    (ConflictError (MsgText ("Cannot delete order: status is '"
       ++ order_status_name (o_status order)
       ++ "'. Only pending orders can be deleted.")));;;
  order_delete id.

(** Body of [PUT /orders/:id] ([orderValidator.update]): every field is
    optional, and [status] is any of the five. *)
Record OrderChanges := mkOrderChanges {
  oc_destinationId : option Z;
  oc_productId : option Z;
  oc_quantity : option Z;
  oc_status : option OrderStatus.t
}.

(** [data] of [prisma.order.update]: the fields given, the others kept. *)
Definition apply_order_changes (data : OrderChanges) (o : Order) : Order :=
  mkOrder (o_id o)
    (match oc_destinationId data with Some x => x | None => o_destinationId o end)
    (match oc_productId data with Some x => x | None => o_productId o end)
    (match oc_quantity data with Some x => x | None => o_quantity o end)
    (match oc_status data with Some s => s | None => o_status o end)
    (o_assignedDriverId o) (o_assignedDate o).

(** A value of an [Int] column (MySQL [INT]). *)
Definition int4 (x : Z) : bool := (-2147483648 <=? x) && (x <=? 2147483647).

(** [orderService.update(id, data)]: [getById], then [prisma.order.update]
    with [data] as given: the [INT] columns [destinationId] and [productId]
    refuse values beyond 32 bits, which the validator lets through; the
    foreign keys raise P2003. *)
Definition order_service_update (id : Z) (data : OrderChanges) : M Order :=
  _ <- order_getById id;;
  throw_if (negb (match oc_destinationId data with Some x => int4 x | None => true end
                  && match oc_productId data with Some x => int4 x | None => true end))
    IntOutOfRangeError;;;
  fkOk <- reads (fun st =>
    match oc_destinationId data with
    | Some l => match find_location st l with Some _ => true | None => false end
    | None => true
    end
    && match oc_productId data with
       | Some p => match find_product st p with Some _ => true | None => false end
       | None => true
       end);;
  throw_if (negb fkOk) (PrismaError "P2003" []);;;
  order_update id (apply_order_changes data).

(** [recordedAt: { gte: new Date(from), lte: new Date(to) }], each bound
    present only when its query parameter is. *)
Definition in_range (from to : option Z) (t : Z) : bool :=
  match from with Some f => f <=? t | None => true end
  && match to with Some u => t <=? u | None => true end.

(** [orderBy: { recordedAt: 'desc' }] *)
Definition latest_first (a b : GpsLocation) : bool :=
  gps_recordedAt b <=? gps_recordedAt a.

(** [gpsService.getByVehicle(vehicleId, { from, to })] *)
Definition gps_getByVehicle (vehicleId : Z) (from to : option Z)
  : M (list GpsLocation) :=
  vehicle <- reads (fun st => find_vehicle st vehicleId);;
  _ <- find_or vehicle (NotFoundError (MsgNotFound "Vehicle" vehicleId));;
  reads (fun st =>
    sort_by latest_first
      (filter (fun g => (gps_vehicleId g =? vehicleId)
                        && in_range from to (gps_recordedAt g))
         (gpsLocations st))).

(** [gpsService.getByDriver(driverId, { from, to })] *)
Definition gps_getByDriver (driverId : Z) (from to : option Z)
  : M (list GpsLocation) :=
  driver <- reads (fun st => find_driver st driverId);;
  _ <- find_or driver (NotFoundError (MsgNotFound "Driver" driverId));;
  shiftIds <- reads (fun st =>
    map sh_id (filter (fun s => sh_driverId s =? driverId) (shifts st)));;
  match shiftIds with
  | [] => ret []
  | _ =>
      reads (fun st =>
        sort_by latest_first
          (filter (fun g =>
                     match gps_shiftId g with
                     | Some sid => existsb (Z.eqb sid) shiftIds
                     | None => false
                     end
                     && in_range from to (gps_recordedAt g))
             (gpsLocations st)))
  end.

(* ------------------------------------------------------------------ *)
(** ** Fleet dashboard ([services/fleet.service.js]) *)

(** One entry of [getStatus()]: the vehicle, the shift's driver row, the
    shift, the latest ping and the current orders. *)
Record FleetStatus := mkFleetStatus {
  fs_vehicle : Vehicle;
  fs_driver : option Driver;
  fs_shift : Shift;
  fs_location : option GpsLocation;
  fs_currentOrders : list Order
}.

(** [gpsLocation.findFirst({ where: { vehicleId }, orderBy: { recordedAt: 'desc' } })] *)
Definition latest_gps (st : Store) (vehicleId : Z) : option GpsLocation :=
  hd_error (sort_by latest_first
    (filter (fun g => gps_vehicleId g =? vehicleId) (gpsLocations st))).

(** [fleetService.getStatus()]; the [where] of [currentOrders] is the one of
    the incomplete-orders query of [shiftService.end]. *)
Definition fleet_getStatus : M (list FleetStatus) :=
  activeShifts <- reads (fun st =>
    filter (fun s => ShiftStatus.eqb (sh_status s) ShiftStatus.active)
      (shifts st));;
  fleetStatus <- reads (fun st =>
    map (fun shift =>
      let vehicle :=
        match sh_vehicleAllocationId shift with
        | Some aid =>
            match find_allocation st aid with
            | Some a => find_vehicle st (va_vehicleId a)
            | None => None
            end
        | None => None
        end in
      match vehicle with
      | None => None
      | Some vehicle =>
          Some (mkFleetStatus vehicle (find_driver st (sh_driverId shift)) shift
                  (latest_gps st (vehicle_id vehicle))
                  (filter (blocks_shift_end (sh_driverId shift)
                             (sh_shiftDate shift)) (orders st)))
      end) activeShifts);;
  (* fleetStatus.filter(Boolean) *)
  ret (flat_map (fun e => match e with Some e => [e] | None => [] end)
         fleetStatus).

(** [gpsService.getLatestForActiveVehicles()]: one [findFirst] per vehicle
    id, in the order of the active shifts. *)
Definition gps_getLatestForActiveVehicles : M (list GpsLocation) :=
  activeShifts <- reads (fun st =>
    filter (fun s => ShiftStatus.eqb (sh_status s) ShiftStatus.active)
      (shifts st));;
  vehicleIds <- reads (fun st =>
    flat_map (fun s =>
      match sh_vehicleAllocationId s with
      | Some aid =>
          match find_allocation st aid with
          | Some a => [va_vehicleId a]
          | None => []
          end
      | None => []
      end) activeShifts);;
  match vehicleIds with
  | [] => ret []
  | _ =>
      latestLocations <- reads (fun st => map (latest_gps st) vehicleIds);;
      ret (flat_map (fun g => match g with Some g => [g] | None => [] end)
             latestLocations)
  end.

(* ------------------------------------------------------------------ *)
(** ** Numbers in text

    [parseInt(s, 10)] and [${n}] on integers.  Strings are sequences of
    8-bit code units; the white space [parseInt] skips is the
    [WhiteSpace] and [LineTerminator] characters among them.  [parseInt10]
    reads the mathematical integer; the number [parseInt] returns is that
    integer rounded to a double ([to_number] below). *)

Definition js_space (c : ascii) : bool :=
  existsb (Nat.eqb (nat_of_ascii c)) [9; 10; 11; 12; 13; 32; 160]%nat.

Definition digit_value (c : ascii) : option Z :=
  let n := nat_of_ascii c in
  if (48 <=? n)%nat && (n <=? 57)%nat then Some (Z.of_nat n - 48) else None.

Fixpoint skip_spaces (s : string) : string :=
  match s with
  | String c s' => if js_space c then skip_spaces s' else s
  | EmptyString => EmptyString
  end.

(** The digits at the head of [s] read onto [acc]; [None] (NaN) when no
    digit has been read. *)
Fixpoint read_digits (acc : option Z) (s : string) : option Z :=
  match s with
  | String c s' =>
      match digit_value c with
      | Some d =>
          read_digits
            (Some (10 * match acc with Some a => a | None => 0 end + d)) s'
      | None => acc
      end
  | EmptyString => acc
  end.

Definition parseInt10 (s : string) : option Z :=
  match skip_spaces s with
  | String c s' =>
      if Ascii.eqb c "-"%char then option_map Z.opp (read_digits None s')
      else if Ascii.eqb c "+"%char then read_digits None s'
      else read_digits None (String c s')
  | EmptyString => None
  end.

(** Decimal digits of [n >= 0], least significant first; [fuel] bounds
    their number. *)
Fixpoint digits_rev (fuel : nat) (n : Z) : list Z :=
  match fuel with
  | O => []
  | S f => n mod 10 :: (if n <? 10 then [] else digits_rev f (n / 10))
  end.

Definition digit_char (d : Z) : ascii := ascii_of_nat (Z.to_nat (48 + d)).

(** [${n}] for an integer [n]. *)
Definition number_string (n : Z) : string :=
  let ds := string_of_list_ascii
              (map digit_char (rev (digits_rev (S (Z.to_nat (Z.log2 (Z.abs n))))
                                      (Z.abs n)))) in
  if n <? 0 then String "-"%char ds else ds.

(** The number whose decimal digits, least significant first, are [ds]. *)
Definition digits_value (ds : list Z) : Z :=
  fold_right (fun d a => 10 * a + d) 0 ds.

(** The numbers [parseInt] returns besides NaN: doubles with an integer
    value, and the infinities.  ([-0] is left out: it is below 1 and falsy
    like [0], and never stored.) *)
Inductive JsNumber := JsInt (n : Z) | JsInfinity | JsNegInfinity.

(** [a >= 0] rounded to the nearest double, ties to even; the result may
    reach 2^1024, which is no longer finite. *)
Definition round_double (a : Z) : Z :=
  if a <? 2 ^ 53 then a
  else
    let e := Z.log2 a - 52 in
    let m := Z.shiftr a e in
    let r := a - m * 2 ^ e in
    let half := 2 ^ (e - 1) in
    (if (half <? r) || ((r =? half) && Z.odd m) then m + 1 else m) * 2 ^ e.

(** The Number value of the integer [z] (ECMA-262 RoundMVResult: V8 rounds
    the digits [parseInt] reads correctly). *)
Definition to_number (z : Z) : JsNumber :=
  let r := round_double (Z.abs z) in
  if 2 ^ 1024 <=? r then (if z <? 0 then JsNegInfinity else JsInfinity)
  else JsInt (if z <? 0 then - r else r).

(** [parseInt(s, 10)]: [None] is NaN. *)
Definition js_parseInt (s : string) : option JsNumber :=
  option_map to_number (parseInt10 s).

(** Number of decimal digits of [n > 0]. *)
Definition dec_len (n : Z) : Z := Z.of_nat (String.length (number_string n)).

(** [n > 0] without its trailing zeros. *)
Fixpoint strip_zeros (fuel : nat) (n : Z) : Z :=
  match fuel with
  | O => n
  | S f => if (0 <? n) && (n mod 10 =? 0) then strip_zeros f (n / 10) else n
  end.

(** Number::toString of the double [x > 0], step 5: the integers
    [s * 10^(n-k)] of [k] significant digits nearest [x] from below and
    above; those whose Number value is [x]; of two, the closer one, and of
    two as close, the one with [s] even. *)
Definition shortest_candidate (x k : Z) : option Z :=
  let q := 10 ^ (dec_len x - k) in
  let lo := x / q * q in
  let hi := lo + q in
  let ok c := match to_number c with JsInt c' => c' =? x | _ => false end in
  match ok lo, ok hi with
  | true, true =>
      Some (if x - lo <? hi - x then lo
            else if hi - x <? x - lo then hi
            else if Z.even (lo / q) then lo else hi)
  | true, false => Some lo
  | false, true => Some hi
  | false, false => None
  end.

(** The same for [k], [k + 1], ...: the first that has one ([k] as small as
    possible). *)
Fixpoint shortest_from (fuel : nat) (x k : Z) : Z :=
  match fuel with
  | O => x
  | S f =>
      match shortest_candidate x k with
      | Some c => c
      | None => shortest_from f x (k + 1)
      end
  end.

Definition shortest (x : Z) : Z := shortest_from (Z.to_nat (dec_len x)) x 1.

(** [String(x)] (Number::toString with radix 10) of an integer-valued
    number: the [k] digits of [s], then [n - k] zeros when [n <= 21], that
    is when the value is below 10^21; otherwise the exponent form
    [d.ddde+(n-1)], or [de+(n-1)] when [k = 1]. *)
Definition js_number_string (x : JsNumber) : string :=
  match x with
  | JsInfinity => "Infinity"
  | JsNegInfinity => "-Infinity"
  | JsInt z =>
      if z =? 0 then "0"
      else
        let v := shortest (Z.abs z) in
        let sign (t : string) := if z <? 0 then String "-"%char t else t in
        if v <? 10 ^ 21 then sign (number_string v)
        else
          let e := ("e+" ++ number_string (dec_len v - 1))%string in
          sign (match number_string (strip_zeros (Z.to_nat (dec_len v)) v) with
                | String d EmptyString => String d e
                | String d rest => String d ("." ++ rest ++ e)%string
                | EmptyString => e
                end)
  end.

(** [parsed < 1] *)
Definition js_lt_one (x : JsNumber) : bool :=
  match x with JsInt n => n <? 1 | JsInfinity => false | JsNegInfinity => true end.

(* ------------------------------------------------------------------ *)
(** ** Route parameters ([middleware/parseId.middleware.js]) *)

(** A value of [req.params]: the text of the URL, or the number a
    middleware stored. *)
Inductive ParamValue := PStr (s : string) | PNum (x : JsNumber).

(** [req.params]: an object, so a name has at most one entry. *)
Definition Params := list (string * ParamValue).

Definition param_get (params : Params) (name : string) : option ParamValue :=
  option_map snd (find (fun kv => String.eqb (fst kv) name) params).

Definition param_set (params : Params) (name : string) (v : ParamValue)
  : Params :=
  map (fun kv => if String.eqb (fst kv) name then (name, v) else kv) params.

Definition param_truthy (v : ParamValue) : bool :=
  match v with
  | PStr s => negb (String.eqb s "")
  | PNum (JsInt n) => negb (n =? 0)
  | PNum _ => true
  end.

(** [parseInt(value, 10)]: a stored number is first turned into its
    string. *)
Definition param_parseInt (v : ParamValue) : option JsNumber :=
  match v with
  | PStr s => js_parseInt s
  | PNum x => js_parseInt (js_number_string x)
  end.

(** [parseId(paramName)] applied to [req.params]: the updated parameters,
    or the error passed on. *)
Definition parseId (paramName : string) (params : Params) : Exn + Params :=
  match param_get params paramName with
  | Some v =>
      if param_truthy v then
        match param_parseInt v with
        | Some parsed =>
            if js_lt_one parsed
            then inl (BadRequestError (MsgText
                   ("Invalid " ++ paramName ++ ": must be a positive integer")))
            else inr (param_set params paramName (PNum parsed))
        | None =>
            inl (BadRequestError (MsgText
              ("Invalid " ++ paramName ++ ": must be a positive integer")))
        end
      else inr params
  | None => inr params
  end.

(** [parseIds(...paramNames)]: the same body for each name in turn. *)
Fixpoint parseIds (paramNames : list string) (params : Params)
  : Exn + Params :=
  match paramNames with
  | [] => inr params
  | paramName :: rest =>
      match parseId paramName params with
      | inl e => inl e
      | inr params' => parseIds rest params'
      end
  end.

(* ------------------------------------------------------------------ *)
(** ** Error responses ([middleware/error.middleware.js])

    The errors a service raises.  Body-parser's [SyntaxError] is raised
    before any service runs and is not one of them. *)




(* ------------------------------------------------------------------ *)
(** ** Inventory service ([services/inventory.service.js]) *)

Definition inventory_getById (id : Z) : M Inventory :=
  r <- reads (fun st => find (fun r => inv_id r =? id) (inventory st));;
  find_or r (NotFoundError (MsgNotFound "Inventory record" id)).

(** [prisma.inventory.update({ where: { id }, data: { quantity } })] *)
Definition inventory_set_quantity (id quantity : Z) : M Inventory :=
  r <- reads (fun st => find (fun r => inv_id r =? id) (inventory st));;
  match r with
  | Some r =>
      let r' := mkInventory (inv_id r) (inv_locationId r) (inv_productId r)
                  quantity in
      modify (fun st => with_inventory st
        (update_rows inv_id id (fun x =>
           mkInventory (inv_id x) (inv_locationId x) (inv_productId x)
             quantity) (inventory st)));;;
      ret r'
  | None => throw (PrismaError "P2025" [])
  end.

(** [inventoryService.adjust(id, adjustment, reason)]; the audit line on
    the console is not modelled. *)
Definition inventory_adjust (id adjustment : Z) : M Inventory :=
  inventory <- inventory_getById id;;
  let newQuantity := inv_quantity inventory + adjustment in
  throw_if (newQuantity <? 0)
    (ValidationError (MsgText
       ("Cannot adjust: would result in negative quantity ("
        ++ number_string newQuantity ++ ")")));;;
  inventory_set_quantity id newQuantity.

(** [inventoryService.upsert({ locationId, productId, quantity })]: sets the
    quantity of the [locationId_productId] row, creating it if needed. *)
Definition inventory_upsert (locationId productId quantity : Z)
  : M Inventory :=
  location <- reads (fun st => find_location st locationId);;
  product <- reads (fun st => find_product st productId);;
  _ <- find_or location (NotFoundError (MsgNotFound "Location" locationId));;
  _ <- find_or product (NotFoundError (MsgNotFound "Product" productId));;
  fun st =>
    match find_inventory st locationId productId with
    | Some r =>
        let r' := mkInventory (inv_id r) locationId productId quantity in
        Ok r' (with_inventory st
          (map (fun x => if (inv_locationId x =? locationId)
                            && (inv_productId x =? productId)
                         then mkInventory (inv_id x) (inv_locationId x)
                                (inv_productId x) quantity
                         else x) (inventory st)))
    | None =>
        let r' := mkInventory (next_id (map inv_id (inventory st)))
                    locationId productId quantity in
        Ok r' (with_inventory st (inventory st ++ [r']))
    end.

(** [POST /inventory]: [inventoryValidator.upsert] requires
    [quantity >= 0] and positive ids. *)
Definition upsert_inventory (locationId productId quantity : Z)
  : M Inventory :=
  match (if locationId <=? 0 then ["locationId"] else [])
        ++ (if productId <=? 0 then ["productId"] else [])
        ++ (if quantity <? 0 then ["quantity"] else []) with
  | [] => inventory_upsert locationId productId quantity
  | errs => throw (ValidationError (MsgValidation errs))
  end.

(** Setting the status through [PUT /orders/:id]. *)
Definition status_change (s : OrderStatus.t) : OrderChanges :=
  mkOrderChanges None None None (Some s).

(** No stock row holds a negative quantity. *)
Definition stock_nonneg (st : Store) : Prop :=
  forall r, In r (inventory st) -> 0 <= inv_quantity r.

(* ------------------------------------------------------------------ *)
(** ** Shift table invariants *)

(** Primary key and the unique key [driverId_shiftDate] of [Shift], and at
    most one active shift per driver. *)
Definition shift_keys_ok (st : Store) : Prop :=
  NoDup (map sh_id (shifts st)) /\
  NoDup (map (fun s => (sh_driverId s, sh_shiftDate s)) (shifts st)) /\
  (forall s1 s2, In s1 (shifts st) -> In s2 (shifts st) ->
     sh_status s1 = ShiftStatus.active -> sh_status s2 = ShiftStatus.active ->
     sh_driverId s1 = sh_driverId s2 -> s1 = s2).

(** A computation that, when it succeeds, leaves the shifts as they were. *)
Definition keeps_shifts {A} (m : M A) : Prop :=
  forall st a st', m st = Ok a st' -> shifts st' = shifts st.

(* ------------------------------------------------------------------ *)
(** ** Lemmas on queries *)

Lemma shift_status_eqb_eq a b : ShiftStatus.eqb a b = true <-> a = b.
Proof. destruct a, b; simpl; split; congruence. Qed.

Lemma order_status_eqb_eq a b : OrderStatus.eqb a b = true <-> a = b.
Proof. destruct a, b; simpl; split; congruence. Qed.

Lemma attempt_status_eqb_eq a b : AttemptStatus.eqb a b = true <-> a = b.
Proof. destruct a, b; simpl; split; congruence. Qed.

Lemma find_unique {A} (p : A -> bool) (l : list A) (x : A) :
  In x l -> p x = true ->
  (forall y, In y l -> p y = true -> y = x) ->
  find p l = Some x.
Proof.
  induction l as [|a l IH]; simpl; intros Hin Hp Huniq; [contradiction|].
  destruct (p a) eqn:Ha.
  - f_equal. apply Huniq; auto.
  - destruct Hin as [<-|Hin]; [congruence|].
    apply IH; auto.
Qed.

Lemma find_none_intro {A} (p : A -> bool) (l : list A) :
  (forall y, In y l -> p y = false) -> find p l = None.
Proof.
  induction l as [|a l IH]; simpl; intros H; auto.
  rewrite (H a (or_introl eq_refl)). apply IH; auto.
Qed.

Lemma find_app_single {A} (p : A -> bool) (l : list A) (r : A) :
  find p (l ++ [r]) =
  match find p l with Some x => Some x | None => if p r then Some r else None end.
Proof.
  induction l as [|a l IH]; simpl; auto.
  destruct (p a); auto.
Qed.

(** Updating the rows a query selects, without changing whether they are
    selected, moves the query's answer along. *)
Lemma find_map_update {A} (p : A -> bool) (g : A -> A) (l : list A) :
  (forall x, p x = true -> p (g x) = true) ->
  find p (map (fun x => if p x then g x else x) l) = option_map g (find p l).
Proof.
  intros Hg. induction l as [|a l IH]; simpl; auto.
  destruct (p a) eqn:Ha; simpl.
  - rewrite (Hg a Ha). reflexivity.
  - rewrite Ha. exact IH.
Qed.

Lemma find_map_update_other {A} (p q : A -> bool) (g : A -> A) (l : list A) :
  (forall x, p x = true -> q x = false /\ q (g x) = false) ->
  find q (map (fun x => if p x then g x else x) l) = find q l.
Proof.
  intros Hg. induction l as [|a l IH]; simpl; auto.
  destruct (p a) eqn:Ha.
  - destruct (Hg a Ha) as [H1 H2]. rewrite H1, H2. exact IH.
  - rewrite IH. reflexivity.
Qed.

Lemma find_some_In {A} (p : A -> bool) (l : list A) (x : A) :
  find p l = Some x -> In x l /\ p x = true.
Proof. apply find_some. Qed.

Lemma andb_true3 (a b c : bool) : a && b && c = true <-> a = true /\ b = true /\ c = true.
Proof. destruct a, b, c; simpl; intuition congruence. Qed.
Lemma find_In_exists {A} (p : A -> bool) (l : list A) (x : A) :
  In x l -> p x = true -> exists y, find p l = Some y.
Proof.
  induction l as [|a l IH]; simpl; intros Hin Hp; [contradiction|].
  destruct (p a) eqn:Ha; [eauto|].
  destruct Hin as [<-|Hin]; [congruence|]. auto.
Qed.

Lemma inventory_upsert_increment_effect (st : Store) (l p q : Z) :
  exists st',
    inventory_upsert_increment l p q st = Ok tt st' /\
    inventory_quantity st' l p = inventory_quantity st l p + q /\
    (find_inventory st l p = None ->
     exists r, find_inventory st' l p = Some r /\ inv_quantity r = q) /\
    (forall l' p', l' <> l \/ p' <> p ->
       find_inventory st' l' p' = find_inventory st l' p') /\
    st' = with_inventory st (inventory st').
Proof.
  unfold inventory_upsert_increment, inventory_quantity.
  destruct (find_inventory st l p) as [r|] eqn:Hr.
  - eexists; split; [reflexivity|].
    unfold find_inventory in *; simpl.
    rewrite (find_map_update (fun r => (inv_locationId r =? l) && (inv_productId r =? p))
               (fun r => mkInventory (inv_id r) (inv_locationId r) (inv_productId r)
                           (inv_quantity r + q))).
    + rewrite Hr. simpl. split; [reflexivity|]. split; [discriminate|].
      split; [|reflexivity].
      intros l' p' Hne.
      apply find_map_update_other.
      intros x Hx. simpl. apply andb_prop in Hx as [H1 H2].
      apply Z.eqb_eq in H1, H2. rewrite H1, H2.
      destruct (Z.eqb_spec l l'), (Z.eqb_spec p p'); simpl; auto.
      subst. destruct Hne; contradiction.
    + intros x Hx. exact Hx.
  - eexists; split; [reflexivity|].
    unfold find_inventory in *; simpl.
    rewrite !find_app_single, Hr. simpl. rewrite !Z.eqb_refl.
    simpl. split; [reflexivity|]. split; [intros _; eexists; split; reflexivity|].
    split; [|reflexivity].
    intros l' p' Hne.
    rewrite find_app_single. simpl.
    destruct (Z.eqb_spec l l'), (Z.eqb_spec p p'); simpl;
      [subst; destruct Hne; contradiction| | |];
      case_eq (find (fun r : Inventory => (inv_locationId r =? l')
                                          && (inv_productId r =? p'))
                 (inventory st)); reflexivity.
Qed.

Lemma order_update_effect (st : Store) (id : Z) (f : Order -> Order) (o : Order) :
  find_order st id = Some o ->
  order_update id f st = Ok (f o) (with_orders st (update_rows o_id id f (orders st))).
Proof. intros H. cbv [order_update bind reads modify ret]. rewrite H. reflexivity. Qed.

Lemma attempt_update_effect (st : Store) (id : Z) (f : OrderAttempt -> OrderAttempt)
    (a : OrderAttempt) :
  find_attempt st id = Some a ->
  attempt_update id f st
  = Ok (f a) (with_attempts st (update_rows at_id id f (orderAttempts st))).
Proof. intros H. cbv [attempt_update bind reads modify ret]. rewrite H. reflexivity. Qed.

Lemma shift_update_effect (st : Store) (id : Z) (f : Shift -> Shift) (s : Shift) :
  find_shift st id = Some s ->
  shift_update id f st = Ok (f s) (with_shifts st (update_rows sh_id id f (shifts st))).
Proof. intros H. cbv [shift_update bind reads modify ret]. rewrite H. reflexivity. Qed.

(** The driver's active shift, when it is the only one, is the one the
    services look up. *)
Lemma find_active_shift_unique (st : Store) (d : Z) (s : Shift) :
  In s (shifts st) -> sh_driverId s = d -> sh_status s = ShiftStatus.active ->
  (forall s', In s' (shifts st) -> sh_driverId s' = d ->
              sh_status s' = ShiftStatus.active -> s' = s) ->
  find_active_shift st d = Some s.
Proof.
  intros Hs Hsd Hss Hsu. apply find_unique; auto.
  - rewrite Hsd, Hss, Z.eqb_refl. reflexivity.
  - intros y Hy Hp. apply andb_prop in Hp as [H1 H2].
    apply Hsu; auto. apply Z.eqb_eq; auto. apply shift_status_eqb_eq; auto.
Qed.

Lemma find_open_attempt_unique (st : Store) (id sid : Z) (a : OrderAttempt) :
  In a (orderAttempts st) -> at_orderId a = id -> at_shiftId a = sid ->
  at_status a = AttemptStatus.in_progress ->
  (forall a', In a' (orderAttempts st) -> at_orderId a' = id ->
              at_shiftId a' = sid ->
              at_status a' = AttemptStatus.in_progress -> a' = a) ->
  find_open_attempt st id sid = Some a.
Proof.
  intros Ha Hao Has Hast Hau. apply find_unique; auto.
  - rewrite Hao, Has, Hast, !Z.eqb_refl. reflexivity.
  - intros y Hy Hp. apply andb_true3 in Hp as [H1 [H2 H3]].
    apply Hau; auto. apply Z.eqb_eq; auto. apply Z.eqb_eq; auto.
    apply attempt_status_eqb_eq; auto.
Qed.

Lemma find_open_attempt_none (st : Store) (id sid : Z) :
  (forall a', In a' (orderAttempts st) -> at_orderId a' = id ->
              at_shiftId a' = sid -> at_status a' <> AttemptStatus.in_progress) ->
  find_open_attempt st id sid = None.
Proof.
  intros H. apply find_none_intro. intros y Hy.
  destruct (at_orderId y =? id) eqn:E1; simpl; auto.
  destruct (at_shiftId y =? sid) eqn:E2; simpl; auto.
  apply Z.eqb_eq in E1, E2.
  destruct (AttemptStatus.eqb (at_status y) AttemptStatus.in_progress) eqn:E3; auto.
  apply attempt_status_eqb_eq in E3. exfalso. eapply H; eauto.
Qed.

(* ------------------------------------------------------------------ *)
(** * Claims *)

(** ** Order completion *)

(** C1: for an [in_progress] order whose assigned driver [d] has an
    active shift with a matching [in_progress] attempt, [completeOrder]
    succeeds and, in one transaction, sets the order to [completed],
    resolves that attempt to [completed] with completion time [now], and
    raises the inventory of (destination, product) by exactly the order's
    quantity, creating the row with that quantity when none exists; no
    other inventory row changes.  (A failing call has no store at all, so
    the three writes land together or not at all.)  The active shift and
    the open attempt are the only ones of their kind, as the application
    maintains. *)
Theorem completeOrder_credits_inventory (st : Store) (id d now : Z)
    (o : Order) (s : Shift) (a : OrderAttempt) :
  find_order st id = Some o ->
  o_status o = OrderStatus.in_progress ->
  o_assignedDriverId o = Some d ->
  In s (shifts st) -> sh_driverId s = d -> sh_status s = ShiftStatus.active ->
  (forall s', In s' (shifts st) -> sh_driverId s' = d ->
              sh_status s' = ShiftStatus.active -> s' = s) ->
  In a (orderAttempts st) -> at_orderId a = id -> at_shiftId a = sh_id s ->
  at_status a = AttemptStatus.in_progress ->
  (forall a', In a' (orderAttempts st) -> at_orderId a' = id ->
              at_shiftId a' = sh_id s ->
              at_status a' = AttemptStatus.in_progress -> a' = a) ->
  exists st',
    order_completeOrder id d now st
      = Ok (set_order_status OrderStatus.completed o) st' /\
    orders st' = update_rows o_id id (set_order_status OrderStatus.completed)
                   (orders st) /\
    find_order st' id = Some (set_order_status OrderStatus.completed o) /\
    orderAttempts st' =
      update_rows at_id (at_id a)
        (fun x => mkAttempt (at_id x) (at_orderId x) (at_shiftId x)
                    AttemptStatus.completed (at_failureReason x) (Some now))
        (orderAttempts st) /\
    inventory_quantity st' (o_destinationId o) (o_productId o)
      = inventory_quantity st (o_destinationId o) (o_productId o) + o_quantity o /\
    (find_inventory st (o_destinationId o) (o_productId o) = None ->
     exists r, find_inventory st' (o_destinationId o) (o_productId o) = Some r
               /\ inv_quantity r = o_quantity o) /\
    (forall l p, l <> o_destinationId o \/ p <> o_productId o ->
       find_inventory st' l p = find_inventory st l p) /\
    shifts st' = shifts st /\
    vehicleAllocations st' = vehicleAllocations st.
Proof.
  intros Ho Hst Hdrv Hs Hsd Hss Hsu Ha Hao Has Hast Hau.
  pose proof (find_active_shift_unique st d s Hs Hsd Hss Hsu) as Hact.
  pose proof (find_open_attempt_unique st id (sh_id s) a Ha Hao Has Hast Hau)
    as Hatt.
  destruct (find_In_exists (fun x => at_id x =? at_id a) (orderAttempts st) a Ha
              (Z.eqb_refl _)) as [a0 Ha0].
  cbv [order_completeOrder order_getById bind reads find_or ret throw_if throw
       transaction].
  rewrite Ho, Hdrv, Hst. unfold opt_eqb. rewrite Z.eqb_refl. simpl.
  rewrite Hact, Hatt.
  rewrite (order_update_effect st id _ o Ho).
  rewrite (attempt_update_effect
             (with_orders st (update_rows o_id id
                (set_order_status OrderStatus.completed) (orders st)))
             (at_id a) _ a0 Ha0).
  set (st1 := with_attempts _ _).
  destruct (inventory_upsert_increment_effect st1 (o_destinationId o)
              (o_productId o) (o_quantity o))
    as [st' [Hup [Hq [Hnew [Hother Hst']]]]].
  rewrite Hup. exists st'. split; [reflexivity|].
  rewrite Hst'. unfold st1. simpl.
  split; [reflexivity|].
  split.
  { unfold find_order. simpl. unfold update_rows.
    unfold find_order in Ho.
    rewrite find_map_update; [rewrite Ho; reflexivity|]. intros x Hx; exact Hx. }
  split; [reflexivity|].
  unfold inventory_quantity, find_inventory in *. subst st1. simpl in *.
  split; [exact Hq|].
  split; [exact Hnew|].
  split; [exact Hother|].
  split; reflexivity.
Qed.

(** ** Order failure *)

(** C5: for an [assigned] or [in_progress] order whose assigned driver [d]
    has an active shift, and a non-empty reason, [failOrder] succeeds, sets
    the order to [failed], resolves the open attempt of (order, shift) to
    [failed] with the reason and time [now] when there is one, creates such
    a [failed] attempt when there is none, and leaves the inventory table
    exactly as it was. *)
Theorem failOrder_leaves_inventory (st : Store) (id d : Z) (reason : string)
    (now : Z) (o : Order) (s : Shift) :
  find_order st id = Some o ->
  (o_status o = OrderStatus.assigned \/ o_status o = OrderStatus.in_progress) ->
  o_assignedDriverId o = Some d ->
  In s (shifts st) -> sh_driverId s = d -> sh_status s = ShiftStatus.active ->
  (forall s', In s' (shifts st) -> sh_driverId s' = d ->
              sh_status s' = ShiftStatus.active -> s' = s) ->
  reason <> "" ->
  exists st',
    order_failOrder id d reason now st
      = Ok (set_order_status OrderStatus.failed o) st' /\
    orders st' = update_rows o_id id (set_order_status OrderStatus.failed)
                   (orders st) /\
    find_order st' id = Some (set_order_status OrderStatus.failed o) /\
    inventory st' = inventory st /\
    (forall a, In a (orderAttempts st) -> at_orderId a = id ->
       at_shiftId a = sh_id s -> at_status a = AttemptStatus.in_progress ->
       (forall a', In a' (orderAttempts st) -> at_orderId a' = id ->
                   at_shiftId a' = sh_id s ->
                   at_status a' = AttemptStatus.in_progress -> a' = a) ->
       orderAttempts st' =
         update_rows at_id (at_id a)
           (fun x => mkAttempt (at_id x) (at_orderId x) (at_shiftId x)
                       AttemptStatus.failed (Some reason) (Some now))
           (orderAttempts st)) /\
    ((forall a, In a (orderAttempts st) -> at_orderId a = id ->
       at_shiftId a = sh_id s -> at_status a <> AttemptStatus.in_progress) ->
     exists newId,
       orderAttempts st' = orderAttempts st ++
         [mkAttempt newId id (sh_id s) AttemptStatus.failed (Some reason)
            (Some now)]).
Proof.
  intros Ho Hst Hdrv Hs Hsd Hss Hsu _.
  pose proof (find_active_shift_unique st d s Hs Hsd Hss Hsu) as Hact.
  cbv [order_failOrder order_getById bind reads find_or ret throw_if throw
       transaction].
  rewrite Ho, Hdrv. unfold opt_eqb. rewrite Z.eqb_refl. simpl.
  assert (Hok : negb (OrderStatus.eqb (o_status o) OrderStatus.assigned)
                && negb (OrderStatus.eqb (o_status o) OrderStatus.in_progress)
                = false)
    by (destruct Hst as [-> | ->]; reflexivity).
  rewrite Hok, Hact.
  rewrite (order_update_effect st id _ o Ho).
  assert (Hfo : find_order (with_orders st (update_rows o_id id
                  (set_order_status OrderStatus.failed) (orders st))) id
                = Some (set_order_status OrderStatus.failed o)).
  { unfold find_order in *. simpl. unfold update_rows.
    rewrite find_map_update; [rewrite Ho; reflexivity|]. intros x Hx; exact Hx. }
  destruct (find_open_attempt st id (sh_id s)) as [a0|] eqn:Hatt.
  - apply find_some in Hatt as [Ha0 Hp0].
    apply andb_true3 in Hp0 as [E1 [E2 E3]].
    apply Z.eqb_eq in E1, E2. apply attempt_status_eqb_eq in E3.
    destruct (find_In_exists (fun x => at_id x =? at_id a0) (orderAttempts st)
                a0 Ha0 (Z.eqb_refl _)) as [a1 Ha1].
    rewrite (attempt_update_effect
               (with_orders st (update_rows o_id id
                  (set_order_status OrderStatus.failed) (orders st)))
               (at_id a0) _ a1 Ha1).
    eexists; split; [reflexivity|]. simpl.
    split; [reflexivity|]. split; [exact Hfo|]. split; [reflexivity|].
    split.
    + intros a Ha Hao Has Hast Hau.
      rewrite (Hau a0 Ha0 E1 E2 E3). reflexivity.
    + intros Hnone. exfalso. exact (Hnone a0 Ha0 E1 E2 E3).
  - eexists; split; [reflexivity|]. simpl.
    split; [reflexivity|]. split; [exact Hfo|]. split; [reflexivity|].
    split.
    + intros a Ha Hao Has Hast _.
      pose proof (find_none _ _ Hatt a Ha) as Hf. simpl in Hf.
      rewrite Hao, Has, Hast, !Z.eqb_refl in Hf. discriminate.
    + intros _. eexists. reflexivity.
Qed.

(** ** Ending a shift *)

Lemma blocks_shift_end_iff (d date : Z) (o : Order) :
  blocks_shift_end d date o = true <->
  o_assignedDriverId o = Some d /\ o_assignedDate o = Some date /\
  (o_status o = OrderStatus.assigned \/ o_status o = OrderStatus.in_progress).
Proof.
  unfold blocks_shift_end, opt_eqb.
  destruct (o_assignedDriverId o) as [x|], (o_assignedDate o) as [y|];
    rewrite ?andb_false_r; simpl;
    try (split; [discriminate| intros [H1 [H2 _]]; discriminate]).
  rewrite !andb_true_iff, orb_true_iff, !Z.eqb_eq, !order_status_eqb_eq.
  intuition congruence.
Qed.

(** C3: ending one's own active shift fails with [BadRequest] exactly when
    some order assigned to the driver for the shift's date is [assigned] or
    [in_progress]; the message carries the number of such orders and their
    ids; a failing call writes nothing.  With no such order the shift
    becomes [completed] with [endTime = now]. *)
Theorem endShift_blocked_iff_open_orders (st : Store) (sid d now : Z)
    (s : Shift) :
  find_shift st sid = Some s -> sh_driverId s = d ->
  sh_status s = ShiftStatus.active ->
  ((exists m, shift_end sid d now st = Err (BadRequestError m)) <->
   exists o, In o (orders st) /\ o_assignedDriverId o = Some d /\
             o_assignedDate o = Some (sh_shiftDate s) /\
             (o_status o = OrderStatus.assigned \/
              o_status o = OrderStatus.in_progress)) /\
  (forall e, shift_end sid d now st = Err e ->
   exists ids,
     e = BadRequestError (MsgIncompleteOrders (List.length ids) ids) /\
     ids <> [] /\
     (forall i, In i ids <->
        exists o, In o (orders st) /\ o_id o = i /\
                  o_assignedDriverId o = Some d /\
                  o_assignedDate o = Some (sh_shiftDate s) /\
                  (o_status o = OrderStatus.assigned \/
                   o_status o = OrderStatus.in_progress))) /\
  ((forall o, In o (orders st) -> o_assignedDriverId o = Some d ->
              o_assignedDate o = Some (sh_shiftDate s) ->
              o_status o <> OrderStatus.assigned /\
              o_status o <> OrderStatus.in_progress) ->
   exists st',
     shift_end sid d now st =
       Ok (mkShift (sh_id s) d (sh_vehicleAllocationId s) (sh_shiftDate s)
             ShiftStatus.completed (sh_startTime s) (Some now)) st' /\
     shifts st' =
       update_rows sh_id sid
         (fun x => mkShift (sh_id x) (sh_driverId x) (sh_vehicleAllocationId x)
                     (sh_shiftDate x) ShiftStatus.completed (sh_startTime x)
                     (Some now))
         (shifts st) /\
     orders st' = orders st).
Proof.
  intros Hs Hsd Hss.
  assert (Hrun : shift_end sid d now st =
    let inc := filter (blocks_shift_end d (sh_shiftDate s)) (orders st) in
    if Nat.ltb 0 (List.length inc)
    then Err (BadRequestError (MsgIncompleteOrders (List.length inc) (map o_id inc)))
    else shift_update sid (fun x => mkShift (sh_id x) (sh_driverId x)
           (sh_vehicleAllocationId x) (sh_shiftDate x) ShiftStatus.completed
           (sh_startTime x) (Some now)) st).
  { cbv [shift_end shift_getById bind reads find_or ret throw_if throw].
    rewrite Hs, Hsd, Z.eqb_refl, Hss. simpl.
    destruct (Nat.ltb 0 _); reflexivity. }
  rewrite Hrun. cbv zeta.
  set (inc := filter (blocks_shift_end d (sh_shiftDate s)) (orders st)).
  assert (Hinc : forall o, In o inc <->
            In o (orders st) /\ o_assignedDriverId o = Some d /\
            o_assignedDate o = Some (sh_shiftDate s) /\
            (o_status o = OrderStatus.assigned \/
             o_status o = OrderStatus.in_progress)).
  { intros o. unfold inc. rewrite filter_In, blocks_shift_end_iff. tauto. }
  destruct inc as [|o0 rest] eqn:Hl; simpl.
  - rewrite (shift_update_effect st sid _ s Hs).
    split; [|split].
    + split; [intros [m Hm]; discriminate|].
      intros [o Ho]. apply (proj2 (Hinc o)) in Ho. contradiction.
    + intros e He. discriminate.
    + intros _.
      eexists; split; [rewrite Hsd; reflexivity|]. split; reflexivity.
  - split; [|split].
    + split; [intros _|intros _; eauto].
      exists o0. apply Hinc. left. reflexivity.
    + intros e He. injection He as <-.
      exists (map o_id (o0 :: rest)).
      split; [simpl; rewrite length_map; reflexivity|].
      split; [discriminate|].
      intros i. rewrite in_map_iff. split.
      * intros [o [<- Ho]]. apply Hinc in Ho. exists o. tauto.
      * intros [o [Ho [Hi Hrest]]]. exists o. split; [exact Hi|].
        apply Hinc. tauto.
    + intros Hnone. exfalso.
      destruct (proj1 (Hinc o0) (or_introl eq_refl)) as [Hin [H1 [H2 H3]]].
      destruct (Hnone o0 Hin H1 H2). tauto.
Qed.

(** ** Starting a shift *)

Lemma midnight_idem (t : Z) : midnight (midnight t) = midnight t.
Proof.
  unfold midnight, ms_per_day.
  rewrite (Z.mod_eq t 86400000) by lia.
  replace (t - (t - 86400000 * (t / 86400000)))
    with ((t / 86400000) * 86400000) by lia.
  rewrite Z.mod_mul by lia. lia.
Qed.

(** C4: [startShift d] fails [NotFound] for an unknown driver; otherwise
    [Conflict] when the driver already has an [active] shift; otherwise
    [BadRequest] when no allocation exists for (d, today).  Otherwise the
    shift row of (d, today), if there is one, is updated to [active] with
    [startTime = now] and bound to today's allocation; with no such row a
    new shift is created directly in [active], bound to that allocation.
    Rows unique on (driverId, date), as the schema declares, are assumed
    for today's allocation and today's shift. *)
Theorem startShift_outcomes (st : Store) (d now : Z) :
  (find_driver st d = None ->
   exists m, shift_start d now st = Err (NotFoundError m)) /\
  (forall drv, find_driver st d = Some drv ->
   ((exists s, In s (shifts st) /\ sh_driverId s = d /\
               sh_status s = ShiftStatus.active) ->
    exists m, shift_start d now st = Err (ConflictError m)) /\
   ((forall s, In s (shifts st) -> sh_driverId s = d ->
               sh_status s <> ShiftStatus.active) ->
    (forall a, In a (vehicleAllocations st) -> va_driverId a = d ->
               va_allocationDate a <> midnight now) ->
    exists m, shift_start d now st = Err (BadRequestError m)) /\
   ((forall s, In s (shifts st) -> sh_driverId s = d ->
               sh_status s <> ShiftStatus.active) ->
    forall al, In al (vehicleAllocations st) -> va_driverId al = d ->
    va_allocationDate al = midnight now ->
    (forall al', In al' (vehicleAllocations st) -> va_driverId al' = d ->
                 va_allocationDate al' = midnight now -> al' = al) ->
    (forall s, In s (shifts st) -> sh_driverId s = d ->
       sh_shiftDate s = midnight now ->
       (forall s', In s' (shifts st) -> sh_driverId s' = d ->
                   sh_shiftDate s' = midnight now -> s' = s) ->
       exists r st',
         shift_start d now st = Ok r st' /\
         sh_status r = ShiftStatus.active /\ sh_startTime r = Some now /\
         sh_vehicleAllocationId r = Some (va_id al) /\
         shifts st' =
           update_rows sh_id (sh_id s)
             (fun x => mkShift (sh_id x) (sh_driverId x) (Some (va_id al))
                         (sh_shiftDate x) ShiftStatus.active (Some now)
                         (sh_endTime x))
             (shifts st)) /\
    ((forall s, In s (shifts st) -> sh_driverId s = d ->
                sh_shiftDate s <> midnight now) ->
     exists newId st',
       shift_start d now st =
         Ok (mkShift newId d (Some (va_id al)) (midnight now)
               ShiftStatus.active (Some now) None) st' /\
       shifts st' = shifts st ++
         [mkShift newId d (Some (va_id al)) (midnight now)
            ShiftStatus.active (Some now) None]))).
Proof.
  assert (Hpre : forall drv, find_driver st d = Some drv ->
    shift_start d now st =
    match find_active_shift st d with
    | Some _ => Err (ConflictError (MsgText "Driver already has an active shift"))
    | None =>
        match find_allocation_for st d (midnight now) with
        | None => Err (BadRequestError (MsgNoVehicleAllocated (driver_name drv)))
        | Some allocation =>
            match find_shift_for st d (midnight now) with
            | Some sc =>
                shift_update (sh_id sc) (fun s =>
                  mkShift (sh_id s) (sh_driverId s) (Some (va_id allocation))
                    (sh_shiftDate s) ShiftStatus.active (Some now) (sh_endTime s)) st
            | None =>
                shift_create d (Some (va_id allocation)) (midnight now)
                  ShiftStatus.active (Some now) st
            end
        end
    end).
  { intros drv Hd.
    cbv [shift_start bind reads find_or ret throw_if throw]. rewrite Hd.
    destruct (find_active_shift st d); [reflexivity|].
    destruct (find_allocation_for st d (midnight now)); [|reflexivity].
    destruct (find_shift_for st d (midnight now)); reflexivity. }
  split.
  { intros Hd. cbv [shift_start bind reads find_or ret throw_if throw].
    rewrite Hd. eauto. }
  intros drv Hd. rewrite (Hpre drv Hd).
  assert (Hnoact : (forall s, In s (shifts st) -> sh_driverId s = d ->
                     sh_status s <> ShiftStatus.active) ->
                   find_active_shift st d = None).
  { intros H. apply find_none_intro. intros y Hy.
    destruct (sh_driverId y =? d) eqn:E1; auto. simpl.
    destruct (ShiftStatus.eqb (sh_status y) ShiftStatus.active) eqn:E2; auto.
    apply Z.eqb_eq in E1. apply shift_status_eqb_eq in E2.
    exfalso. exact (H y Hy E1 E2). }
  split; [|split].
  - intros [s [Hs [Hsd Hss]]].
    destruct (find_In_exists (fun s => (sh_driverId s =? d)
                && ShiftStatus.eqb (sh_status s) ShiftStatus.active)
                (shifts st) s Hs) as [s0 Hs0].
    { rewrite Hsd, Hss, Z.eqb_refl. reflexivity. }
    unfold find_active_shift. rewrite Hs0. eauto.
  - intros Hna Hnoal. rewrite (Hnoact Hna).
    assert (Hfa : find_allocation_for st d (midnight now) = None).
    { apply find_none_intro. intros y Hy.
      destruct (va_driverId y =? d) eqn:E1; auto. simpl.
      apply Z.eqb_neq. rewrite midnight_idem.
      apply Z.eqb_eq in E1. exact (Hnoal y Hy E1). }
    rewrite Hfa. eauto.
  - intros Hna al Hal Hald Halt Halu. rewrite (Hnoact Hna).
    assert (Hfa : find_allocation_for st d (midnight now) = Some al).
    { apply find_unique; auto.
      - rewrite Hald, Halt, midnight_idem, !Z.eqb_refl. reflexivity.
      - intros y Hy Hp. apply andb_prop in Hp as [E1 E2].
        apply Z.eqb_eq in E1, E2. rewrite midnight_idem in E2. auto. }
    rewrite Hfa. split.
    + intros s Hs Hsd Hsdt Hsu.
      assert (Hfs : find_shift_for st d (midnight now) = Some s).
      { apply find_unique; auto.
        - rewrite Hsd, Hsdt, !Z.eqb_refl. reflexivity.
        - intros y Hy Hp. apply andb_prop in Hp as [E1 E2].
          apply Z.eqb_eq in E1, E2. auto. }
      rewrite Hfs.
      destruct (find_In_exists (fun x => sh_id x =? sh_id s) (shifts st) s Hs
                  (Z.eqb_refl _)) as [s0 Hs0].
      rewrite (shift_update_effect st (sh_id s) _ s0 Hs0).
      eexists; eexists; split; [reflexivity|]. simpl. auto.
    + intros Hnos.
      assert (Hfs : find_shift_for st d (midnight now) = None).
      { apply find_none_intro. intros y Hy.
        destruct (sh_driverId y =? d) eqn:E1; auto. simpl.
        apply Z.eqb_neq. apply Z.eqb_eq in E1. exact (Hnos y Hy E1). }
      rewrite Hfs. unfold shift_create.
      assert (Hex : existsb (fun s => (sh_driverId s =? d)
                                      && (sh_shiftDate s =? midnight now))
                      (shifts st) = false).
      { apply not_true_is_false. intros Hx. apply existsb_exists in Hx.
        destruct Hx as [y [Hy Hp]]. apply andb_prop in Hp as [E1 E2].
        apply Z.eqb_eq in E1, E2. exact (Hnos y Hy E1 E2). }
      rewrite Hex. eexists; eexists; split; reflexivity.
Qed.

(** ** The telemetry gate *)

Lemma shift_drives_vehicle_iff (st : Store) (v : Z) (s : Shift) :
  shift_drives_vehicle st v s = true <->
  sh_status s = ShiftStatus.active /\
  exists aid al, sh_vehicleAllocationId s = Some aid /\
                 find_allocation st aid = Some al /\ va_vehicleId al = v.
Proof.
  unfold shift_drives_vehicle. rewrite andb_true_iff, shift_status_eqb_eq.
  destruct (sh_vehicleAllocationId s) as [aid|].
  - destruct (find_allocation st aid) as [al|] eqn:Ha.
    + rewrite Z.eqb_eq. split.
      * intros [H1 H2]. split; [exact H1|]. exists aid, al. auto.
      * intros [H1 [aid' [al' [E1 [E2 E3]]]]]. injection E1 as <-.
        rewrite Ha in E2. injection E2 as <-. auto.
    + split; [intros [_ H]; discriminate|].
      intros [_ [aid' [al' [E1 [E2 _]]]]]. injection E1 as <-. congruence.
  - split; [intros [_ H]; discriminate|].
    intros [_ [aid' [al' [E1 _]]]]. discriminate.
Qed.

(** C6: [recordGps] fails [NotFound] for an unknown vehicle; for a known
    one it fails [BadRequest] exactly when no [active] shift is bound to an
    allocation of the vehicle, writing nothing; otherwise it succeeds, and
    every success appends one ping for the vehicle, stamped with the id of
    an [active] shift bound to an allocation of the vehicle, carrying the
    coordinates given and [recordedAt] as given, or [now] when omitted. *)
Theorem recordGps_gate (st : Store) (v lat lon : Z) (recordedAt : option Z)
    (now : Z) :
  (find_vehicle st v = None ->
   exists m, gps_create v lat lon recordedAt now st = Err (NotFoundError m)) /\
  (forall veh, find_vehicle st v = Some veh ->
   ((exists m, gps_create v lat lon recordedAt now st = Err (BadRequestError m))
    <-> ~ exists s, In s (shifts st) /\ sh_status s = ShiftStatus.active /\
            exists aid al, sh_vehicleAllocationId s = Some aid /\
                           find_allocation st aid = Some al /\
                           va_vehicleId al = v) /\
   ((exists s, In s (shifts st) /\ sh_status s = ShiftStatus.active /\
            exists aid al, sh_vehicleAllocationId s = Some aid /\
                           find_allocation st aid = Some al /\
                           va_vehicleId al = v) ->
    exists g st', gps_create v lat lon recordedAt now st = Ok g st') /\
   (forall g st', gps_create v lat lon recordedAt now st = Ok g st' ->
    gpsLocations st' = gpsLocations st ++ [g] /\
    gps_vehicleId g = v /\ gps_latitude g = lat /\ gps_longitude g = lon /\
    (exists s, In s (shifts st) /\ sh_status s = ShiftStatus.active /\
       (exists aid al, sh_vehicleAllocationId s = Some aid /\
                       find_allocation st aid = Some al /\ va_vehicleId al = v) /\
       gps_shiftId g = Some (sh_id s)) /\
    (recordedAt = None -> gps_recordedAt g = now) /\
    (forall t, recordedAt = Some t -> gps_recordedAt g = t))).
Proof.
  split.
  { intros Hv. cbv [gps_create bind reads find_or ret throw]. rewrite Hv. eauto. }
  intros veh Hv.
  assert (Hrun : gps_create v lat lon recordedAt now st =
    match find (shift_drives_vehicle st v) (shifts st) with
    | Some s =>
        let g := mkGps (next_id (map gps_id (gpsLocations st))) v (Some (sh_id s))
                   lat lon (match recordedAt with Some t => t | None => now end) in
        Ok g (with_gps st (gpsLocations st ++ [g]))
    | None => Err (BadRequestError (MsgGpsNoActiveShift (registrationNumber veh)))
    end).
  { cbv [gps_create bind reads find_or ret throw]. rewrite Hv.
    destruct (find (shift_drives_vehicle st v) (shifts st)); reflexivity. }
  rewrite Hrun.
  destruct (find (shift_drives_vehicle st v) (shifts st)) as [s|] eqn:Hf.
  - apply find_some in Hf as [Hs Hp]. apply shift_drives_vehicle_iff in Hp.
    split; [|split].
    + split; [intros [m Hm]; discriminate|].
      intros Hno. exfalso. apply Hno. exists s. tauto.
    + intros _. eauto.
    + intros g st' Hok. injection Hok as <- <-. simpl.
      split; [reflexivity|]. split; [reflexivity|].
      split; [reflexivity|]. split; [reflexivity|].
      split; [exists s; tauto|].
      split; [intros ->; reflexivity|]. intros t ->. reflexivity.
  - split; [|split].
    + split; [|intros _; eexists; reflexivity]. intros _ [s [Hs Hp]].
      pose proof (find_none _ _ Hf s Hs) as Hfalse.
      rewrite (proj2 (shift_drives_vehicle_iff st v s) Hp) in Hfalse.
      discriminate.
    + intros [s [Hs Hp]].
      pose proof (find_none _ _ Hf s Hs) as Hfalse.
      rewrite (proj2 (shift_drives_vehicle_iff st v s) Hp) in Hfalse.
      discriminate.
    + intros g st' Hok. discriminate.
Qed.

(** ** Allocations *)

Lemma filter_all_true {A} (p : A -> bool) (l : list A) :
  (forall x, p x = true) -> filter p l = l.
Proof.
  intros H. induction l as [|a l IH]; simpl; auto. rewrite H, IH. reflexivity.
Qed.

Lemma vehicle_booked_iff (st : Store) (v date : Z) :
  vehicle_booked st v date = true <->
  exists a, In a (vehicleAllocations st) /\ va_vehicleId a = v /\
            va_allocationDate a = date.
Proof.
  unfold vehicle_booked. rewrite existsb_exists. split.
  - intros [a [Ha Hp]]. apply andb_prop in Hp as [E1 E2].
    apply Z.eqb_eq in E1, E2. eauto.
  - intros [a [Ha [E1 E2]]]. exists a. rewrite E1, E2, !Z.eqb_refl. auto.
Qed.

Lemma driver_booked_iff (st : Store) (d date : Z) :
  driver_booked st d date = true <->
  exists a, In a (vehicleAllocations st) /\ va_driverId a = d /\
            va_allocationDate a = date.
Proof.
  unfold driver_booked. rewrite existsb_exists. split.
  - intros [a [Ha Hp]]. apply andb_prop in Hp as [E1 E2].
    apply Z.eqb_eq in E1, E2. eauto.
  - intros [a [Ha [E1 E2]]]. exists a. rewrite E1, E2, !Z.eqb_refl. auto.
Qed.

(** What [allocationService.create] returns once both references exist. *)
Lemma allocation_create_result (st : Store) (v d t : Z) (veh : Vehicle)
    (drv : Driver) :
  find_vehicle st v = Some veh -> find_driver st d = Some drv ->
  allocation_create v d t st =
  if vehicle_booked st v (midnight t) then
    Err (ConflictError
           (MsgVehicleAlreadyAllocated (registrationNumber veh) (midnight t)))
  else if driver_booked st d (midnight t) then
    Err (ConflictError (MsgDriverAlreadyHasVehicle (driver_name drv) (midnight t)))
  else
    Ok (mkAllocation (next_id (map va_id (vehicleAllocations st))) v d (midnight t))
       (with_allocations st (vehicleAllocations st ++
          [mkAllocation (next_id (map va_id (vehicleAllocations st))) v d
             (midnight t)])).
Proof.
  intros Hv Hd.
  cbv [allocation_create bind reads find_or ret throw catch
       vehicleAllocation_create allocation_constraint_error].
  rewrite Hv, Hd. rewrite Hv, Hd.
  rewrite filter_all_true by reflexivity.
  fold (vehicle_booked st v (midnight t)) (driver_booked st d (midnight t)).
  destruct (vehicle_booked st v (midnight t)); [reflexivity|].
  destruct (driver_booked st d (midnight t)); reflexivity.
Qed.

Lemma allocate_result (st : Store) (v d t now : Z) :
  allocate v d t now st =
  match allocation_validate v d t now with
  | [] =>
      match find_vehicle st v, find_driver st d with
      | Some veh, Some drv =>
          if vehicle_booked st v (midnight t) then
            Err (ConflictError
              (MsgVehicleAlreadyAllocated (registrationNumber veh) (midnight t)))
          else if driver_booked st d (midnight t) then
            Err (ConflictError
              (MsgDriverAlreadyHasVehicle (driver_name drv) (midnight t)))
          else
            Ok (mkAllocation (next_id (map va_id (vehicleAllocations st))) v d
                  (midnight t))
               (with_allocations st (vehicleAllocations st ++
                  [mkAllocation (next_id (map va_id (vehicleAllocations st))) v d
                     (midnight t)]))
      | None, _ => Err (NotFoundError (MsgNotFound "Vehicle" v))
      | Some _, None => Err (NotFoundError (MsgNotFound "Driver" d))
      end
  | errs => Err (ValidationError (MsgValidation errs))
  end.
Proof.
  unfold allocate.
  destruct (allocation_validate v d t now) as [|e errs]; [|reflexivity].
  destruct (find_vehicle st v) as [veh|] eqn:Hv.
  - destruct (find_driver st d) as [drv|] eqn:Hd.
    + apply (allocation_create_result st v d t veh drv Hv Hd).
    + cbv [allocation_create bind reads find_or ret throw].
      rewrite Hv, Hd. reflexivity.
  - cbv [allocation_create bind reads find_or ret throw]. rewrite Hv. reflexivity.
Qed.

Lemma allocation_validate_nil (v d t now : Z) :
  allocation_validate v d t now = [] <-> 0 < v /\ 0 < d /\ midnight now <= t.
Proof.
  unfold allocation_validate.
  destruct (Z.leb_spec v 0), (Z.leb_spec d 0), (Z.ltb_spec t (midnight now));
    cbn [app]; split; intros; try discriminate; try reflexivity;
    first [lia | exfalso; lia].
Qed.

(** C8: a [Conflict] from [allocate] always carries one of two messages,
    and each names the rule that was violated: the vehicle-already-booked
    message only when a row for (vehicleId, date) exists, the
    driver-already-has-a-vehicle message only when a row for (driverId, date)
    exists.  When only the (vehicleId, date) row exists the message is the
    vehicle one, when only the (driverId, date) row exists it is the driver
    one, and when both exist it is one of the two. *)
Theorem allocate_conflict_names_rule (st : Store) (v d t now : Z) :
  (forall m, allocate v d t now st = Err (ConflictError m) ->
   (exists veh, find_vehicle st v = Some veh /\
      m = MsgVehicleAlreadyAllocated (registrationNumber veh) (midnight t) /\
      exists a, In a (vehicleAllocations st) /\ va_vehicleId a = v /\
                va_allocationDate a = midnight t) \/
   (exists drv, find_driver st d = Some drv /\
      m = MsgDriverAlreadyHasVehicle (driver_name drv) (midnight t) /\
      exists a, In a (vehicleAllocations st) /\ va_driverId a = d /\
                va_allocationDate a = midnight t)) /\
  (forall veh drv, find_vehicle st v = Some veh -> find_driver st d = Some drv ->
   0 < v -> 0 < d -> midnight now <= t ->
   let vrow := exists a, In a (vehicleAllocations st) /\ va_vehicleId a = v /\
                         va_allocationDate a = midnight t in
   let drow := exists a, In a (vehicleAllocations st) /\ va_driverId a = d /\
                         va_allocationDate a = midnight t in
   let vmsg := ConflictError
                 (MsgVehicleAlreadyAllocated (registrationNumber veh) (midnight t)) in
   let dmsg := ConflictError
                 (MsgDriverAlreadyHasVehicle (driver_name drv) (midnight t)) in
   (vrow -> ~ drow -> allocate v d t now st = Err vmsg) /\
   (~ vrow -> drow -> allocate v d t now st = Err dmsg) /\
   (vrow -> drow -> allocate v d t now st = Err vmsg \/
                    allocate v d t now st = Err dmsg)).
Proof.
  split.
  - intros m H. rewrite allocate_result in H.
    destruct (allocation_validate v d t now); [|discriminate].
    destruct (find_vehicle st v) as [veh|]; [|discriminate].
    destruct (find_driver st d) as [drv|]; [|discriminate].
    destruct (vehicle_booked st v (midnight t)) eqn:Hvb.
    + left. injection H as <-. exists veh. split; [reflexivity|].
      split; [reflexivity|]. apply vehicle_booked_iff. exact Hvb.
    + destruct (driver_booked st d (midnight t)) eqn:Hdb; [|discriminate].
      right. injection H as <-. exists drv. split; [reflexivity|].
      split; [reflexivity|]. apply driver_booked_iff. exact Hdb.
  - intros veh drv Hv Hd Hvp Hdp Ht. cbv zeta.
    rewrite allocate_result.
    rewrite (proj2 (allocation_validate_nil v d t now) (conj Hvp (conj Hdp Ht))).
    rewrite Hv, Hd.
    rewrite <- vehicle_booked_iff, <- driver_booked_iff.
    destruct (vehicle_booked st v (midnight t)),
             (driver_booked st d (midnight t)); intuition congruence.
Qed.

Lemma midnight_mono (x y : Z) : x <= y -> midnight x <= midnight y.
Proof.
  intros H. unfold midnight, ms_per_day.
  rewrite !(Z.mod_eq _ 86400000) by lia.
  pose proof (Z.div_le_mono x y 86400000 ltac:(lia) H). lia.
Qed.

Lemma midnight_le (t : Z) : midnight t <= t.
Proof.
  unfold midnight, ms_per_day.
  pose proof (Z.mod_pos_bound t 86400000 ltac:(lia)). lia.
Qed.

(** C9: an allocation date strictly before today is refused with a
    [Validation] error, and every allocation [allocate] does create is dated
    today or later. *)
Theorem allocate_rejects_past_dates (st : Store) (v d t now : Z) :
  (t < midnight now ->
   exists m, allocate v d t now st = Err (ValidationError m)) /\
  (forall a st', allocate v d t now st = Ok a st' ->
   midnight now <= va_allocationDate a /\
   vehicleAllocations st' = vehicleAllocations st ++ [a]).
Proof.
  split.
  - intros Ht. unfold allocate, allocation_validate.
    destruct (Z.ltb_spec t (midnight now)); [|lia].
    destruct (v <=? 0), (d <=? 0); simpl; unfold throw; eauto.
  - intros a st' H. rewrite allocate_result in H.
    destruct (allocation_validate v d t now) eqn:Hval; [|discriminate].
    apply allocation_validate_nil in Hval as [_ [_ Ht]].
    destruct (find_vehicle st v); [|discriminate].
    destruct (find_driver st d); [|discriminate].
    destruct (vehicle_booked st v (midnight t)); [discriminate|].
    destruct (driver_booked st d (midnight t)); [discriminate|].
    injection H as <- <-. simpl. split; [|reflexivity].
    rewrite <- (midnight_idem now). apply midnight_mono. exact Ht.
Qed.

(** ** Shift lifecycle *)

(** C7 (fails): a driver who starts and then ends today's shift can start
    it again.  [start] looks the shift up by (driverId, today) whatever its
    status, so the [completed] row goes back to [active].  Below, on
    [fleet]: allocate vehicle 1 to driver 1 for day 10, start the shift at
    08:00, end it one second later, and start again one more second later. *)
Theorem completed_shift_restarted :
  let t := day 10 + 8 * 3600000 in
  let st := run [(OpAllocate 1 1 (day 10), t); (OpStartShift 1, t);
                 (OpEndShift 1 1, t + 1000)] fleet in
  find_shift st 1 =
    Some (mkShift 1 1 (Some 1) (day 10) ShiftStatus.completed
            (Some t) (Some (t + 1000))) /\
  match shift_start 1 (t + 2000) st with
  | Ok s st' =>
      s = mkShift 1 1 (Some 1) (day 10) ShiftStatus.active
            (Some (t + 2000)) (Some (t + 1000)) /\
      find_shift st' 1 = Some s
  | Err _ => False
  end.
Proof.
  split; vm_compute; [reflexivity | split; reflexivity].
Qed.

(** ** Assigned dates of orders *)

Lemma midnight_mod (t : Z) : midnight t mod ms_per_day = 0.
Proof.
  unfold midnight, ms_per_day.
  rewrite (Z.mod_eq t 86400000) by lia.
  replace (t - (t - 86400000 * (t / 86400000)))
    with ((t / 86400000) * 86400000) by lia.
  apply Z.mod_mul. lia.
Qed.

Lemma order_assign_date (st : Store) (id driverId : Z) (assignedDate : option Z)
    (now : Z) (o : Order) (st' : Store) :
  order_assign id driverId assignedDate now st = Ok o st' ->
  o_status o = OrderStatus.assigned /\ o_assignedDriverId o = Some driverId /\
  o_assignedDate o =
    Some (midnight (match assignedDate with Some t => t | None => now end)).
Proof.
  cbv [order_assign order_getById order_update bind reads find_or throw_if
       modify ret throw].
  destruct (find_order st id) as [x|]; [|discriminate].
  destruct (_ && _); [discriminate|].
  destruct (find_driver st driverId); [|discriminate].
  destruct (find_order st id); [|discriminate].
  intros H. injection H as <- _. simpl. auto.
Qed.

(** C10 (as the code behaves): [createOrder] with a driver id and no date
    stores the order as [assigned] for the calendar date of the request:
    [new Date()] is written to the [DATE] column [assignedDate], which keeps
    only the day, the same date [assignOrder] stores when it is given none.
    The order therefore matches [endShift]'s query for the incomplete
    orders of that driver's shift on that day. *)
Theorem createOrder_assignedDate_stored_as_date (st : Store)
    (data : OrderInput) (now d : Z) :
  in_assignedDriverId data = Some d -> 0 < d -> in_assignedDate data = None ->
  forall o st', order_create data now st = Ok o st' ->
  o_status o = OrderStatus.assigned /\ o_assignedDriverId o = Some d /\
  o_assignedDate o = Some (midnight now) /\ orders st' = orders st ++ [o] /\
  blocks_shift_end d (midnight now) o = true /\
  (forall id st1 o1 st1', order_assign id d None now st1 = Ok o1 st1' ->
   o_assignedDate o1 = o_assignedDate o).
Proof.
  intros Hd Hpos Hdate o st'.
  cbv [order_create bind reads find_or ret throw].
  rewrite Hd, Hdate.
  assert (Ht : truthy_id (Some d) = true).
  { simpl. destruct (Z.eqb_spec d 0); [lia|reflexivity]. }
  rewrite Ht.
  destruct (find_location st (in_destinationId data)); [|discriminate].
  destruct (find_product st (in_productId data)); [|discriminate].
  destruct (find_driver st d); [|discriminate].
  intros H. injection H as <- <-. simpl.
  split; [reflexivity|]. split; [reflexivity|]. split; [reflexivity|].
  split; [reflexivity|]. split.
  - unfold blocks_shift_end, opt_eqb. simpl. rewrite !Z.eqb_refl. reflexivity.
  - intros id st1 o1 st1' Ha.
    apply order_assign_date in Ha as [_ [_ Ha]]. exact Ha.
Qed.

(** C10 (counterexample): on [fleet], allocate vehicle 1 to driver 1 for
    day 10, create an order for driver 1 with no date at 09:30 of day 10
    and start the shift at 10:00; the order is stored with the date day 10,
    the shift's date, and ending the shift at 11:00 is refused because of
    it. *)
Lemma order_created_at_0930_blocks_endShift :
  let st := run [(OpAllocate 1 1 (day 10), day 10);
                 (OpCreateOrder (mkOrderInput 3 1 500 (Some 1) None),
                  day 10 + 34200000);
                 (OpStartShift 1, day 10 + 36000000)] fleet in
  find_order st 1 =
    Some (mkOrder 1 3 1 500 OrderStatus.assigned (Some 1) (Some (day 10))) /\
  option_map sh_shiftDate (find_shift st 1) = Some (day 10) /\
  shift_end 1 1 (day 10 + 39600000) st =
    Err (BadRequestError (MsgIncompleteOrders 1 [1])).
Proof.
  vm_compute. split; [reflexivity | split; reflexivity].
Qed.

(** An order created for driver 1 at 09:30 of day 10 is stored with the
    date day 10. *)
Lemma createOrder_assignedDate_stored_as_date_witness :
  (Some 1 = Some 1 /\ 0 < 1 /\ @None Z = None) /\
  match order_create (mkOrderInput 3 1 500 (Some 1) None)
          (day 10 + 34200000) fleet with
  | Ok o st' =>
      o_status o = OrderStatus.assigned /\ o_assignedDriverId o = Some 1 /\
      o_assignedDate o = Some (midnight (day 10 + 34200000)) /\
      orders st' = orders fleet ++ [o] /\
      blocks_shift_end 1 (midnight (day 10 + 34200000)) o = true /\
      (forall id st1 o1 st1',
       order_assign id 1 None (day 10 + 34200000) st1 = Ok o1 st1' ->
       o_assignedDate o1 = o_assignedDate o)
  | Err _ => False
  end.
Proof.
  split; [split; [reflexivity | split; [lia | reflexivity]]|].
  pose proof (createOrder_assignedDate_stored_as_date fleet
                (mkOrderInput 3 1 500 (Some 1) None) (day 10 + 34200000) 1
                eq_refl ltac:(lia) eq_refl) as H.
  destruct (order_create (mkOrderInput 3 1 500 (Some 1) None)
              (day 10 + 34200000) fleet) as [o st'|e] eqn:E.
  - exact (H o st' eq_refl).
  - vm_compute in E. discriminate E.
Defined.

(** ** Computations that leave the allocations alone *)

Lemma keeps_ret {A} (x : A) : keeps_allocs (ret x).
Proof. intros st a st' H. injection H as _ <-. reflexivity. Qed.

Lemma keeps_throw {A} (e : Exn) : keeps_allocs (@throw A e).
Proof. intros st a st' H. discriminate H. Qed.

Lemma keeps_reads {A} (f : Store -> A) : keeps_allocs (reads f).
Proof. intros st a st' H. injection H as _ <-. reflexivity. Qed.

Lemma keeps_find_or {A} (o : option A) (e : Exn) : keeps_allocs (find_or o e).
Proof. destruct o; [apply keeps_ret | apply keeps_throw]. Qed.

Lemma keeps_throw_if (c : bool) (e : Exn) : keeps_allocs (throw_if c e).
Proof. destruct c; [apply keeps_throw | apply keeps_ret]. Qed.

Lemma keeps_bind {A B} (m : M A) (k : A -> M B) :
  keeps_allocs m -> (forall a, keeps_allocs (k a)) -> keeps_allocs (bind m k).
Proof.
  intros Hm Hk st b st'. unfold bind.
  destruct (m st) as [a st1|e] eqn:E; [|discriminate].
  intros H. rewrite (Hk a st1 b st' H). exact (Hm st a st1 E).
Qed.

Lemma keeps_modify (f : Store -> Store) :
  (forall st, vehicleAllocations (f st) = vehicleAllocations st) ->
  keeps_allocs (modify f).
Proof. intros Hf st a st' H. injection H as _ <-. apply Hf. Qed.

Create HintDb keeps.
#[local] Hint Resolve keeps_ret keeps_throw keeps_reads keeps_find_or
  keeps_throw_if : keeps.

Ltac solve_keeps :=
  repeat match goal with
  | |- keeps_allocs (bind _ _) => apply keeps_bind; [|intro; cbv beta zeta]
  | |- keeps_allocs (transaction _) => unfold transaction
  | |- keeps_allocs (let _ := _ in _) => cbv zeta
  | |- keeps_allocs (match ?x with _ => _ end) => destruct x
  | |- keeps_allocs (modify _) => apply keeps_modify; intro; reflexivity
  | |- keeps_allocs _ => solve [eauto with keeps]
  | |- keeps_allocs _ =>
      let s := fresh "s" in let r := fresh "r" in let s' := fresh "s'" in
      let H := fresh "H" in
      intros s r s' H; cbv beta zeta in H; injection H as _ <-; reflexivity
  end.

Lemma keeps_order_update (id : Z) (f : Order -> Order) :
  keeps_allocs (order_update id f).
Proof. unfold order_update. solve_keeps. Qed.

Lemma keeps_attempt_update (id : Z) (f : OrderAttempt -> OrderAttempt) :
  keeps_allocs (attempt_update id f).
Proof. unfold attempt_update. solve_keeps. Qed.

Lemma keeps_shift_update (id : Z) (f : Shift -> Shift) :
  keeps_allocs (shift_update id f).
Proof. unfold shift_update. solve_keeps. Qed.

Lemma keeps_attempt_create (o s : Z) (status : AttemptStatus.t)
    (r : option string) (c : option Z) :
  keeps_allocs (attempt_create o s status r c).
Proof. unfold attempt_create. solve_keeps. Qed.

Lemma keeps_shift_create (d : Z) (a : option Z) (date : Z)
    (status : ShiftStatus.t) (start : option Z) :
  keeps_allocs (shift_create d a date status start).
Proof.
  intros st x st'. unfold shift_create.
  destruct (existsb _ _); [discriminate|].
  intros H. injection H as _ <-. reflexivity.
Qed.

Lemma keeps_inventory_upsert_increment (l p q : Z) :
  keeps_allocs (inventory_upsert_increment l p q).
Proof.
  intros st x st'. unfold inventory_upsert_increment.
  destruct (find_inventory st l p); intros H; injection H as _ <-; reflexivity.
Qed.

#[local] Hint Resolve keeps_order_update keeps_attempt_update keeps_shift_update
  keeps_attempt_create keeps_shift_create keeps_inventory_upsert_increment
  : keeps.

Lemma keeps_order_services :
  (forall data now, keeps_allocs (order_create data now)) /\
  (forall id d t now, keeps_allocs (order_assign id d t now)) /\
  (forall id d, keeps_allocs (order_startOrder id d)) /\
  (forall id d now, keeps_allocs (order_completeOrder id d now)) /\
  (forall id d r now, keeps_allocs (order_failOrder id d r now)).
Proof.
  repeat split; intros.
  - unfold order_create. solve_keeps.
  - unfold order_assign, order_getById. solve_keeps.
  - unfold order_startOrder, order_getById. solve_keeps.
  - unfold order_completeOrder, order_getById. solve_keeps.
  - unfold order_failOrder, order_getById. solve_keeps.
Qed.

Lemma keeps_shift_and_gps_services :
  (forall d t, keeps_allocs (shift_schedule d t)) /\
  (forall d now, keeps_allocs (shift_start d now)) /\
  (forall id d now, keeps_allocs (shift_end id d now)) /\
  (forall v lat lon r now, keeps_allocs (gps_create v lat lon r now)).
Proof.
  repeat split; intros.
  - unfold shift_schedule. solve_keeps.
  - unfold shift_start. solve_keeps.
  - unfold shift_end, shift_getById. solve_keeps.
  - unfold gps_create. solve_keeps.
Qed.

(** ** Unique keys of the allocations *)

Lemma next_id_fresh (ids : list Z) : ~ In (next_id ids) ids.
Proof.
  assert (Hle : forall x, In x ids -> x <= fold_right Z.max 0 ids).
  { induction ids as [|y ids IH]; simpl; [tauto|].
    intros x [<-|Hx]; [lia|]. specialize (IH x Hx). lia. }
  unfold next_id. intros Hin. specialize (Hle _ Hin). lia.
Qed.

Lemma NoDup_map_snoc {A K} (k : A -> K) (l : list A) (x : A) :
  NoDup (map k l) -> ~ In (k x) (map k l) -> NoDup (map k (l ++ [x])).
Proof.
  induction l as [|y l IH]; simpl; intros Hnd Hx.
  - constructor; [tauto | constructor].
  - inversion Hnd as [|? ? Hy Hnd']. subst.
    constructor.
    + rewrite map_app, in_app_iff. simpl. intros [H|[H|[]]]; [tauto|].
      apply Hx. left. symmetry. exact H.
    + apply IH; [exact Hnd'|]. intros H. apply Hx. right. exact H.
Qed.

Lemma NoDup_map_filter {A K} (k : A -> K) (p : A -> bool) (l : list A) :
  NoDup (map k l) -> NoDup (map k (filter p l)).
Proof.
  induction l as [|y l IH]; simpl; intros Hnd; [constructor|].
  inversion Hnd as [|? ? Hy Hnd']. subst.
  destruct (p y); simpl; [|apply IH; exact Hnd'].
  constructor; [|apply IH; exact Hnd'].
  intros H. apply Hy. apply in_map_iff in H as [z [Hz Hin]].
  apply filter_In in Hin as [Hin _]. rewrite <- Hz. apply in_map. exact Hin.
Qed.

Lemma NoDup_map_inj {A K} (k : A -> K) (l : list A) (x y : A) :
  NoDup (map k l) -> In x l -> In y l -> k x = k y -> x = y.
Proof.
  induction l as [|z l IH]; simpl; [tauto|].
  intros Hnd Hx Hy Hk. inversion Hnd as [|? ? Hz Hnd']. subst.
  destruct Hx as [<-|Hx], Hy as [<-|Hy]; auto.
  - exfalso. apply Hz. rewrite Hk. apply in_map. exact Hy.
  - exfalso. apply Hz. rewrite <- Hk. apply in_map. exact Hx.
Qed.

Lemma NoDup_map_update {A K} (k : A -> K) (p : A -> bool) (f : A -> A)
    (l : list A) :
  NoDup (map k l) ->
  (forall x y, In x l -> In y l -> p x = true -> p y = true -> x = y) ->
  (forall x y, In x l -> In y l -> p x = true -> p y = false -> k (f x) <> k y) ->
  NoDup (map k (map (fun x => if p x then f x else x) l)).
Proof.
  induction l as [|z l IH]; simpl; intros Hnd Huniq Hsep; [constructor|].
  inversion Hnd as [|? ? Hz Hnd']. subst.
  constructor.
  - rewrite map_map. intros Hin. apply in_map_iff in Hin as [y [Hy Hin]].
    destruct (p z) eqn:Ez, (p y) eqn:Ey.
    + assert (z = y) by (apply Huniq; auto). subst y.
      apply Hz. apply in_map. exact Hin.
    + apply (Hsep z y); auto.
    + apply (Hsep y z); auto.
    + apply Hz. rewrite <- Hy. apply in_map. exact Hin.
  - apply IH; [exact Hnd'| |]; intros x y Hx Hy; [apply Huniq | apply Hsep];
      auto.
Qed.

Lemma map_update_rows_same {A K} (k : A -> K) (key : A -> Z) (id : Z)
    (f : A -> A) (l : list A) :
  (forall x, key x = id -> k (f x) = k x) ->
  map k (update_rows key id f l) = map k l.
Proof.
  intros Hf. unfold update_rows. rewrite map_map. apply map_ext.
  intros x. destruct (Z.eqb_spec (key x) id); auto.
Qed.

Lemma vehicle_not_booked (st : Store) (v date : Z) :
  vehicle_booked st v date = false ->
  ~ In (v, date) (map (fun a => (va_vehicleId a, va_allocationDate a))
                     (vehicleAllocations st)).
Proof.
  intros Hb Hin. apply in_map_iff in Hin as [b [Hb' Hin]].
  injection Hb' as E1 E2.
  assert (vehicle_booked st v date = true) by (apply vehicle_booked_iff; eauto).
  congruence.
Qed.

Lemma driver_not_booked (st : Store) (d date : Z) :
  driver_booked st d date = false ->
  ~ In (d, date) (map (fun a => (va_driverId a, va_allocationDate a))
                     (vehicleAllocations st)).
Proof.
  intros Hb Hin. apply in_map_iff in Hin as [b [Hb' Hin]].
  injection Hb' as E1 E2.
  assert (driver_booked st d date = true) by (apply driver_booked_iff; eauto).
  congruence.
Qed.

Lemma allocate_preserves_keys (st : Store) (v d t now : Z)
    (a : VehicleAllocation) (st' : Store) :
  alloc_keys_unique st -> allocate v d t now st = Ok a st' ->
  alloc_keys_unique st'.
Proof.
  intros [H1 [H2 H3]] H. rewrite allocate_result in H.
  destruct (allocation_validate v d t now); [|discriminate].
  destruct (find_vehicle st v); [|discriminate].
  destruct (find_driver st d); [|discriminate].
  destruct (vehicle_booked st v (midnight t)) eqn:Ev; [discriminate|].
  destruct (driver_booked st d (midnight t)) eqn:Ed; [discriminate|].
  injection H as <- <-. unfold alloc_keys_unique. simpl.
  split; [|split]; apply NoDup_map_snoc; auto; simpl.
  - apply next_id_fresh.
  - apply vehicle_not_booked. exact Ev.
  - apply driver_not_booked. exact Ed.
Qed.

(** The database check of an update looks at every other row. *)
Lemma constraint_none_other_rows (st : Store) (id v d t : Z)
    (y : VehicleAllocation) :
  allocation_constraint_error st (Some id) v d t = None ->
  In y (vehicleAllocations st) -> va_id y <> id ->
  (va_vehicleId y, va_allocationDate y) <> (v, t) /\
  (va_driverId y, va_allocationDate y) <> (d, t).
Proof.
  unfold allocation_constraint_error. cbv zeta.
  set (others := filter _ (vehicleAllocations st)).
  intros H Hy Hne.
  assert (Hin : In y others).
  { apply filter_In. split; [exact Hy|]. unfold opt_eqb.
    destruct (Z.eqb_spec (va_id y) id); [contradiction | reflexivity]. }
  split; intros E; injection E as E1 E2.
  - assert (Hx : existsb (fun a => (va_vehicleId a =? v)
                                   && (va_allocationDate a =? t)) others = true).
    { apply existsb_exists. exists y. rewrite E1, E2, !Z.eqb_refl. auto. }
    rewrite Hx in H. discriminate.
  - destruct (existsb _ others); [discriminate|].
    assert (Hx : existsb (fun a => (va_driverId a =? d)
                                   && (va_allocationDate a =? t)) others = true).
    { apply existsb_exists. exists y. rewrite E1, E2, !Z.eqb_refl. auto. }
    rewrite Hx in H. discriminate.
Qed.

Lemma allocation_update_ok (id : Z) (data : AllocationChanges) (st : Store)
    (a : VehicleAllocation) (st' : Store) :
  allocation_update id data st = Ok a st' ->
  exists r, find_allocation st id = Some r /\
  allocation_constraint_error st (Some id) (va_vehicleId a) (va_driverId a)
    (va_allocationDate a) = None /\
  va_id a = id /\
  vehicleAllocations st' =
    update_rows va_id id (fun _ => a) (vehicleAllocations st).
Proof.
  cbv [allocation_update allocation_getById bind reads find_or throw_if ret
       throw catch].
  destruct (find_allocation st id) as [r|] eqn:Er; [|discriminate].
  destruct (find _ (shifts st)); [discriminate|].
  match goal with
  | |- context [allocation_constraint_error ?s ?e ?v ?d ?t] =>
      destruct (allocation_constraint_error s e v d t) as [e'|] eqn:Ec
  end.
  - intros H. destruct e'; try discriminate.
    destruct (String.eqb _ _); discriminate.
  - intros H. injection H as <- <-. exists r. simpl. auto.
Qed.

Lemma allocation_update_preserves_keys (id : Z) (data : AllocationChanges)
    (st : Store) (a : VehicleAllocation) (st' : Store) :
  alloc_keys_unique st -> allocation_update id data st = Ok a st' ->
  alloc_keys_unique st'.
Proof.
  intros [H1 [H2 H3]] H.
  apply allocation_update_ok in H as [r [Er [Ec [Ea Hst']]]].
  unfold alloc_keys_unique. rewrite Hst'.
  assert (Huniq : forall x y, In x (vehicleAllocations st) ->
            In y (vehicleAllocations st) -> (va_id x =? id) = true ->
            (va_id y =? id) = true -> x = y).
  { intros x y Hx Hy Ex Ey. apply Z.eqb_eq in Ex, Ey.
    apply (NoDup_map_inj va_id _ x y H1 Hx Hy). congruence. }
  split; [|split].
  - rewrite map_update_rows_same; [exact H1|]. intros x Ex. simpl. congruence.
  - apply NoDup_map_update; [exact H2 | exact Huniq |].
    intros x y _ Hy _ Ey. apply Z.eqb_neq in Ey.
    intros E. apply (proj1 (constraint_none_other_rows st id _ _ _ y Ec Hy Ey)).
    rewrite <- E. reflexivity.
  - apply NoDup_map_update; [exact H3 | exact Huniq |].
    intros x y _ Hy _ Ey. apply Z.eqb_neq in Ey.
    intros E. apply (proj2 (constraint_none_other_rows st id _ _ _ y Ec Hy Ey)).
    rewrite <- E. reflexivity.
Qed.

Lemma modify_allocation_preserves_keys (id : Z) (data : AllocationChanges)
    (now : Z) (st : Store) (a : VehicleAllocation) (st' : Store) :
  alloc_keys_unique st -> modify_allocation id data now st = Ok a st' ->
  alloc_keys_unique st'.
Proof.
  unfold modify_allocation. cbv zeta.
  match goal with
  | |- context [match ?e with [] => _ | _ :: _ => _ end] => destruct e
  end.
  - apply allocation_update_preserves_keys.
  - intros _ H. discriminate H.
Qed.

Lemma allocation_remove_preserves_keys (id : Z) (st : Store) (u : unit)
    (st' : Store) :
  alloc_keys_unique st -> allocation_remove id st = Ok u st' ->
  alloc_keys_unique st'.
Proof.
  cbv [allocation_remove allocation_getById bind reads find_or throw_if ret
       throw modify].
  destruct (find_allocation st id); [|discriminate].
  destruct (Nat.ltb _ _); [discriminate|].
  intros [H1 [H2 H3]] H. injection H as _ <-.
  unfold alloc_keys_unique. simpl.
  split; [|split]; apply NoDup_map_filter; assumption.
Qed.

Lemma keeps_then_unit {A} (m : M A) :
  keeps_allocs m -> keeps_allocs (m;;; ret tt).
Proof. intros Hm. apply keeps_bind; [exact Hm | intros; apply keeps_ret]. Qed.

Lemma step_preserves_keys (st : Store) (req : Op * Z) :
  alloc_keys_unique st -> alloc_keys_unique (step st req).
Proof.
  destruct req as [op now]. unfold step. simpl fst. simpl snd.
  destruct (exec op now st) as [u st'|e] eqn:E; [|auto].
  intros Hinv.
  destruct (keeps_order_services) as [Kc [Ka [Ks [Kd Kf]]]].
  destruct (keeps_shift_and_gps_services) as [Ksc [Kst [Ke Kg]]].
  assert (Hk : forall m : M unit, keeps_allocs m -> m st = Ok u st' ->
                 alloc_keys_unique st').
  { intros m Hm Em. unfold alloc_keys_unique. rewrite (Hm st u st' Em).
    exact Hinv. }
  destruct op; cbv [exec] in E.
  - unfold bind in E.
    destruct (allocate vehicleId driverId allocationDate now st) as [a st1|]
      eqn:E1; [|discriminate].
    injection E as _ <-. exact (allocate_preserves_keys _ _ _ _ _ _ _ Hinv E1).
  - unfold bind in E.
    destruct (modify_allocation id data now st) as [a st1|] eqn:E1;
      [|discriminate].
    injection E as _ <-.
    exact (modify_allocation_preserves_keys _ _ _ _ _ _ Hinv E1).
  - exact (allocation_remove_preserves_keys _ _ _ _ Hinv E).
  - exact (Hk _ (keeps_then_unit _ (Ksc _ _)) E).
  - exact (Hk _ (keeps_then_unit _ (Kst _ _)) E).
  - exact (Hk _ (keeps_then_unit _ (Ke _ _ _)) E).
  - exact (Hk _ (keeps_then_unit _ (Kc _ _)) E).
  - exact (Hk _ (keeps_then_unit _ (Ka _ _ _ _)) E).
  - exact (Hk _ (keeps_then_unit _ (Ks _ _)) E).
  - exact (Hk _ (keeps_then_unit _ (Kd _ _ _)) E).
  - exact (Hk _ (keeps_then_unit _ (Kf _ _ _ _)) E).
  - exact (Hk _ (keeps_then_unit _ (Kg _ _ _ _ _)) E).
Qed.

Lemma run_preserves_keys (reqs : list (Op * Z)) (st : Store) :
  alloc_keys_unique st -> alloc_keys_unique (run reqs st).
Proof.
  unfold run. revert st.
  induction reqs as [|r reqs IH]; simpl; intros st H; [exact H|].
  apply IH. apply step_preserves_keys. exact H.
Qed.

Lemma allocate_ok_inv (st : Store) (v d t now : Z) (a : VehicleAllocation)
    (st' : Store) :
  allocate v d t now st = Ok a st' ->
  0 < v /\ 0 < d /\
  (exists veh, find_vehicle st v = Some veh) /\
  (exists drv, find_driver st d = Some drv) /\
  a = mkAllocation (next_id (map va_id (vehicleAllocations st))) v d
        (midnight t) /\
  st' = with_allocations st (vehicleAllocations st ++ [a]).
Proof.
  intros H. rewrite allocate_result in H.
  destruct (allocation_validate v d t now) eqn:Hval; [|discriminate].
  apply allocation_validate_nil in Hval as [Hv [Hd _]].
  destruct (find_vehicle st v) as [veh|]; [|discriminate].
  destruct (find_driver st d) as [drv|]; [|discriminate].
  destruct (vehicle_booked st v (midnight t)); [discriminate|].
  destruct (driver_booked st d (midnight t)); [discriminate|].
  injection H as <- <-. eauto 10.
Qed.

(** C2 (as the code behaves): once [allocate v d1 t] has succeeded, a
    second [allocate] for the same vehicle and date with a known driver,
    made while [t] is not yet in the past, fails with [Conflict]; likewise
    for the same driver and date with a known vehicle.  (Ids are positive,
    as the request validator demands.)  Every store reached by requests from
    one whose allocations respect the two unique keys respects them too, in
    particular every store reached from [fleet]. *)
Theorem allocate_exclusive (st : Store) :
  (forall v d1 d2 t now1 now2 a st1,
   allocate v d1 t now1 st = Ok a st1 ->
   0 < d2 -> find_driver st d2 <> None -> midnight now2 <= t ->
   exists m, allocate v d2 t now2 st1 = Err (ConflictError m)) /\
  (forall v1 v2 d t now1 now2 a st1,
   allocate v1 d t now1 st = Ok a st1 ->
   0 < v2 -> find_vehicle st v2 <> None -> midnight now2 <= t ->
   exists m, allocate v2 d t now2 st1 = Err (ConflictError m)) /\
  (alloc_keys_unique st -> forall reqs, alloc_keys_unique (run reqs st)) /\
  (forall reqs, alloc_keys_unique (run reqs fleet)).
Proof.
  split; [|split; [|split]].
  - intros v d1 d2 t now1 now2 a st1 H Hd2 Hfd Ht.
    apply allocate_ok_inv in H as [Hv [_ [[veh Hveh] [_ [Ea Est]]]]].
    destruct (find_driver st d2) as [drv|] eqn:Hdrv; [|congruence].
    subst st1.
    rewrite allocate_result.
    rewrite (proj2 (allocation_validate_nil v d2 t now2)) by lia.
    simpl find_vehicle. simpl find_driver.
    change (find_vehicle st v = Some veh) in Hveh.
    change (find_driver st d2 = Some drv) in Hdrv.
    unfold find_vehicle, find_driver in *. simpl. rewrite Hveh, Hdrv.
    assert (Hb : vehicle_booked (with_allocations st (vehicleAllocations st ++ [a]))
                   v (midnight t) = true).
    { apply vehicle_booked_iff. exists a. subst a. simpl.
      rewrite in_app_iff. simpl. auto. }
    rewrite Hb. eauto.
  - intros v1 v2 d t now1 now2 a st1 H Hv2 Hfv Ht.
    apply allocate_ok_inv in H as [_ [Hd [_ [[drv Hdrv] [Ea Est]]]]].
    destruct (find_vehicle st v2) as [veh|] eqn:Hveh; [|congruence].
    subst st1.
    rewrite allocate_result.
    rewrite (proj2 (allocation_validate_nil v2 d t now2)) by lia.
    unfold find_vehicle, find_driver in *. simpl. rewrite Hveh, Hdrv.
    assert (Hb : driver_booked (with_allocations st (vehicleAllocations st ++ [a]))
                   d (midnight t) = true).
    { apply driver_booked_iff. exists a. subst a. simpl.
      rewrite in_app_iff. simpl. auto. }
    rewrite Hb. destruct (vehicle_booked _ _ _); eauto.
  - intros Hinv reqs. apply run_preserves_keys. exact Hinv.
  - intros reqs. apply run_preserves_keys.
    unfold alloc_keys_unique. simpl. repeat split; constructor.
Qed.

(** C2 (fails as stated): on [fleet], vehicle 1 is allocated to driver 1
    for day 10; a second allocation of vehicle 1 that day to driver 99, who
    does not exist, fails with [NotFound], and one to driver 2 made on
    day 11, when day 10 is past, fails with a [Validation] error: neither is
    a [Conflict]. *)
Lemma allocate_second_not_conflict :
  match allocate 1 1 (day 10) (day 10) fleet with
  | Ok _ st1 =>
      allocate 1 99 (day 10) (day 10) st1 =
        Err (NotFoundError (MsgNotFound "Driver" 99)) /\
      allocate 1 2 (day 10) (day 11) st1 =
        Err (ValidationError (MsgValidation
          ["allocationDate: Allocation date cannot be in the past"]))
  | Err _ => False
  end.
Proof.
  vm_compute. split; reflexivity.
Qed.

(** ** Runs of the fleet *)

(** Driver 1 takes vehicle 1 on day 10, starts the shift at 08:00, is given
    an order of 500 units for location 3 and starts it; completing it credits
    location 3 with the 500 units. *)
Lemma completeOrder_credits_inventory_witness :
  let t := day 10 + 28800000 in
  let st := run [(OpAllocate 1 1 (day 10), t); (OpStartShift 1, t);
                 (OpCreateOrder (mkOrderInput 3 1 500 (Some 1) None), t);
                 (OpStartOrder 1 1, t + 1000)] fleet in
  exists st', order_completeOrder 1 1 (t + 2000) st =
      Ok (mkOrder 1 3 1 500 OrderStatus.completed (Some 1) (Some (day 10))) st' /\
    inventory_quantity st' 3 1 = inventory_quantity st 3 1 + 500.
Proof.
  intros t st.
  destruct (completeOrder_credits_inventory st 1 1 (t + 2000)
     (mkOrder 1 3 1 500 OrderStatus.in_progress (Some 1) (Some (day 10)))
     (mkShift 1 1 (Some 1) (day 10) ShiftStatus.active (Some t) None)
     (mkAttempt 1 1 1 AttemptStatus.in_progress None None))
    as [st' [H1 [_ [_ [_ [H5 _]]]]]];
    try reflexivity;
    try (vm_compute; left; reflexivity);
    try (let x := fresh in let Hx := fresh in
         intros x Hx; intros; vm_compute in Hx; destruct Hx as [<-|[]];
         reflexivity).
  exists st'. split; [exact H1 | exact H5].
Defined.

(** The same order, failed before it is started: the stock stays as it
    was. *)
Lemma failOrder_leaves_inventory_witness :
  let t := day 10 + 28800000 in
  let st := run [(OpAllocate 1 1 (day 10), t); (OpStartShift 1, t);
                 (OpCreateOrder (mkOrderInput 3 1 500 (Some 1) None), t)]
              fleet in
  exists st', order_failOrder 1 1 "Customer unavailable" (t + 1000) st =
      Ok (mkOrder 1 3 1 500 OrderStatus.failed (Some 1) (Some (day 10))) st' /\
    inventory st' = inventory st.
Proof.
  intros t st.
  destruct (failOrder_leaves_inventory st 1 1 "Customer unavailable" (t + 1000)
     (mkOrder 1 3 1 500 OrderStatus.assigned (Some 1) (Some (day 10)))
     (mkShift 1 1 (Some 1) (day 10) ShiftStatus.active (Some t) None))
    as [st' [H1 [_ [_ [H4 _]]]]];
    try reflexivity;
    try discriminate;
    try (vm_compute; left; reflexivity);
    try (let x := fresh in let Hx := fresh in
         intros x Hx; intros; vm_compute in Hx; destruct Hx as [<-|[]];
         reflexivity).
  exists st'. split; [exact H1 | exact H4].
Defined.

(** Driver 1's shift of day 10 cannot end while an order assigned to the
    driver for that day is still open. *)
Lemma endShift_blocked_iff_open_orders_witness :
  let t := day 10 + 28800000 in
  let st := run [(OpAllocate 1 1 (day 10), t); (OpStartShift 1, t);
                 (OpCreateOrder (mkOrderInput 3 1 500 None None), t);
                 (OpAssignOrder 1 1 None, t)] fleet in
  exists m, shift_end 1 1 (t + 1000) st = Err (BadRequestError m).
Proof.
  intros t st.
  destruct (endShift_blocked_iff_open_orders st 1 1 (t + 1000)
     (mkShift 1 1 (Some 1) (day 10) ShiftStatus.active (Some t) None))
    as [[_ Hiff] _]; try reflexivity.
  apply Hiff.
  exists (mkOrder 1 3 1 500 OrderStatus.assigned (Some 1) (Some (day 10))).
  split; [vm_compute; left; reflexivity|].
  split; [reflexivity|]. split; [reflexivity|]. left. reflexivity.
Defined.

(** Driver 1 schedules day 10 and gets vehicle 1 for it on day 9; starting
    at 08:00 of day 10 activates the scheduled row. *)
Lemma startShift_outcomes_witness :
  let t := day 10 + 28800000 in
  let st := run [(OpScheduleShift 1 (day 10), day 9);
                 (OpAllocate 1 1 (day 10), day 9)] fleet in
  exists r st', shift_start 1 t st = Ok r st' /\
    sh_id r = 1 /\ sh_status r = ShiftStatus.active /\
    sh_vehicleAllocationId r = Some 1.
Proof.
  intros t st.
  destruct (startShift_outcomes st 1 t) as [_ H].
  destruct (H (mkDriver 1 "John Smith")) as [_ [_ H4]]; [reflexivity|].
  destruct H4 with (al := mkAllocation 1 1 1 (day 10)) as [H5 _];
    try reflexivity;
    try (vm_compute; left; reflexivity);
    try (let x := fresh in let Hx := fresh in
         intros x Hx; intros; vm_compute in Hx; destruct Hx as [<-|[]];
         first [reflexivity | discriminate]).
  destruct (H5 (mkShift 1 1 None (day 10) ShiftStatus.scheduled None None))
    as [r [st' [E [Hs [_ [Ha _]]]]]];
    try reflexivity;
    try (vm_compute; left; reflexivity);
    try (let x := fresh in let Hx := fresh in
         intros x Hx; intros; vm_compute in Hx; destruct Hx as [<-|[]];
         reflexivity).
  exists r, st'. split; [exact E|]. split; [|split; [exact Hs | exact Ha]].
  vm_compute in E. injection E as <- _. reflexivity.
Defined.

(** Once driver 1 has started the day-10 shift with vehicle 1, a ping of
    vehicle 1 is recorded under that shift. *)
Lemma recordGps_gate_witness :
  let t := day 10 + 28800000 in
  let st := run [(OpAllocate 1 1 (day 10), t); (OpStartShift 1, t)] fleet in
  exists g st', gps_create 1 29760 (-95370) None (t + 60000) st = Ok g st' /\
    gps_shiftId g = Some 1 /\ gps_recordedAt g = t + 60000.
Proof.
  intros t st.
  destruct (recordGps_gate st 1 29760 (-95370) None (t + 60000))
    as [_ H].
  destruct (H (mkVehicle 1 "TX-FP-001")) as [_ [Hok Hshape]]; [reflexivity|].
  destruct Hok as [g [st' E]].
  { exists (mkShift 1 1 (Some 1) (day 10) ShiftStatus.active (Some t) None).
    split; [vm_compute; left; reflexivity|]. split; [reflexivity|].
    exists 1, (mkAllocation 1 1 1 (day 10)). split; [reflexivity|].
    split; reflexivity. }
  destruct (Hshape g st' E) as [_ [_ [_ [_ [[s [Hs [_ [_ Hid]]]] [Hnow _]]]]]].
  exists g, st'. split; [exact E|]. split; [|exact (Hnow eq_refl)].
  vm_compute in Hs. destruct Hs as [<-|[]]. exact Hid.
Defined.

(** Vehicle 1 goes to driver 1 for day 10; on the same day driver 2 cannot
    have it. *)
Lemma allocate_exclusive_witness :
  match allocate 1 1 (day 10) (day 10) fleet with
  | Ok _ st1 => exists m, allocate 1 2 (day 10) (day 10) st1 =
                  Err (ConflictError m)
  | Err _ => False
  end.
Proof.
  destruct (allocate 1 1 (day 10) (day 10) fleet) as [a st1|e] eqn:E.
  - apply (proj1 (allocate_exclusive fleet) 1 1 2 (day 10) (day 10) (day 10)
             a st1 E); [lia | discriminate | vm_compute; discriminate].
  - vm_compute in E. discriminate E.
Defined.

(** Once vehicle 1 is driver 1's for day 10, giving driver 1 vehicle 2 that
    day is refused with the driver message. *)
Lemma allocate_conflict_names_rule_witness :
  let st := with_allocations fleet [mkAllocation 1 1 1 (day 10)] in
  allocate 2 1 (day 10) (day 10) st =
    Err (ConflictError (MsgDriverAlreadyHasVehicle "John Smith" (day 10))).
Proof.
  intros st.
  destruct (allocate_conflict_names_rule st 2 1 (day 10) (day 10)) as [_ H].
  destruct (H (mkVehicle 2 "TX-FP-002") (mkDriver 1 "John Smith"))
    as [_ [H2 _]];
    [reflexivity | reflexivity | lia | lia | apply midnight_le |].
  apply H2.
  - intros [a [Ha [Hv _]]]. vm_compute in Ha.
    destruct Ha as [<-|[]]. discriminate Hv.
  - exists (mkAllocation 1 1 1 (day 10)). split; [left; reflexivity|].
    split; [reflexivity|]. vm_compute. reflexivity.
Defined.

(* ------------------------------------------------------------------ *)
(** ** Sorting *)

Lemma insert_by_In {A} (le : A -> A -> bool) (x y : A) (l : list A) :
  In y (insert_by le x l) <-> y = x \/ In y l.
Proof.
  induction l as [|z l IH]; simpl; [intuition congruence|].
  destruct (le x z); simpl; [intuition congruence|]. rewrite IH.
  intuition congruence.
Qed.

Lemma sort_by_In {A} (le : A -> A -> bool) (l : list A) (y : A) :
  In y (sort_by le l) <-> In y l.
Proof.
  induction l as [|z l IH]; simpl; [tauto|].
  rewrite insert_by_In, IH. intuition congruence.
Qed.

Section Sorting.
Context {A : Type} (le : A -> A -> bool) (R : A -> A -> Prop).
Hypothesis le_R : forall a b, le a b = true -> R a b.
Hypothesis le_total : forall a b, le a b = false -> R b a.

Lemma insert_by_HdRel (a x : A) (l : list A) :
  HdRel R a l -> R a x -> HdRel R a (insert_by le x l).
Proof.
  intros Hh Hx. destruct l as [|z l]; simpl; [constructor; exact Hx|].
  destruct (le x z); constructor; [exact Hx|]. inversion Hh. assumption.
Qed.

Lemma insert_by_sorted (x : A) (l : list A) :
  Sorted R l -> Sorted R (insert_by le x l).
Proof.
  induction l as [|z l IH]; simpl; intros Hs.
  - constructor; constructor.
  - destruct (le x z) eqn:E.
    + constructor; [exact Hs|]. constructor. apply le_R. exact E.
    + apply Sorted_inv in Hs as [Hs Hh]. constructor; [apply IH; exact Hs|].
      apply insert_by_HdRel; [exact Hh|]. apply le_total. exact E.
Qed.

Lemma sort_by_sorted (l : list A) : Sorted R (sort_by le l).
Proof.
  induction l as [|z l IH]; simpl; [constructor|].
  apply insert_by_sorted. exact IH.
Qed.
End Sorting.

(* ------------------------------------------------------------------ *)
(** ** Available vehicles *)

Lemma existsb_allocated_ids (l : list VehicleAllocation) (x t : Z) :
  existsb (Z.eqb x)
    (map va_vehicleId (filter (fun a => va_allocationDate a =? t) l)) =
  existsb (fun a => (va_vehicleId a =? x) && (va_allocationDate a =? t)) l.
Proof.
  induction l as [|a l IH]; simpl; [reflexivity|].
  destruct (va_allocationDate a =? t); simpl.
  - rewrite IH, Z.eqb_sym. destruct (va_vehicleId a =? x); reflexivity.
  - rewrite IH, andb_false_r. reflexivity.
Qed.

Lemma getAvailableVehicles_result (st : Store) (date : Z) :
  allocation_getAvailableVehicles date st =
  Ok (sort_by (fun a b => vehicle_id a <=? vehicle_id b)
        (filter (fun v => negb (vehicle_booked st (vehicle_id v) (midnight date)))
           (vehicles st))) st.
Proof.
  cbv [allocation_getAvailableVehicles bind reads]. f_equal. f_equal.
  apply filter_ext. intros v. rewrite existsb_allocated_ids. reflexivity.
Qed.

Lemma available_In (st : Store) (date : Z) (v : Vehicle) :
  In v (sort_by (fun a b => vehicle_id a <=? vehicle_id b)
          (filter (fun v => negb (vehicle_booked st (vehicle_id v) (midnight date)))
             (vehicles st))) <->
  In v (vehicles st) /\ vehicle_booked st (vehicle_id v) (midnight date) = false.
Proof.
  rewrite sort_by_In, filter_In.
  split; intros [H1 H2]; split; auto; [apply negb_true_iff | apply negb_true_iff];
    assumption.
Qed.

(** X1. [getAvailableVehicles(date)] returns exactly the vehicles that no
    allocation holds on the midnight of [date], in ascending id order, and
    writes nothing. *)
Theorem getAvailableVehicles_exact (st : Store) (date : Z) :
  exists vs, allocation_getAvailableVehicles date st = Ok vs st /\
  (forall v, In v vs <->
     In v (vehicles st) /\
     ~ exists a, In a (vehicleAllocations st) /\ va_vehicleId a = vehicle_id v
                 /\ va_allocationDate a = midnight date) /\
  Sorted (fun a b => vehicle_id a <= vehicle_id b) vs.
Proof.
  eexists. split; [apply getAvailableVehicles_result|]. split.
  - intros v. rewrite available_In, <- vehicle_booked_iff.
    destruct (vehicle_booked st (vehicle_id v) (midnight date));
      intuition congruence.
  - apply sort_by_sorted.
    + intros a b H. apply Z.leb_le. exact H.
    + intros a b H. apply Z.leb_gt in H. lia.
Qed.

Lemma find_vehicle_In (st : Store) (v : Vehicle) :
  In v (vehicles st) -> exists veh, find_vehicle st (vehicle_id v) = Some veh.
Proof.
  intros Hin. unfold find_vehicle.
  destruct (find _ _) as [veh|] eqn:E; [eauto|].
  pose proof (find_none _ _ E v Hin) as H. simpl in H.
  rewrite Z.eqb_refl in H. discriminate.
Qed.

(** X2. A vehicle listed as available for [t] can be allocated on [t] to a
    known driver who has no vehicle that day (when the validator accepts
    the request), and afterwards exactly that vehicle has left the
    available list of [t]. *)
Theorem allocate_available_vehicle (st : Store) (v : Vehicle) (d t now : Z)
    (vs : list Vehicle) :
  allocation_getAvailableVehicles t st = Ok vs st -> In v vs ->
  find_driver st d <> None -> driver_booked st d (midnight t) = false ->
  0 < vehicle_id v -> 0 < d -> midnight now <= t ->
  exists a st' vs',
    allocate (vehicle_id v) d t now st = Ok a st' /\
    allocation_getAvailableVehicles t st' = Ok vs' st' /\
    forall w, In w vs' <-> In w vs /\ vehicle_id w <> vehicle_id v.
Proof.
  intros Hav Hin Hd Hdb Hv0 Hd0 Ht.
  rewrite getAvailableVehicles_result in Hav. injection Hav as <-.
  pose proof Hin as Hin'. apply available_In in Hin' as [Hveh Hvb].
  destruct (find_vehicle_In st v Hveh) as [veh Hfv].
  destruct (find_driver st d) as [drv|] eqn:Hfd; [|congruence].
  rewrite allocate_result.
  assert (Hval : allocation_validate (vehicle_id v) d t now = [])
    by (apply allocation_validate_nil; lia).
  rewrite Hval, Hfv, Hfd, Hvb, Hdb.
  do 3 eexists. split; [reflexivity|].
  split; [apply getAvailableVehicles_result|].
  intros w. rewrite !available_In. simpl vehicles.
  unfold vehicle_booked. simpl vehicleAllocations.
  rewrite existsb_app. simpl. rewrite Z.eqb_refl, andb_true_r, orb_false_r.
  fold (vehicle_booked st (vehicle_id w) (midnight t)).
  destruct (Z.eqb_spec (vehicle_id v) (vehicle_id w)) as [E|E].
  - rewrite orb_true_r. split; [intros [_ H]; discriminate|].
    intros [_ H]. congruence.
  - rewrite orb_false_r. intuition congruence.
Qed.

Lemma allocate_available_vehicle_witness :
  let st := run [(OpAllocate 2 1 (day 10), day 9)] fleet in
  exists a st' vs',
    allocate 1 2 (day 10) (day 9) st = Ok a st' /\
    allocation_getAvailableVehicles (day 10) st' = Ok vs' st' /\
    forall w, In w vs' <-> In w [mkVehicle 1 "TX-FP-001"] /\
              vehicle_id w <> vehicle_id (mkVehicle 1 "TX-FP-001").
Proof.
  intros st.
  apply (allocate_available_vehicle st (mkVehicle 1 "TX-FP-001") 2 (day 10)
           (day 9) [mkVehicle 1 "TX-FP-001"]).
  - vm_compute. reflexivity.
  - left. reflexivity.
  - vm_compute. discriminate.
  - vm_compute. reflexivity.
  - vm_compute. reflexivity.
  - lia.
  - vm_compute. discriminate.
Defined.

(* ------------------------------------------------------------------ *)
(** ** Requests that leave the shift table alone *)

Lemma ks_ret {A} (x : A) : keeps_shifts (ret x).
Proof. intros st a st' H. injection H as _ <-. reflexivity. Qed.

Lemma ks_throw {A} (e : Exn) : keeps_shifts (@throw A e).
Proof. intros st a st' H. discriminate. Qed.

Lemma ks_reads {A} (f : Store -> A) : keeps_shifts (reads f).
Proof. intros st a st' H. injection H as _ <-. reflexivity. Qed.

Lemma ks_find_or {A} (o : option A) (e : Exn) : keeps_shifts (find_or o e).
Proof. destruct o; [apply ks_ret | apply ks_throw]. Qed.

Lemma ks_throw_if (c : bool) (e : Exn) : keeps_shifts (throw_if c e).
Proof. destruct c; [apply ks_throw | apply ks_ret]. Qed.

Lemma ks_bind {A B} (m : M A) (k : A -> M B) :
  keeps_shifts m -> (forall a, keeps_shifts (k a)) -> keeps_shifts (bind m k).
Proof.
  intros Hm Hk st b st' H. unfold bind in H.
  destruct (m st) as [a st1|e] eqn:E; [|discriminate].
  rewrite (Hk a st1 b st' H). exact (Hm st a st1 E).
Qed.

Lemma ks_catch {A} (m : M A) (h : Exn -> M A) :
  keeps_shifts m -> (forall e, keeps_shifts (h e)) -> keeps_shifts (catch m h).
Proof.
  intros Hm Hh st a st' H. unfold catch in H.
  destruct (m st) as [a1 st1|e] eqn:E.
  - injection H as <- <-. exact (Hm st a1 st1 E).
  - exact (Hh e st a st' H).
Qed.

Lemma ks_modify (f : Store -> Store) :
  (forall st, shifts (f st) = shifts st) -> keeps_shifts (modify f).
Proof. intros Hf st a st' H. injection H as _ <-. apply Hf. Qed.

Create HintDb keeps_sh.
#[local] Hint Resolve ks_ret ks_throw ks_reads ks_find_or ks_throw_if : keeps_sh.

Ltac solve_keeps_shifts :=
  repeat match goal with
  | |- keeps_shifts (bind _ _) => apply ks_bind; [|intro; cbv beta zeta]
  | |- keeps_shifts (catch _ _) => apply ks_catch; [|intro]
  | |- keeps_shifts (transaction _) => unfold transaction
  | |- keeps_shifts (let _ := _ in _) => cbv zeta
  | |- keeps_shifts (match ?x with _ => _ end) => destruct x
  | |- keeps_shifts (if ?x then _ else _) => destruct x
  | |- keeps_shifts (modify _) => apply ks_modify; intro; reflexivity
  | |- keeps_shifts _ => solve [eauto with keeps_sh]
  | |- keeps_shifts _ =>
      let s := fresh "s" in let r := fresh "r" in let s' := fresh "s'" in
      let H := fresh "H" in
      intros s r s' H; cbv beta zeta in H;
      repeat match type of H with
             | context [match ?x with _ => _ end] => destruct x
             end;
      try discriminate; injection H as _ <-; reflexivity
  end.

Lemma ks_order_update (id : Z) (f : Order -> Order) :
  keeps_shifts (order_update id f).
Proof. unfold order_update. solve_keeps_shifts. Qed.

Lemma ks_attempt_update (id : Z) (f : OrderAttempt -> OrderAttempt) :
  keeps_shifts (attempt_update id f).
Proof. unfold attempt_update. solve_keeps_shifts. Qed.

Lemma ks_attempt_create (o s : Z) (status : AttemptStatus.t)
    (r : option string) (c : option Z) :
  keeps_shifts (attempt_create o s status r c).
Proof. unfold attempt_create. solve_keeps_shifts. Qed.

Lemma ks_inventory_upsert_increment (l p q : Z) :
  keeps_shifts (inventory_upsert_increment l p q).
Proof. unfold inventory_upsert_increment. solve_keeps_shifts. Qed.

Lemma ks_vehicleAllocation_create (v d t : Z) :
  keeps_shifts (vehicleAllocation_create v d t).
Proof. unfold vehicleAllocation_create. solve_keeps_shifts. Qed.

#[local] Hint Resolve ks_order_update ks_attempt_update ks_attempt_create
  ks_inventory_upsert_increment ks_vehicleAllocation_create : keeps_sh.

Lemma ks_other_services :
  (forall v d t now, keeps_shifts (allocate v d t now)) /\
  (forall id data now, keeps_shifts (modify_allocation id data now)) /\
  (forall id, keeps_shifts (allocation_remove id)) /\
  (forall data now, keeps_shifts (order_create data now)) /\
  (forall id d t now, keeps_shifts (order_assign id d t now)) /\
  (forall id d, keeps_shifts (order_startOrder id d)) /\
  (forall id d now, keeps_shifts (order_completeOrder id d now)) /\
  (forall id d r now, keeps_shifts (order_failOrder id d r now)) /\
  (forall v lat lon r now, keeps_shifts (gps_create v lat lon r now)).
Proof.
  repeat split; intros.
  - unfold allocate, allocation_create. solve_keeps_shifts.
  - unfold modify_allocation, allocation_update, allocation_getById.
    solve_keeps_shifts.
  - unfold allocation_remove, allocation_getById. solve_keeps_shifts.
  - unfold order_create. solve_keeps_shifts.
  - unfold order_assign, order_getById. solve_keeps_shifts.
  - unfold order_startOrder, order_getById. solve_keeps_shifts.
  - unfold order_completeOrder, order_getById. solve_keeps_shifts.
  - unfold order_failOrder, order_getById. solve_keeps_shifts.
  - unfold gps_create. solve_keeps_shifts.
Qed.

(* ------------------------------------------------------------------ *)
(** ** The shift table invariants *)

Lemma shift_create_keeps_ok (st : Store) (d : Z) (a : option Z) (date : Z)
    (status : ShiftStatus.t) (start : option Z) (s : Shift) (st' : Store) :
  shift_keys_ok st -> shift_create d a date status start st = Ok s st' ->
  (status = ShiftStatus.active -> find_active_shift st d = None) ->
  shift_keys_ok st'.
Proof.
  intros [Hid [Hkey Hact]] E Hnew. unfold shift_create in E.
  destruct (existsb _ (shifts st)) eqn:Ex; [discriminate|].
  injection E as <- <-. unfold with_shifts. simpl shifts.
  split; [|split].
  - apply NoDup_map_snoc; [exact Hid|]. apply next_id_fresh.
  - apply NoDup_map_snoc; [exact Hkey|]. simpl. intros Hin.
    apply in_map_iff in Hin as [x [Hx Hin]]. injection Hx as E1 E2.
    assert (Hc : existsb (fun s => (sh_driverId s =? d) && (sh_shiftDate s =? date))
                   (shifts st) = true).
    { apply existsb_exists. exists x. rewrite E1, E2, !Z.eqb_refl. auto. }
    congruence.
  - assert (Hold : forall y, In y (shifts st) -> sh_status y = ShiftStatus.active ->
                   sh_driverId y = d -> status = ShiftStatus.active -> False).
    { intros y Hy Ay Dy As. pose proof (find_none _ _ (Hnew As) y Hy) as H.
      simpl in H. rewrite Dy, Ay, Z.eqb_refl in H. discriminate. }
    intros s1 s2 H1 H2 A1 A2 Hd.
    apply in_app_iff in H1, H2.
    destruct H1 as [H1|[<-|[]]], H2 as [H2|[<-|[]]]; auto;
      simpl in *; exfalso; eauto.
Qed.

Lemma shift_update_keeps_ok (st : Store) (id : Z) (f : Shift -> Shift)
    (s : Shift) (st' : Store) :
  shift_keys_ok st -> shift_update id f st = Ok s st' ->
  (forall x, sh_id (f x) = sh_id x /\ sh_driverId (f x) = sh_driverId x /\
             sh_shiftDate (f x) = sh_shiftDate x) ->
  (forall x y, In x (shifts st) -> In y (shifts st) -> sh_id x = id ->
     sh_id y <> id -> sh_status (f x) = ShiftStatus.active ->
     sh_status y = ShiftStatus.active -> sh_driverId x <> sh_driverId y) ->
  shift_keys_ok st'.
Proof.
  intros [Hid [Hkey Hact]] E Hf Hsep.
  cbv [shift_update bind reads] in E.
  destruct (find_shift st id) as [s0|]; [|discriminate].
  cbv [modify ret] in E. injection E as _ <-. unfold shift_keys_ok, with_shifts.
  simpl shifts.
  split; [|split].
  - rewrite map_update_rows_same; [exact Hid|]. intros x _. apply Hf.
  - rewrite map_update_rows_same; [exact Hkey|].
    intros x _. destruct (Hf x) as [_ [-> ->]]. reflexivity.
  - unfold update_rows. intros s1 s2 H1 H2.
    apply in_map_iff in H1 as [x [<- Hx]], H2 as [y [<- Hy]].
    destruct (Z.eqb_spec (sh_id x) id) as [Ex|Ex],
             (Z.eqb_spec (sh_id y) id) as [Ey|Ey]; intros A1 A2 Hd.
    + assert (x = y) by (apply (NoDup_map_inj sh_id (shifts st)); auto; congruence).
      subst. reflexivity.
    + exfalso. apply (Hsep x y); auto. destruct (Hf x) as [_ [Hdx _]]. congruence.
    + exfalso. apply (Hsep y x); auto. destruct (Hf y) as [_ [Hdy _]]. congruence.
    + apply Hact; auto.
Qed.

Lemma shift_schedule_keeps_ok (st : Store) (d t : Z) (s : Shift) (st' : Store) :
  shift_keys_ok st -> shift_schedule d t st = Ok s st' -> shift_keys_ok st'.
Proof.
  intros Hok E. unfold shift_schedule in E.
  cbv [bind reads find_or throw_if ret throw] in E.
  destruct (find_driver st d); [|discriminate]. cbv beta iota zeta in E.
  destruct (find_shift_for st d (midnight t)); [discriminate|].
  apply (shift_create_keeps_ok _ _ _ _ _ _ _ _ Hok E). discriminate.
Qed.

Lemma shift_start_keeps_ok (st : Store) (d now : Z) (s : Shift) (st' : Store) :
  shift_keys_ok st -> shift_start d now st = Ok s st' -> shift_keys_ok st'.
Proof.
  intros Hok E. unfold shift_start in E.
  cbv [bind reads find_or throw_if ret throw] in E.
  destruct (find_driver st d); [|discriminate]. cbv beta iota zeta in E.
  destruct (find_active_shift st d) eqn:Ha; [discriminate|].
  cbv beta iota zeta in E.
  destruct (find_allocation_for st d (midnight now)); [|discriminate].
  cbv beta iota zeta in E.
  destruct (find_shift_for st d (midnight now)) as [sc|] eqn:Hsc.
  - apply (shift_update_keeps_ok _ _ _ _ _ Hok E).
    + intros x. simpl. auto.
    + intros x y Hx Hy Ex Ey Ax Ay Hd.
      unfold find_shift_for in Hsc. apply find_some in Hsc as [Hsc_in Hp].
      apply andb_prop in Hp as [Hpd _]. apply Z.eqb_eq in Hpd.
      assert (x = sc) by
        (apply (NoDup_map_inj sh_id (shifts st)); [apply Hok|auto|auto|congruence]).
      subst x. pose proof (find_none _ _ Ha y Hy) as H. simpl in H.
      rewrite <- Hd, Hpd, Z.eqb_refl, Ay in H. discriminate.
  - apply (shift_create_keeps_ok _ _ _ _ _ _ _ _ Hok E). intros _. exact Ha.
Qed.

Lemma shift_end_keeps_ok (st : Store) (id d now : Z) (s : Shift) (st' : Store) :
  shift_keys_ok st -> shift_end id d now st = Ok s st' -> shift_keys_ok st'.
Proof.
  intros Hok E. unfold shift_end, shift_getById in E.
  cbv [bind reads find_or throw_if ret throw] in E.
  destruct (find_shift st id); [|discriminate]. cbv beta iota zeta in E.
  destruct (negb _); [discriminate|]. cbv beta iota zeta in E.
  destruct (negb _); [discriminate|]. cbv beta iota zeta in E.
  destruct (Nat.ltb _ _); [discriminate|]. cbv beta iota zeta in E.
  apply (shift_update_keeps_ok _ _ _ _ _ Hok E).
  - intros x. simpl. auto.
  - intros x y _ _ _ _ Ax. discriminate.
Qed.

Lemma step_keeps_shift_keys (st : Store) (req : Op * Z) :
  shift_keys_ok st -> shift_keys_ok (step st req).
Proof.
  destruct req as [op now]. unfold step. simpl fst. simpl snd.
  destruct (exec op now st) as [u st'|e] eqn:E; [|auto].
  intros Hok.
  destruct ks_other_services as [Ka [Km [Kr [Kc [Kas [Kso [Kco [Kf Kg]]]]]]]].
  assert (Hk : forall A (m : M A), keeps_shifts m ->
                 (m;;; ret tt) st = Ok u st' -> shift_keys_ok st').
  { intros A m Hm Em. apply ks_bind in Em; [|exact Hm|intros; apply ks_ret].
    unfold shift_keys_ok. rewrite Em. exact Hok. }
  assert (Hs : forall A (m : M A), (forall a st1, m st = Ok a st1 -> shift_keys_ok st1) ->
                 (m;;; ret tt) st = Ok u st' -> shift_keys_ok st').
  { intros A m Hm Em. unfold bind in Em. destruct (m st) as [a st1|] eqn:E1;
      [|discriminate]. injection Em as _ <-. exact (Hm a st1 eq_refl). }
  destruct op; cbv [exec] in E.
  - exact (Hk _ _ (Ka _ _ _ _) E).
  - exact (Hk _ _ (Km _ _ _) E).
  - unfold shift_keys_ok. rewrite (Kr _ _ _ _ E). exact Hok.
  - apply (Hs _ _ (fun a st1 H => shift_schedule_keeps_ok _ _ _ _ _ Hok H) E).
  - apply (Hs _ _ (fun a st1 H => shift_start_keeps_ok _ _ _ _ _ Hok H) E).
  - apply (Hs _ _ (fun a st1 H => shift_end_keeps_ok _ _ _ _ _ _ Hok H) E).
  - exact (Hk _ _ (Kc _ _) E).
  - exact (Hk _ _ (Kas _ _ _ _) E).
  - exact (Hk _ _ (Kso _ _) E).
  - exact (Hk _ _ (Kco _ _ _) E).
  - exact (Hk _ _ (Kf _ _ _ _) E).
  - exact (Hk _ _ (Kg _ _ _ _ _) E).
Qed.

(** X3. From any store whose shifts have distinct ids, distinct
    (driverId, shiftDate) pairs and at most one active shift per driver,
    every sequence of requests keeps all three.  In particular no request
    ever gives a driver a second active shift. *)
Theorem run_keeps_shift_keys (reqs : list (Op * Z)) (st : Store) :
  shift_keys_ok st -> shift_keys_ok (run reqs st).
Proof.
  unfold run. revert st.
  induction reqs as [|r reqs IH]; simpl; intros st H; [exact H|].
  apply IH. apply step_keeps_shift_keys. exact H.
Qed.

Lemma run_keeps_shift_keys_witness :
  shift_keys_ok fleet /\
  shift_keys_ok (run [(OpAllocate 1 1 (day 10), day 9);
                      (OpScheduleShift 1 (day 10), day 9);
                      (OpStartShift 1, day 10 + 1000);
                      (OpStartShift 1, day 10 + 2000)] fleet).
Proof.
  split; [split; [constructor|]; split; [constructor|]; intros s1 s2 []|].
  apply run_keeps_shift_keys.
  split; [constructor|]. split; [constructor|]. intros s1 s2 [].
Defined.

(* ------------------------------------------------------------------ *)
(** ** Orders: assignment, start and completion in sequence *)

Lemma shift_end_result (st : Store) (sid d now : Z) (s : Shift) :
  find_shift st sid = Some s -> sh_driverId s = d ->
  sh_status s = ShiftStatus.active ->
  shift_end sid d now st =
  let inc := filter (blocks_shift_end d (sh_shiftDate s)) (orders st) in
  if Nat.ltb 0 (List.length inc)
  then Err (BadRequestError (MsgIncompleteOrders (List.length inc) (map o_id inc)))
  else Ok (mkShift (sh_id s) (sh_driverId s) (sh_vehicleAllocationId s)
             (sh_shiftDate s) ShiftStatus.completed (sh_startTime s) (Some now))
          (with_shifts st (update_rows sh_id sid
             (fun x => mkShift (sh_id x) (sh_driverId x) (sh_vehicleAllocationId x)
                (sh_shiftDate x) ShiftStatus.completed (sh_startTime x) (Some now))
             (shifts st))).
Proof.
  intros Hs <- Ha.
  cbv [shift_end shift_getById bind reads find_or throw_if ret throw].
  rewrite Hs, Ha, Z.eqb_refl. simpl.
  destruct (Nat.ltb 0 _); [reflexivity|].
  rewrite (shift_update_effect st sid _ s Hs). reflexivity.
Qed.

Lemma order_assign_effect (st : Store) (id d now : Z) (t : option Z)
    (o : Order) (st1 : Store) :
  order_assign id d t now st = Ok o st1 ->
  exists o0, find_order st id = Some o0 /\ o_id o = id /\ In o (orders st1) /\
    o = mkOrder (o_id o0) (o_destinationId o0) (o_productId o0) (o_quantity o0)
          OrderStatus.assigned (Some d)
          (Some (midnight (match t with Some t => t | None => now end))) /\
    shifts st1 = shifts st.
Proof.
  cbv [order_assign order_getById order_update bind reads find_or throw_if
       modify ret throw].
  destruct (find_order st id) as [o0|] eqn:Ho; [|discriminate].
  destruct (_ && _); [discriminate|].
  destruct (find_driver st d); [|discriminate].
  rewrite Ho. intros H. injection H as <- <-.
  pose proof Ho as Ho'. unfold find_order in Ho'.
  apply find_some in Ho' as [Hin Hid]. apply Z.eqb_eq in Hid.
  exists o0. split; [first [exact Ho | reflexivity]|].
  simpl. split; [exact Hid|]. split; [|split; reflexivity].
  unfold update_rows. apply in_map_iff. exists o0. rewrite Hid, Z.eqb_refl.
  auto.
Qed.

(** X4. Once [assign] has given an order to driver [d] for a day, [end]
    refuses that driver's active shift of the same day with BadRequest,
    listing the order among the incomplete ones. *)
Theorem assign_blocks_endShift (st st1 : Store) (id d now now' sid : Z)
    (t : option Z) (o : Order) (s : Shift) :
  order_assign id d t now st = Ok o st1 ->
  find_shift st1 sid = Some s -> sh_driverId s = d ->
  sh_status s = ShiftStatus.active ->
  sh_shiftDate s = midnight (match t with Some t => t | None => now end) ->
  exists ids,
    shift_end sid d now' st1 =
      Err (BadRequestError (MsgIncompleteOrders (List.length ids) ids)) /\
    In id ids.
Proof.
  intros E Hs Hd Ha Hdate.
  destruct (order_assign_effect st id d now t o st1 E)
    as [o0 [_ [Hid [Hin [Ho _]]]]].
  rewrite (shift_end_result st1 sid d now' s Hs Hd Ha). cbv zeta.
  assert (Hinc : In o (filter (blocks_shift_end d (sh_shiftDate s)) (orders st1))).
  { apply filter_In. split; [exact Hin|].
    apply blocks_shift_end_iff. rewrite Ho. simpl. rewrite Hdate. auto. }
  destruct (filter _ (orders st1)) as [|x l] eqn:Ef; [contradiction|].
  simpl. exists (map o_id (x :: l)). split.
  - rewrite length_map. reflexivity.
  - rewrite <- Hid. apply in_map. exact Hinc.
Qed.

Lemma assign_blocks_endShift_witness :
  let st := run [(OpAllocate 1 1 (day 10), day 9);
                 (OpCreateOrder (mkOrderInput 3 1 100 None None), day 9);
                 (OpStartShift 1, day 10 + 1000)] fleet in
  exists st1 o, order_assign 1 1 (Some (day 10 + 5000)) (day 10 + 2000) st = Ok o st1 /\
  exists ids,
    shift_end 1 1 (day 10 + 9000) st1 =
      Err (BadRequestError (MsgIncompleteOrders (List.length ids) ids)) /\
    In 1 ids.
Proof.
  intros st.
  eexists. eexists. split; [vm_compute; reflexivity|].
  eapply (assign_blocks_endShift st _ 1 1 (day 10 + 2000) (day 10 + 9000) 1
            (Some (day 10 + 5000))).
  - vm_compute. reflexivity.
  - vm_compute. reflexivity.
  - reflexivity.
  - reflexivity.
  - vm_compute. reflexivity.
Defined.

Lemma completeOrder_ok (st : Store) (id d now : Z) (o : Order) (sh : Shift)
    (a : OrderAttempt) :
  find_order st id = Some o -> o_assignedDriverId o = Some d ->
  o_status o = OrderStatus.in_progress ->
  find_active_shift st d = Some sh -> find_open_attempt st id (sh_id sh) = Some a ->
  exists st',
    order_completeOrder id d now st
      = Ok (set_order_status OrderStatus.completed o) st' /\
    inventory_quantity st' (o_destinationId o) (o_productId o)
      = inventory_quantity st (o_destinationId o) (o_productId o) + o_quantity o.
Proof.
  intros Ho Hdrv Hst Hact Hatt.
  pose proof Hatt as Ha'. unfold find_open_attempt in Ha'.
  apply find_some in Ha' as [Ha _].
  destruct (find_In_exists (fun x => at_id x =? at_id a) (orderAttempts st) a Ha
              (Z.eqb_refl _)) as [a0 Ha0].
  cbv [order_completeOrder order_getById bind reads find_or ret throw_if throw
       transaction].
  rewrite Ho, Hdrv, Hst. unfold opt_eqb. rewrite Z.eqb_refl. simpl.
  rewrite Hact, Hatt.
  rewrite (order_update_effect st id _ o Ho).
  rewrite (attempt_update_effect
             (with_orders st (update_rows o_id id
                (set_order_status OrderStatus.completed) (orders st)))
             (at_id a) _ a0 Ha0).
  set (st1 := with_attempts _ _).
  destruct (inventory_upsert_increment_effect st1 (o_destinationId o)
              (o_productId o) (o_quantity o))
    as [st' [Hup [Hq _]]].
  rewrite Hup. exists st'. split; [reflexivity|].
  rewrite Hq. reflexivity.
Qed.

Lemma startOrder_effect (st : Store) (id d : Z) (o : Order) (st1 : Store) :
  order_startOrder id d st = Ok o st1 ->
  exists o0 sh,
    find_order st id = Some o0 /\ o_assignedDriverId o0 = Some d /\
    find_active_shift st d = Some sh /\
    o = set_order_status OrderStatus.in_progress o0 /\
    st1 = with_attempts
            (with_orders st (update_rows o_id id
               (set_order_status OrderStatus.in_progress) (orders st)))
            (orderAttempts st ++
               [mkAttempt (next_id (map at_id (orderAttempts st))) id (sh_id sh)
                  AttemptStatus.in_progress None None]).
Proof.
  cbv [order_startOrder order_getById bind reads find_or throw_if ret throw
       transaction].
  destruct (find_order st id) as [o0|] eqn:Ho; [|discriminate].
  destruct (negb (opt_eqb _ _)) eqn:E1; [discriminate|].
  destruct (negb (OrderStatus.eqb _ _)); [discriminate|].
  destruct (find_active_shift st d) as [sh|] eqn:Ha; [|discriminate].
  rewrite (order_update_effect st id _ o0 Ho).
  unfold attempt_create. intros H. injection H as <- <-.
  exists o0, sh. split; [reflexivity|]. split.
  - destruct (o_assignedDriverId o0) as [x|]; simpl in E1; [|discriminate].
    apply negb_false_iff, Z.eqb_eq in E1. subst. reflexivity.
  - auto.
Qed.

(** X5. An order that [startOrder] has just started can be completed at
    once by the same driver: [completeOrder] succeeds and raises the
    destination's stock of the product by the order's quantity. *)
Theorem startOrder_then_completeOrder (st st1 : Store) (id d now : Z)
    (o : Order) :
  order_startOrder id d st = Ok o st1 ->
  exists st2,
    order_completeOrder id d now st1
      = Ok (set_order_status OrderStatus.completed o) st2 /\
    inventory_quantity st2 (o_destinationId o) (o_productId o)
      = inventory_quantity st (o_destinationId o) (o_productId o) + o_quantity o.
Proof.
  intros E.
  destruct (startOrder_effect st id d o st1 E)
    as [o0 [sh [Ho [Hdrv [Hact [-> ->]]]]]].
  set (a := mkAttempt (next_id (map at_id (orderAttempts st))) id (sh_id sh)
              AttemptStatus.in_progress None None).
  set (st1 := with_attempts _ _).
  assert (Hfo : find_order st1 id
                = Some (set_order_status OrderStatus.in_progress o0)).
  { unfold st1, find_order, with_attempts, with_orders. simpl.
    unfold update_rows. rewrite find_map_update; [|intros x Hx; exact Hx].
    unfold find_order in Ho. rewrite Ho. reflexivity. }
  assert (Hfa : find_active_shift st1 d = Some sh) by exact Hact.
  destruct (find_In_exists
              (fun x => (at_orderId x =? id) && (at_shiftId x =? sh_id sh)
                        && AttemptStatus.eqb (at_status x) AttemptStatus.in_progress)
              (orderAttempts st1) a)
    as [a' Ha'].
  { unfold st1. simpl. apply in_app_iff. right. left. reflexivity. }
  { simpl. rewrite !Z.eqb_refl. reflexivity. }
  destruct (completeOrder_ok st1 id d now _ sh a' Hfo Hdrv eq_refl Hfa Ha')
    as [st2 [Hc Hq]].
  exists st2. split; [exact Hc|]. rewrite Hq. reflexivity.
Qed.

Lemma startOrder_then_completeOrder_witness :
  let st := run [(OpAllocate 1 1 (day 10), day 9);
                 (OpCreateOrder (mkOrderInput 3 1 100 (Some 1) (Some (day 10))),
                  day 9);
                 (OpStartShift 1, day 10 + 1000)] fleet in
  exists o st1, order_startOrder 1 1 st = Ok o st1 /\
  exists st2,
    order_completeOrder 1 1 (day 10 + 5000) st1
      = Ok (set_order_status OrderStatus.completed o) st2 /\
    inventory_quantity st2 (o_destinationId o) (o_productId o)
      = inventory_quantity st (o_destinationId o) (o_productId o) + o_quantity o.
Proof.
  intros st. eexists. eexists. split; [vm_compute; reflexivity|].
  apply (startOrder_then_completeOrder st). vm_compute. reflexivity.
Defined.

Lemma find_filter_other {A} (key : A -> Z) (id id' : Z) (l : list A) :
  id' <> id ->
  find (fun x => key x =? id') (filter (fun x => negb (key x =? id)) l) =
  find (fun x => key x =? id') l.
Proof.
  intros Hne. induction l as [|x l IH]; simpl; [reflexivity|].
  destruct (Z.eqb_spec (key x) id) as [E|E]; simpl.
  - rewrite IH. destruct (Z.eqb_spec (key x) id'); [congruence|reflexivity].
  - destruct (key x =? id'); [reflexivity|exact IH].
Qed.

Lemma find_filter_self {A} (key : A -> Z) (id : Z) (l : list A) :
  find (fun x => key x =? id) (filter (fun x => negb (key x =? id)) l) = None.
Proof.
  induction l as [|x l IH]; simpl; [reflexivity|].
  destruct (key x =? id) eqn:E; simpl; [exact IH|]. rewrite E. exact IH.
Qed.

(** X6. [remove] on an order: NotFound when there is none; Conflict naming
    the status when it is not [pending]; when it is [pending] and no
    attempt refers to it, exactly that order is deleted: [getById] on it
    then fails NotFound, every other order is found as before, and no other
    table changes. *)
Theorem order_remove_outcomes (st : Store) (id : Z) :
  (find_order st id = None ->
   order_remove id st = Err (NotFoundError (MsgNotFound "Order" id))) /\
  (forall o, find_order st id = Some o -> o_status o <> OrderStatus.pending ->
   order_remove id st =
     Err (ConflictError (MsgText ("Cannot delete order: status is '"
            ++ order_status_name (o_status o)
            ++ "'. Only pending orders can be deleted.")))) /\
  (forall o, find_order st id = Some o -> o_status o = OrderStatus.pending ->
   (forall a, In a (orderAttempts st) -> at_orderId a <> id) ->
   exists st',
     order_remove id st = Ok tt st' /\
     order_getById id st' = Err (NotFoundError (MsgNotFound "Order" id)) /\
     (forall id', id' <> id -> find_order st' id' = find_order st id') /\
     st' = with_orders st (orders st')).
Proof.
  split; [|split].
  - intros Hn. cbv [order_remove order_getById bind reads find_or throw].
    rewrite Hn. reflexivity.
  - intros o Ho Hs.
    cbv [order_remove order_getById bind reads find_or throw_if ret throw].
    rewrite Ho. destruct (o_status o); try reflexivity. congruence.
  - intros o Ho Hs Hna.
    assert (Hx : existsb (fun a => at_orderId a =? id) (orderAttempts st) = false).
    { apply not_true_iff_false. intros H. apply existsb_exists in H as [a [Ha Hp]].
      apply Z.eqb_eq in Hp. exact (Hna a Ha Hp). }
    eexists. split.
    + cbv [order_remove order_getById bind reads find_or throw_if ret throw
           order_delete].
      rewrite Ho, Hs. simpl. rewrite Ho, Hx. reflexivity.
    + split; [|split; [|reflexivity]].
      * cbv [order_getById bind reads find_or throw find_order with_orders].
        simpl. rewrite find_filter_self. reflexivity.
      * intros id' Hne. unfold find_order, with_orders. simpl.
        apply find_filter_other. exact Hne.
Qed.

Lemma order_remove_outcomes_witness :
  let st := run [(OpCreateOrder (mkOrderInput 3 1 100 None None), day 9)] fleet in
  exists o, find_order st 1 = Some o /\
  exists st',
     order_remove 1 st = Ok tt st' /\
     order_getById 1 st' = Err (NotFoundError (MsgNotFound "Order" 1)) /\
     (forall id', id' <> 1 -> find_order st' id' = find_order st id') /\
     st' = with_orders st (orders st').
Proof.
  intros st. eexists. split; [vm_compute; reflexivity|].
  eapply (proj2 (proj2 (order_remove_outcomes st 1))).
  - vm_compute. reflexivity.
  - vm_compute. reflexivity.
  - intros a Ha. vm_compute in Ha. destruct Ha.
Defined.

Lemma order_service_update_status (st : Store) (id : Z) (o : Order)
    (s : OrderStatus.t) :
  find_order st id = Some o ->
  order_service_update id (status_change s) st =
    Ok (set_order_status s o)
       (with_orders st (update_rows o_id id (set_order_status s) (orders st))).
Proof.
  intros Ho. cbv [order_service_update order_getById bind reads find_or
                  throw_if ret throw].
  rewrite Ho. simpl. rewrite (order_update_effect st id _ o Ho). reflexivity.
Qed.

(** X7. [PUT /orders/:id] checks no transition: from any status, including
    [completed] and [failed], it sets any of the five statuses, and it
    changes neither the attempts, the stock, the shifts nor the
    allocations. *)
Theorem order_update_any_status (st : Store) (id : Z) (o : Order)
    (s : OrderStatus.t) :
  find_order st id = Some o ->
  exists st',
    order_service_update id (mkOrderChanges None None None (Some s)) st
      = Ok (set_order_status s o) st' /\
    find_order st' id = Some (set_order_status s o) /\
    orderAttempts st' = orderAttempts st /\ inventory st' = inventory st /\
    shifts st' = shifts st /\ vehicleAllocations st' = vehicleAllocations st.
Proof.
  intros Ho. eexists. split; [apply (order_service_update_status st id o s Ho)|].
  split; [|repeat split].
  unfold find_order, with_orders. simpl. unfold update_rows.
  rewrite find_map_update; [|intros x Hx; exact Hx].
  unfold find_order in Ho. rewrite Ho. reflexivity.
Qed.

Lemma order_update_any_status_witness :
  let st := run [(OpAllocate 1 1 (day 10), day 9);
                 (OpCreateOrder (mkOrderInput 3 1 100 (Some 1) (Some (day 10))),
                  day 9);
                 (OpStartShift 1, day 10 + 1000);
                 (OpStartOrder 1 1, day 10 + 2000);
                 (OpCompleteOrder 1 1, day 10 + 3000)] fleet in
  exists o, find_order st 1 = Some o /\ o_status o = OrderStatus.completed /\
  exists st',
    order_service_update 1 (mkOrderChanges None None None (Some OrderStatus.pending)) st
      = Ok (set_order_status OrderStatus.pending o) st' /\
    find_order st' 1 = Some (set_order_status OrderStatus.pending o) /\
    orderAttempts st' = orderAttempts st /\ inventory st' = inventory st /\
    shifts st' = shifts st /\ vehicleAllocations st' = vehicleAllocations st.
Proof.
  intros st. eexists. split; [vm_compute; reflexivity|]. split; [reflexivity|].
  apply order_update_any_status. vm_compute. reflexivity.
Defined.



Lemma startOrder_ok (st : Store) (id d : Z) (o : Order) (sh : Shift) :
  find_order st id = Some o -> o_assignedDriverId o = Some d ->
  o_status o = OrderStatus.assigned -> find_active_shift st d = Some sh ->
  order_startOrder id d st =
    Ok (set_order_status OrderStatus.in_progress o)
       (with_attempts
          (with_orders st (update_rows o_id id
             (set_order_status OrderStatus.in_progress) (orders st)))
          (orderAttempts st ++
             [mkAttempt (next_id (map at_id (orderAttempts st))) id (sh_id sh)
                AttemptStatus.in_progress None None])).
Proof.
  intros Ho Hd Hs Ha.
  cbv [order_startOrder order_getById bind reads find_or throw_if ret throw
       transaction].
  rewrite Ho, Hd, Hs. unfold opt_eqb. rewrite Z.eqb_refl. simpl. rewrite Ha.
  rewrite (order_update_effect st id _ o Ho). reflexivity.
Qed.

Lemma find_order_update (st : Store) (id : Z) (o : Order) (f : Order -> Order) :
  find_order st id = Some o -> o_id (f o) = o_id o ->
  (forall x, o_id (f x) = o_id x) ->
  find_order (with_orders st (update_rows o_id id f (orders st))) id = Some (f o).
Proof.
  intros Ho _ Hf. unfold find_order, with_orders. simpl. unfold update_rows.
  rewrite find_map_update; [|intros x Hx; rewrite Hf; exact Hx].
  unfold find_order in Ho. rewrite Ho. reflexivity.
Qed.

(** X8. Completion is not final for the stock: an order that is
    [completed], put back to [assigned] through [PUT /orders/:id], can be
    started and completed again by its driver while the driver has an
    active shift, and the destination's stock is raised by the order's
    quantity a second time. *)
Theorem completed_order_credited_again (st : Store) (id d now : Z) (o : Order)
    (sh : Shift) :
  find_order st id = Some o -> o_status o = OrderStatus.completed ->
  o_assignedDriverId o = Some d -> find_active_shift st d = Some sh ->
  exists o1 o2 o3 st1 st2 st3,
    order_service_update id (mkOrderChanges None None None
                               (Some OrderStatus.assigned)) st = Ok o1 st1 /\
    order_startOrder id d st1 = Ok o2 st2 /\
    order_completeOrder id d now st2 = Ok o3 st3 /\
    o_status o3 = OrderStatus.completed /\
    inventory_quantity st3 (o_destinationId o) (o_productId o)
      = inventory_quantity st (o_destinationId o) (o_productId o) + o_quantity o.
Proof.
  intros Ho _ Hd Ha.
  pose proof (order_service_update_status st id o OrderStatus.assigned Ho) as E1.
  set (st1 := with_orders st _) in E1.
  assert (Ho1 : find_order st1 id = Some (set_order_status OrderStatus.assigned o))
    by (apply find_order_update; auto).
  pose proof (startOrder_ok st1 id d _ sh Ho1 Hd eq_refl Ha) as E2.
  set (a := mkAttempt _ id (sh_id sh) AttemptStatus.in_progress None None) in E2.
  set (st2 := with_attempts _ _) in E2.
  assert (Ho2 : find_order st2 id =
                Some (set_order_status OrderStatus.in_progress
                        (set_order_status OrderStatus.assigned o)))
    by (apply find_order_update; auto).
  assert (Ha2 : find_active_shift st2 d = Some sh) by exact Ha.
  destruct (find_In_exists
              (fun x => (at_orderId x =? id) && (at_shiftId x =? sh_id sh)
                        && AttemptStatus.eqb (at_status x) AttemptStatus.in_progress)
              (orderAttempts st2) a)
    as [a' Ha'].
  { unfold st2. simpl. apply in_app_iff. right. left. reflexivity. }
  { simpl. rewrite !Z.eqb_refl. reflexivity. }
  destruct (completeOrder_ok st2 id d now _ sh a' Ho2 Hd eq_refl Ha2 Ha')
    as [st3 [E3 Hq]].
  do 6 eexists. split; [exact E1|]. split; [exact E2|]. split; [exact E3|].
  split; [reflexivity|]. simpl in Hq. rewrite Hq. reflexivity.
Qed.

Lemma completed_order_credited_again_witness :
  let st := run [(OpAllocate 1 1 (day 10), day 9);
                 (OpCreateOrder (mkOrderInput 3 1 100 (Some 1) (Some (day 10))),
                  day 9);
                 (OpStartShift 1, day 10 + 1000);
                 (OpStartOrder 1 1, day 10 + 2000);
                 (OpCompleteOrder 1 1, day 10 + 3000)] fleet in
  inventory_quantity st 3 1 = 100 /\
  exists o1 o2 o3 st1 st2 st3,
    order_service_update 1 (mkOrderChanges None None None
                              (Some OrderStatus.assigned)) st = Ok o1 st1 /\
    order_startOrder 1 1 st1 = Ok o2 st2 /\
    order_completeOrder 1 1 (day 10 + 4000) st2 = Ok o3 st3 /\
    o_status o3 = OrderStatus.completed /\
    inventory_quantity st3 3 1 = inventory_quantity st 3 1 + 100.
Proof.
  intros st. split; [vm_compute; reflexivity|].
  apply (completed_order_credited_again st 1 1 (day 10 + 4000)
           (mkOrder 1 3 1 100 OrderStatus.completed (Some 1) (Some (day 10)))
           (mkShift 1 1 (Some 1) (day 10) ShiftStatus.active (Some (day 10 + 1000))
              None)).
  - vm_compute. reflexivity.
  - reflexivity.
  - reflexivity.
  - vm_compute. reflexivity.
Defined.

(* ------------------------------------------------------------------ *)
(** ** GPS history *)

Lemma gps_create_effect (st st' : Store) (v lat lon now : Z) (r : option Z)
    (g : GpsLocation) :
  gps_create v lat lon r now st = Ok g st' ->
  exists s, In s (shifts st) /\ shift_drives_vehicle st v s = true /\
    find_vehicle st v <> None /\
    g = mkGps (next_id (map gps_id (gpsLocations st))) v (Some (sh_id s)) lat lon
          (match r with Some t => t | None => now end) /\
    st' = with_gps st (gpsLocations st ++ [g]).
Proof.
  cbv [gps_create bind reads find_or ret throw].
  destruct (find_vehicle st v) eqn:Hv; [|discriminate].
  destruct (find (shift_drives_vehicle st v) (shifts st)) as [s|] eqn:Hs;
    [|discriminate].
  intros H. injection H as <- <-. apply find_some in Hs as [Hin Hd].
  exists s. repeat split; auto. congruence.
Qed.

Lemma latest_first_sorted (l : list GpsLocation) :
  Sorted (fun a b => gps_recordedAt b <= gps_recordedAt a) (sort_by latest_first l).
Proof.
  apply sort_by_sorted.
  - intros a b H. apply Z.leb_le. exact H.
  - intros a b H. unfold latest_first in H. apply Z.leb_gt in H. lia.
Qed.

(** X9. A ping that [POST /gps] records for vehicle [v] is in [v]'s GPS
    history afterwards, for every [from]/[to] window containing its
    [recordedAt]; the history holds only [v]'s pings inside the window,
    newest first. *)
Theorem gps_create_then_getByVehicle (st st' : Store) (v lat lon now : Z)
    (r : option Z) (g : GpsLocation) (from to : option Z) :
  gps_create v lat lon r now st = Ok g st' ->
  in_range from to (gps_recordedAt g) = true ->
  exists l, gps_getByVehicle v from to st' = Ok l st' /\ In g l /\
    (forall x, In x l -> In x (gpsLocations st') /\ gps_vehicleId x = v /\
                         in_range from to (gps_recordedAt x) = true) /\
    Sorted (fun a b => gps_recordedAt b <= gps_recordedAt a) l.
Proof.
  intros E Hr. pose proof (gps_create_effect st st' v lat lon now r g E)
    as [s [_ [_ [Hv [Hg Hst']]]]].
  assert (Hv' : exists veh, find_vehicle st' v = Some veh).
  { rewrite Hst'. destruct (find_vehicle st v) as [veh|] eqn:E0;
      [|contradiction]. exists veh. exact E0. }
  destruct Hv' as [veh Hveh].
  eexists. split.
  - cbv [gps_getByVehicle bind reads find_or ret]. rewrite Hveh. reflexivity.
  - split; [|split; [|apply latest_first_sorted]].
    + apply sort_by_In, filter_In. split.
      * rewrite Hst'. simpl. apply in_app_iff. right. left. reflexivity.
      * rewrite Hr, andb_true_r. rewrite Hg. simpl. apply Z.eqb_refl.
    + intros x Hx. apply sort_by_In, filter_In in Hx as [Hin Hp].
      apply andb_prop in Hp as [H1 H2]. apply Z.eqb_eq in H1. auto.
Qed.

Lemma gps_create_then_getByVehicle_witness :
  let st := run [(OpAllocate 1 1 (day 10), day 9);
                 (OpStartShift 1, day 10 + 1000)] fleet in
  exists g st', gps_create 1 30 40 None (day 10 + 2000) st = Ok g st' /\
  exists l, gps_getByVehicle 1 (Some (day 10)) None st' = Ok l st' /\ In g l /\
    (forall x, In x l -> In x (gpsLocations st') /\ gps_vehicleId x = 1 /\
                         in_range (Some (day 10)) None (gps_recordedAt x) = true) /\
    Sorted (fun a b => gps_recordedAt b <= gps_recordedAt a) l.
Proof.
  intros st. eexists. eexists. split; [vm_compute; reflexivity|].
  eapply (gps_create_then_getByVehicle st _ 1 30 40 (day 10 + 2000) None).
  - vm_compute. reflexivity.
  - vm_compute. reflexivity.
Defined.

(** X10. A ping that [POST /gps] records is stamped with an active shift
    driving the vehicle, and it is in the GPS history of that shift's
    driver (when the driver row exists), for every window containing its
    [recordedAt]; that history is newest first. *)
Theorem gps_create_then_getByDriver (st st' : Store) (v lat lon now : Z)
    (r : option Z) (g : GpsLocation) (from to : option Z) :
  gps_create v lat lon r now st = Ok g st' ->
  in_range from to (gps_recordedAt g) = true ->
  exists s, In s (shifts st') /\ sh_status s = ShiftStatus.active /\
    gps_shiftId g = Some (sh_id s) /\
    (find_driver st' (sh_driverId s) <> None ->
     exists l, gps_getByDriver (sh_driverId s) from to st' = Ok l st' /\ In g l /\
       Sorted (fun a b => gps_recordedAt b <= gps_recordedAt a) l).
Proof.
  intros E Hr. pose proof (gps_create_effect st st' v lat lon now r g E)
    as [s [Hs [Hd [_ [Hg Hst']]]]].
  exists s.
  assert (Hs' : In s (shifts st')) by (rewrite Hst'; exact Hs).
  split; [exact Hs'|].
  split.
  { unfold shift_drives_vehicle in Hd. apply andb_prop in Hd as [Ha _].
    apply shift_status_eqb_eq. exact Ha. }
  split; [rewrite Hg; reflexivity|].
  intros Hdrv. destruct (find_driver st' (sh_driverId s)) as [drv|] eqn:Hfd;
    [|contradiction].
  remember (map sh_id (filter (fun x => sh_driverId x =? sh_driverId s)
                        (shifts st'))) as ids eqn:Eids.
  assert (Hid : In (sh_id s) ids).
  { rewrite Eids. apply in_map, filter_In. split; [exact Hs'|].
    apply Z.eqb_refl. }
  exists (sort_by latest_first
            (filter (fun x => match gps_shiftId x with
                              | Some sid => existsb (Z.eqb sid) ids
                              | None => false
                              end && in_range from to (gps_recordedAt x))
               (gpsLocations st'))).
  split.
  - cbv [gps_getByDriver bind reads find_or ret]. rewrite Hfd, <- Eids.
    destruct ids as [|i rest]; [contradiction|]. reflexivity.
  - split; [|apply latest_first_sorted].
    apply sort_by_In, filter_In. split.
    + rewrite Hst'. simpl. apply in_app_iff. right. left. reflexivity.
    + rewrite Hr, andb_true_r. rewrite Hg. simpl.
      apply existsb_exists. exists (sh_id s). split; [|apply Z.eqb_refl].
      exact Hid.
Qed.

Lemma gps_create_then_getByDriver_witness :
  let st := run [(OpAllocate 1 1 (day 10), day 9);
                 (OpStartShift 1, day 10 + 1000)] fleet in
  exists g st', gps_create 1 30 40 None (day 10 + 2000) st = Ok g st' /\
  exists s, In s (shifts st') /\ sh_status s = ShiftStatus.active /\
    gps_shiftId g = Some (sh_id s) /\
    (find_driver st' (sh_driverId s) <> None ->
     exists l, gps_getByDriver (sh_driverId s) None None st' = Ok l st' /\ In g l /\
       Sorted (fun a b => gps_recordedAt b <= gps_recordedAt a) l).
Proof.
  intros st. eexists. eexists. split; [vm_compute; reflexivity|].
  eapply (gps_create_then_getByDriver st _ 1 30 40 (day 10 + 2000) None).
  - vm_compute. reflexivity.
  - reflexivity.
Defined.

(* ------------------------------------------------------------------ *)
(** ** Inventory: [adjust] and [upsert] *)

Lemma find_map_if {A} (f : A -> bool) (g : A -> A) (l : list A) :
  (forall x, f (g x) = f x) ->
  find f (map (fun x => if f x then g x else x) l) = option_map g (find f l).
Proof.
  intros Hg. induction l as [|a l IH]; simpl; [reflexivity|].
  destruct (f a) eqn:Ea; simpl.
  - rewrite Hg, Ea. reflexivity.
  - rewrite Ea. exact IH.
Qed.

Lemma find_map_if_other {A} (f f' : A -> bool) (g : A -> A) (l : list A) :
  (forall x, f' x = true -> f x = false) -> (forall x, f' (g x) = f' x) ->
  find f' (map (fun x => if f x then g x else x) l) = find f' l.
Proof.
  intros Hx Hg. induction l as [|a l IH]; simpl; [reflexivity|].
  destruct (f a) eqn:Ea; simpl.
  - rewrite Hg. destruct (f' a) eqn:E'; [|exact IH].
    apply Hx in E'. congruence.
  - destruct (f' a); [reflexivity|exact IH].
Qed.

Lemma find_app_some {A} (f : A -> bool) (l1 l2 : list A) :
  find f (l1 ++ l2) =
  match find f l1 with Some x => Some x | None => find f l2 end.
Proof.
  induction l1 as [|a l1 IH]; simpl; [reflexivity|].
  destruct (f a); [reflexivity|exact IH].
Qed.

Lemma stock_nonneg_map_if (f : Inventory -> bool) (g : Inventory -> Inventory)
    (st : Store) :
  stock_nonneg st -> (forall x, 0 <= inv_quantity (g x)) ->
  stock_nonneg (with_inventory st
    (map (fun x => if f x then g x else x) (inventory st))).
Proof.
  intros Hn Hg r Hr. simpl in Hr. apply in_map_iff in Hr as [y [<- Hy]].
  destruct (f y); [apply Hg|apply Hn; exact Hy].
Qed.

Lemma inventory_upsert_effect (st st' : Store) (l p q : Z) (r : Inventory) :
  inventory_upsert l p q st = Ok r st' ->
  inv_quantity r = q /\ st' = with_inventory st (inventory st') /\
  ((exists x, find_inventory st l p = Some x /\
     inventory st' = map (fun x => if (inv_locationId x =? l)
                                      && (inv_productId x =? p)
                                   then mkInventory (inv_id x)
                                          (inv_locationId x) (inv_productId x) q
                                   else x) (inventory st)) \/
   (find_inventory st l p = None /\ inventory st' = inventory st ++ [r] /\
    inv_locationId r = l /\ inv_productId r = p)).
Proof.
  intros H. cbv [inventory_upsert bind reads find_or ret throw] in H.
  destruct (find_location st l); [|discriminate].
  destruct (find_product st p); [|discriminate].
  destruct (find_inventory st l p) as [x|] eqn:Ef;
    injection H as <- <-; simpl; (split; [reflexivity|]);
    (split; [reflexivity|]).
  - left. exists x. split; reflexivity.
  - right. repeat split; reflexivity.
Qed.

Lemma inventory_upsert_validated (st : Store) (l p q : Z) :
  0 < l -> 0 < p -> 0 <= q ->
  upsert_inventory l p q st = inventory_upsert l p q st.
Proof.
  intros Hl Hp Hq. unfold upsert_inventory.
  replace (l <=? 0) with false by (symmetry; apply Z.leb_gt; lia).
  replace (p <=? 0) with false by (symmetry; apply Z.leb_gt; lia).
  replace (q <? 0) with false by (symmetry; apply Z.ltb_ge; lia).
  reflexivity.
Qed.

Lemma upsert_inventory_valid (st st' : Store) (l p q : Z) (r : Inventory) :
  upsert_inventory l p q st = Ok r st' ->
  0 < l /\ 0 < p /\ 0 <= q /\ inventory_upsert l p q st = Ok r st'.
Proof.
  intros H. unfold upsert_inventory in H.
  destruct (l <=? 0) eqn:El; [discriminate|].
  destruct (p <=? 0) eqn:Ep; [discriminate|].
  destruct (q <? 0) eqn:Eq; [discriminate|].
  apply Z.leb_gt in El, Ep. apply Z.ltb_ge in Eq.
  repeat split; try lia. exact H.
Qed.

(** X11. [POST /inventory] sets the stock of its (location, product) pair:
    on success the returned row and the pair's stock hold [quantity], every
    other pair keeps its stock, no other table changes, and no stock becomes
    negative. *)
Theorem upsert_inventory_sets_quantity (st st' : Store) (l p q : Z)
    (r : Inventory) :
  upsert_inventory l p q st = Ok r st' ->
  inv_quantity r = q /\ inventory_quantity st' l p = q /\
  (forall l' p', (l', p') <> (l, p) ->
     inventory_quantity st' l' p' = inventory_quantity st l' p') /\
  st' = with_inventory st (inventory st') /\
  (stock_nonneg st -> stock_nonneg st').
Proof.
  intros H. apply upsert_inventory_valid in H as [_ [_ [Hq H]]].
  apply inventory_upsert_effect in H as [Hr [Hst [[x [Ef Hinv]]|[Ef [Hinv [Hl Hp]]]]]].
  - split; [exact Hr|]. split.
    { unfold inventory_quantity, find_inventory. rewrite Hinv, find_map_if
        by reflexivity.
      unfold find_inventory in Ef. rewrite Ef. reflexivity. }
    split.
    { intros l' p' Hne. unfold inventory_quantity, find_inventory.
      rewrite Hinv, find_map_if_other; [reflexivity| |reflexivity].
      intros y Hy. apply andb_prop in Hy as [H1 H2].
      apply Z.eqb_eq in H1, H2.
      destruct (inv_locationId y =? l) eqn:E1; [|reflexivity].
      destruct (inv_productId y =? p) eqn:E2; [|reflexivity].
      apply Z.eqb_eq in E1, E2. exfalso. apply Hne. congruence. }
    split; [exact Hst|].
    intros Hn y Hy. rewrite Hinv in Hy. apply in_map_iff in Hy as [z [<- Hz]].
    destruct (_ && _); [simpl; exact Hq|apply Hn; exact Hz].
  - split; [exact Hr|]. split.
    { unfold inventory_quantity, find_inventory. rewrite Hinv, find_app_some.
      unfold find_inventory in Ef. rewrite Ef. simpl.
      rewrite Hl, Hp, !Z.eqb_refl. simpl. exact Hr. }
    split.
    { intros l' p' Hne. unfold inventory_quantity, find_inventory.
      rewrite Hinv, find_app_some.
      destruct (find _ (inventory st)); [reflexivity|]. simpl.
      rewrite Hl, Hp.
      destruct (l =? l') eqn:E1; [|reflexivity].
      destruct (p =? p') eqn:E2; [|reflexivity].
      apply Z.eqb_eq in E1, E2. exfalso. apply Hne. congruence. }
    split; [exact Hst|].
    intros Hn y Hy. rewrite Hinv in Hy. apply in_app_iff in Hy as [Hy|[<-|[]]].
    + apply Hn. exact Hy.
    + rewrite Hr. exact Hq.
Qed.

Lemma upsert_inventory_sets_quantity_witness :
  exists r st', upsert_inventory 3 1 25 fleet = Ok r st' /\
  (inv_quantity r = 25 /\ inventory_quantity st' 3 1 = 25 /\
   (forall l' p', (l', p') <> (3, 1) ->
      inventory_quantity st' l' p' = inventory_quantity fleet l' p') /\
   st' = with_inventory fleet (inventory st') /\
   (stock_nonneg fleet -> stock_nonneg st')).
Proof.
  eexists. eexists. split; [vm_compute; reflexivity|].
  apply (upsert_inventory_sets_quantity fleet _ 3 1 25).
  vm_compute. reflexivity.
Defined.

(** X12. [adjust(id, adjustment)]: NotFound when there is no stock row
    [id]; a Validation error quoting the would-be quantity when it is
    negative; otherwise row [id] gets quantity [q + adjustment], the other
    rows and tables stay as they were, and no stock becomes negative. *)
Theorem inventory_adjust_outcomes (st : Store) (id adjustment : Z) :
  (find (fun r => inv_id r =? id) (inventory st) = None ->
   inventory_adjust id adjustment st =
     Err (NotFoundError (MsgNotFound "Inventory record" id))) /\
  (forall r, find (fun r => inv_id r =? id) (inventory st) = Some r ->
   inv_quantity r + adjustment < 0 ->
   inventory_adjust id adjustment st =
     Err (ValidationError (MsgText
       ("Cannot adjust: would result in negative quantity ("
        ++ number_string (inv_quantity r + adjustment) ++ ")")))) /\
  (forall r, find (fun r => inv_id r =? id) (inventory st) = Some r ->
   0 <= inv_quantity r + adjustment ->
   let r' := mkInventory id (inv_locationId r) (inv_productId r)
               (inv_quantity r + adjustment) in
   exists st', inventory_adjust id adjustment st = Ok r' st' /\
   st' = with_inventory st (inventory st') /\
   find (fun x => inv_id x =? id) (inventory st') = Some r' /\
   (forall x, inv_id x <> id -> (In x (inventory st') <-> In x (inventory st))) /\
   (stock_nonneg st -> stock_nonneg st')).
Proof.
  cbv [inventory_adjust inventory_getById inventory_set_quantity bind reads
       find_or throw_if ret throw modify].
  split; [|split].
  - intros E. rewrite E. reflexivity.
  - intros r E Hneg. rewrite E.
    replace (inv_quantity r + adjustment <? 0) with true
      by (symmetry; apply Z.ltb_lt; exact Hneg).
    reflexivity.
  - intros r E Hpos. pose proof E as Eid. apply find_some in Eid as [_ Eid].
    apply Z.eqb_eq in Eid. rewrite E.
    replace (inv_quantity r + adjustment <? 0) with false
      by (symmetry; apply Z.ltb_ge; exact Hpos).
    rewrite E. eexists. split; [rewrite Eid; reflexivity|].
    simpl. split; [reflexivity|]. split.
    { unfold update_rows. rewrite find_map_if by reflexivity. rewrite E.
      simpl. rewrite Eid. reflexivity. }
    split.
    { intros x Hx. unfold update_rows. rewrite in_map_iff. split.
      - intros [y [Hy Hin]]. destruct (inv_id y =? id) eqn:Ey.
        + subst x. simpl in Hx. apply Z.eqb_eq in Ey. contradiction.
        + subst y. exact Hin.
      - intros Hin. exists x. split; [|exact Hin].
        apply Z.eqb_neq in Hx. rewrite Hx. reflexivity. }
    intros Hn y Hy. simpl in Hy. unfold update_rows in Hy.
    apply in_map_iff in Hy as [z [<- Hz]].
    destruct (inv_id z =? id); [simpl; exact Hpos|apply Hn; exact Hz].
Qed.

Lemma inventory_adjust_outcomes_witness :
  let st := with_inventory fleet [mkInventory 1 3 1 10] in
  inventory_adjust 1 (-15) st =
    Err (ValidationError (MsgText
      "Cannot adjust: would result in negative quantity (-5)")) /\
  inventory_adjust 2 5 st = Err (NotFoundError (MsgNotFound "Inventory record" 2)) /\
  exists st', inventory_adjust 1 (-4) st = Ok (mkInventory 1 3 1 6) st' /\
   st' = with_inventory st (inventory st') /\
   find (fun x => inv_id x =? 1) (inventory st') = Some (mkInventory 1 3 1 6) /\
   (forall x, inv_id x <> 1 -> (In x (inventory st') <-> In x (inventory st))) /\
   (stock_nonneg st -> stock_nonneg st').
Proof.
  intros st. split; [|split].
  - apply (proj1 (proj2 (inventory_adjust_outcomes st 1 (-15)))
             (mkInventory 1 3 1 10)); [reflexivity|simpl; lia].
  - apply (proj1 (inventory_adjust_outcomes st 2 5)). reflexivity.
  - apply (proj2 (proj2 (inventory_adjust_outcomes st 1 (-4)))
             (mkInventory 1 3 1 10)); [reflexivity|simpl; lia].
Defined.

(* ------------------------------------------------------------------ *)
(** ** Route parameters *)

Lemma digits_rev_spec (fuel : nat) (n : Z) :
  0 <= n < 2 ^ Z.of_nat fuel ->
  digits_value (digits_rev fuel n) = n /\
  Forall (fun d => 0 <= d < 10) (digits_rev fuel n).
Proof.
  revert n. induction fuel as [|f IH]; intros n Hn.
  - simpl in Hn. assert (n = 0) by lia. subst. split; [reflexivity|constructor].
  - simpl digits_rev. destruct (n <? 10) eqn:E.
    + apply Z.ltb_lt in E. split.
      * simpl. rewrite Z.mod_small by lia. lia.
      * constructor; [apply Z.mod_pos_bound; lia|constructor].
    + apply Z.ltb_ge in E.
      assert (Hf : 0 <= n / 10 < 2 ^ Z.of_nat f).
      { split; [apply Z.div_pos; lia|].
        rewrite Nat2Z.inj_succ, Z.pow_succ_r in Hn by lia.
        apply Z.div_lt_upper_bound; lia. }
      destruct (IH (n / 10) Hf) as [Hv Hd]. split.
      * change (10 * digits_value (digits_rev f (n / 10)) + n mod 10 = n).
        rewrite Hv. pose proof (Z.div_mod n 10 ltac:(lia)). lia.
      * constructor; [apply Z.mod_pos_bound; lia|exact Hd].
Qed.

Lemma digit_char_value (d : Z) :
  0 <= d < 10 ->
  digit_value (digit_char d) = Some d /\ js_space (digit_char d) = false /\
  Ascii.eqb (digit_char d) "-"%char = false /\
  Ascii.eqb (digit_char d) "+"%char = false.
Proof.
  intros Hd.
  assert (d = 0 \/ d = 1 \/ d = 2 \/ d = 3 \/ d = 4 \/ d = 5 \/ d = 6 \/
          d = 7 \/ d = 8 \/ d = 9) by lia.
  repeat match goal with H : _ \/ _ |- _ => destruct H end; subst;
    vm_compute; repeat split.
Qed.

Lemma read_digits_string (ds : list Z) (acc : option Z) (suffix : string) :
  Forall (fun d => 0 <= d < 10) ds ->
  (forall c s, suffix = String c s -> digit_value c = None) ->
  ds <> [] ->
  read_digits acc (string_of_list_ascii (map digit_char ds) ++ suffix) =
  Some (fold_left (fun a d => 10 * a + d) ds
          (match acc with Some a => a | None => 0 end)).
Proof.
  intros Hds Hsuf. revert acc. induction Hds as [|d ds Hd Hds IH];
    intros acc Hne; [contradiction|].
  simpl. rewrite (proj1 (digit_char_value d Hd)).
  destruct ds as [|d' ds'].
  - destruct suffix as [|c s]; [reflexivity|].
    cbn [map string_of_list_ascii append read_digits].
    rewrite (Hsuf c s eq_refl). reflexivity.
  - rewrite IH by discriminate. reflexivity.
Qed.

Lemma fold_left_rev_value (ds : list Z) :
  fold_left (fun a d => 10 * a + d) (rev ds) 0 = digits_value ds.
Proof.
  induction ds as [|d ds IH]; [reflexivity|].
  cbn [rev]. rewrite fold_left_app, IH. reflexivity.
Qed.

Lemma number_string_digits (n : Z) :
  1 <= n ->
  exists d ds, number_string n =
    string_of_list_ascii (map digit_char (d :: ds)) /\
    Forall (fun d => 0 <= d < 10) (d :: ds) /\
    fold_left (fun a d => 10 * a + d) (d :: ds) 0 = n.
Proof.
  intros Hn. unfold number_string.
  replace (n <? 0) with false by (symmetry; apply Z.ltb_ge; lia).
  rewrite Z.abs_eq by lia.
  set (fuel := S (Z.to_nat (Z.log2 n))).
  assert (Hb : 0 <= n < 2 ^ Z.of_nat fuel).
  { split; [lia|]. unfold fuel. rewrite Nat2Z.inj_succ, Z2Nat.id
      by (apply Z.log2_nonneg). apply Z.log2_spec. lia. }
  destruct (digits_rev_spec fuel n Hb) as [Hv Hd].
  destruct (rev (digits_rev fuel n)) as [|d ds] eqn:Er.
  - apply (f_equal (@rev Z)) in Er. rewrite rev_involutive in Er.
    unfold fuel in Er. discriminate Er.
  - exists d, ds. split; [reflexivity|]. split.
    + rewrite <- Er. apply Forall_rev. exact Hd.
    + rewrite <- Er, fold_left_rev_value. exact Hv.
Qed.

Lemma parseInt10_number_string (n : Z) (suffix : string) :
  1 <= n ->
  (forall c s, suffix = String c s -> digit_value c = None) ->
  parseInt10 (number_string n ++ suffix) = Some n.
Proof.
  intros Hn Hsuf. destruct (number_string_digits n Hn) as [d [ds [E [Hd Hv]]]].
  rewrite E. inversion Hd as [|? ? Hd0 Hds]; subst.
  destruct (digit_char_value d Hd0) as [_ [Hsp [Hm Hp]]].
  set (t := (string_of_list_ascii (map digit_char ds) ++ suffix)%string).
  change ((string_of_list_ascii (map digit_char (d :: ds)) ++ suffix)%string)
    with (String (digit_char d) t).
  unfold parseInt10. cbn [skip_spaces]. rewrite Hsp. cbv beta iota.
  rewrite Hm, Hp. cbv beta iota.
  change (String (digit_char d) t)
    with ((string_of_list_ascii (map digit_char (d :: ds)) ++ suffix)%string).
  rewrite read_digits_string by (try exact Hd; try exact Hsuf; discriminate).
  reflexivity.
Qed.

Lemma param_get_set_same (params : Params) (name : string) (v : ParamValue) :
  param_get params name <> None ->
  param_get (param_set params name v) name = Some v.
Proof.
  unfold param_get, param_set. induction params as [|[k x] ps IH]; simpl;
    [contradiction|].
  destruct (String.eqb k name) eqn:Ek; simpl.
  - rewrite String.eqb_refl. reflexivity.
  - rewrite Ek. exact IH.
Qed.

Lemma param_get_set_other (params : Params) (name name' : string)
    (v : ParamValue) :
  name' <> name ->
  param_get (param_set params name v) name' = param_get params name'.
Proof.
  intros Hne. unfold param_get, param_set.
  induction params as [|[k x] ps IH]; simpl; [reflexivity|].
  destruct (String.eqb k name) eqn:Ek; simpl.
  - apply String.eqb_eq in Ek. subst k.
    replace (String.eqb name name') with false
      by (symmetry; apply String.eqb_neq; congruence).
    exact IH.
  - destruct (String.eqb k name'); [reflexivity|exact IH].
Qed.

Lemma param_set_idem (params : Params) (name : string) (v : ParamValue) :
  param_set (param_set params name v) name v = param_set params name v.
Proof.
  unfold param_set. rewrite map_map. apply map_ext. intros [k x]. simpl.
  destruct (String.eqb k name) eqn:Ek; simpl.
  - rewrite String.eqb_refl. reflexivity.
  - rewrite Ek. reflexivity.
Qed.

Lemma round_double_small (a : Z) : 0 <= a < 2 ^ 53 -> round_double a = a.
Proof.
  intros Ha. unfold round_double.
  replace (a <? 2 ^ 53) with true by (symmetry; apply Z.ltb_lt; lia).
  reflexivity.
Qed.

Lemma round_double_big (a : Z) : 2 ^ 53 <= a -> 2 ^ 53 <= round_double a.
Proof.
  intros Ha. unfold round_double.
  replace (a <? 2 ^ 53) with false by (symmetry; apply Z.ltb_ge; lia).
  cbv zeta.
  assert (Hlog : 53 <= Z.log2 a).
  { rewrite <- (Z.log2_pow2 53) by lia. apply Z.log2_le_mono. exact Ha. }
  set (e := Z.log2 a - 52).
  assert (He : 2 <= 2 ^ e).
  { change 2 with (2 ^ 1) at 1. apply Z.pow_le_mono_r; lia. }
  assert (Hpow : 2 ^ 52 * 2 ^ e <= a).
  { rewrite <- Z.pow_add_r by lia.
    replace (52 + e) with (Z.log2 a) by (unfold e; lia).
    apply Z.log2_spec. lia. }
  rewrite Z.shiftr_div_pow2 by lia.
  assert (Hm : 2 ^ 52 <= a / 2 ^ e).
  { apply Z.div_le_lower_bound; lia. }
  change (2 ^ 53) with (2 ^ 52 * 2).
  destruct (_ || _); nia.
Qed.

Lemma to_number_safe (n : Z) : 0 <= n < 2 ^ 53 -> to_number n = JsInt n.
Proof.
  intros Hn. unfold to_number. rewrite Z.abs_eq by lia.
  rewrite round_double_small by lia.
  replace (2 ^ 1024 <=? n) with false
    by (symmetry; apply Z.leb_gt; change (2 ^ 1024) with (2 ^ 53 * 2 ^ 971);
        assert (0 < 2 ^ 971) by (apply Z.pow_pos_nonneg; lia); nia).
  replace (n <? 0) with false by (symmetry; apply Z.ltb_ge; lia).
  reflexivity.
Qed.

(** Below 2^53 every integer is a double of its own. *)
Lemma to_number_eq_safe (c x : Z) :
  0 <= c -> 0 <= x < 2 ^ 53 -> to_number c = JsInt x -> c = x.
Proof.
  intros Hc Hx. unfold to_number. rewrite Z.abs_eq by lia.
  replace (c <? 0) with false by (symmetry; apply Z.ltb_ge; lia).
  destruct (2 ^ 1024 <=? round_double c); [discriminate|].
  intros H. injection H as H.
  destruct (Z.lt_ge_cases c (2 ^ 53)) as [Hs|Hb].
  - rewrite round_double_small in H by lia. exact H.
  - pose proof (round_double_big c Hb). lia.
Qed.

Lemma shortest_candidate_ok (x k c : Z) :
  0 <= x -> shortest_candidate x k = Some c -> to_number c = JsInt x /\ 0 <= c.
Proof.
  intros Hx. unfold shortest_candidate. cbv beta zeta.
  set (q := 10 ^ (dec_len x - k)).
  assert (Hq : 0 <= q) by (apply Z.pow_nonneg; lia).
  assert (Hlo : 0 <= x / q * q).
  { destruct (Z.eq_dec q 0) as [E|E].
    - rewrite E, Z.div_0_r. lia.
    - apply Z.mul_nonneg_nonneg; [apply Z.div_pos|]; lia. }
  set (lo := x / q * q) in *.
  assert (OK : forall c, match to_number c with
                         | JsInt c' => c' =? x
                         | _ => false
                         end = true -> to_number c = JsInt x).
  { intros c'. destruct (to_number c'); try discriminate.
    intros H. apply Z.eqb_eq in H. subst. reflexivity. }
  destruct (match to_number lo with JsInt c' => c' =? x | _ => false end)
    eqn:E1;
  destruct (match to_number (lo + q) with JsInt c' => c' =? x | _ => false end)
    eqn:E2; intros H; try discriminate; injection H as <-.
  - destruct (x - lo <? lo + q - x);
      [|destruct (lo + q - x <? x - lo); [|destruct (Z.even (lo / q))]];
      (split; [apply OK; assumption | lia]).
  - split; [apply OK; assumption | lia].
  - split; [apply OK; assumption | lia].
Qed.

Lemma shortest_safe (x : Z) : 1 <= x < 2 ^ 53 -> shortest x = x.
Proof.
  intros Hx. unfold shortest. generalize 1 as k.
  induction (Z.to_nat (dec_len x)) as [|f IH]; intros k; simpl; [reflexivity|].
  destruct (shortest_candidate x k) as [c|] eqn:E; [|apply IH].
  apply shortest_candidate_ok in E as [Ec Hc]; [|lia].
  apply (to_number_eq_safe c x Hc); [lia|exact Ec].
Qed.

(** A double below 2^53 prints as its decimal digits. *)
Lemma js_number_string_safe (n : Z) :
  1 <= n < 2 ^ 53 -> js_number_string (JsInt n) = number_string n.
Proof.
  intros Hn. unfold js_number_string.
  replace (n =? 0) with false by (symmetry; apply Z.eqb_neq; lia).
  rewrite Z.abs_eq by lia. rewrite shortest_safe by exact Hn.
  replace (n <? 10 ^ 21) with true
    by (symmetry; apply Z.ltb_lt;
        assert (2 ^ 53 < 10 ^ 21) by (vm_compute; reflexivity); lia).
  replace (n <? 0) with false by (symmetry; apply Z.ltb_ge; lia).
  reflexivity.
Qed.

Lemma append_empty_r (s : string) : (s ++ EmptyString)%string = s.
Proof. induction s as [|c s IH]; simpl; [reflexivity|rewrite IH; reflexivity]. Qed.

Lemma parseId_accepts (name : string) (params : Params) (s : string) (n : Z) :
  param_get params name = Some (PStr s) -> parseInt10 s = Some n ->
  1 <= n < 2 ^ 53 ->
  parseId name params = inr (param_set params name (PNum (JsInt n))).
Proof.
  intros Hg Hp Hn. unfold parseId. rewrite Hg. simpl.
  destruct (String.eqb s "") eqn:Es.
  - apply String.eqb_eq in Es. subst s. discriminate Hp.
  - simpl. unfold js_parseInt. rewrite Hp. simpl.
    rewrite to_number_safe by lia. simpl.
    replace (n <? 1) with false by (symmetry; apply Z.ltb_ge; lia).
    reflexivity.
Qed.

Lemma parseId_cases (name : string) (params params' : Params) :
  parseId name params = inr params' ->
  (params' = params /\
   (param_get params name = None \/
    exists v, param_get params name = Some v /\ param_truthy v = false)) \/
  (exists x, js_lt_one x = false /\ params' = param_set params name (PNum x) /\
   param_get params name <> None).
Proof.
  unfold parseId. destruct (param_get params name) as [v|] eqn:Eg.
  - destruct (param_truthy v) eqn:Et.
    + destruct (param_parseInt v) as [x|]; [|discriminate].
      destruct (js_lt_one x) eqn:En; [discriminate|].
      intros H. injection H as <-. right. exists x.
      repeat split; [exact En|discriminate].
    + intros H. injection H as <-. left. split; [reflexivity|].
      right. exists v. split; [reflexivity|exact Et].
  - intros H. injection H as <-. left. split; [reflexivity|left; reflexivity].
Qed.

Lemma parseIds_other (names : list string) (params params' : Params)
    (k : string) :
  parseIds names params = inr params' -> ~ In k names ->
  param_get params' k = param_get params k.
Proof.
  revert params. induction names as [|name rest IH]; intros params H Hk.
  - simpl in H. injection H as <-. reflexivity.
  - simpl in H. destruct (parseId name params) as [e|ps1] eqn:E1;
      [discriminate|].
    rewrite (IH ps1 H) by (intros Hin; apply Hk; right; exact Hin).
    apply parseId_cases in E1
      as [[-> _]|[x [_ [-> _]]]]; [reflexivity|].
    apply param_get_set_other. intros ->. apply Hk. left. reflexivity.
Qed.

(** X15. [parseIds(...names)] on route parameters that are all text: when
    it passes the request on, each listed parameter is missing, empty, or a
    number at least 1; when it fails, the error is the BadRequest of one of
    the listed names. *)
Theorem parseIds_result (names : list string) (params : Params) :
  (forall k v, param_get params k = Some v -> exists s, v = PStr s) ->
  (forall params', parseIds names params = inr params' ->
   forall name, In name names ->
   match param_get params' name with
   | None => True
   | Some (PStr s) => s = ""
   | Some (PNum x) => js_lt_one x = false
   end) /\
  (forall e, parseIds names params = inl e ->
   exists name, In name names /\
   e = BadRequestError (MsgText
         ("Invalid " ++ name ++ ": must be a positive integer"))).
Proof.
  intros Hstr.
  assert (G : forall k v, param_get params k = Some v ->
                match v with PStr _ => True | PNum x => js_lt_one x = false end).
  { intros k v Hk. destruct (Hstr k v Hk) as [s ->]. exact I. }
  clear Hstr. split.
  - revert params G. induction names as [|name rest IH];
      intros params G params' H nm Hin; [destruct Hin|].
    simpl in H. destruct (parseId name params) as [e|ps1] eqn:E1;
      [discriminate|].
    assert (G1 : forall k v, param_get ps1 k = Some v ->
                   match v with PStr _ => True | PNum x => js_lt_one x = false end).
    { apply parseId_cases in E1 as [[-> _]|[x [Hn [-> Hne]]]]; [exact G|].
      intros k v Hk. destruct (String.string_dec k name) as [->|Hkn].
      - rewrite param_get_set_same in Hk by exact Hne.
        injection Hk as <-. exact Hn.
      - rewrite param_get_set_other in Hk by exact Hkn. exact (G k v Hk). }
    destruct (in_dec String.string_dec nm rest) as [Hr|Hr].
    + exact (IH ps1 G1 params' H nm Hr).
    + destruct Hin as [<-|Hin]; [|contradiction].
      rewrite (parseIds_other rest ps1 params' name H Hr).
      apply parseId_cases in E1 as [[-> [Hg|[v [Hg Hf]]]]|[x [Hn [-> Hne]]]].
      * rewrite Hg. exact I.
      * rewrite Hg. specialize (G name v Hg).
        destruct v as [s|[m| |]]; simpl in Hf; try discriminate Hf.
        -- destruct (String.eqb s "") eqn:Es; [|discriminate].
           apply String.eqb_eq. exact Es.
        -- destruct (m =? 0) eqn:Em; [|discriminate].
           apply Z.eqb_eq in Em. subst m. discriminate G.
      * rewrite param_get_set_same by exact Hne. exact Hn.
  - clear G. revert params. induction names as [|name rest IH];
      intros params e H; [discriminate|].
    simpl in H. destruct (parseId name params) as [e'|ps1] eqn:E1.
    + injection H as <-. exists name. split; [left; reflexivity|].
      unfold parseId in E1.
      destruct (param_get params name) as [v|]; [|discriminate].
      destruct (param_truthy v); [|discriminate].
      destruct (param_parseInt v) as [x|].
      * destruct (js_lt_one x); [|discriminate]. injection E1 as <-. reflexivity.
      * injection E1 as <-. reflexivity.
    + destruct (IH ps1 e H) as [nm [Hin He]].
      exists nm. split; [right; exact Hin|exact He].
Qed.

Lemma parseIds_result_witness :
  let params := [("id", PStr "3"); ("driverId", PStr "")] in
  (forall k v, param_get params k = Some v -> exists s, v = PStr s) /\
  ((forall params', parseIds ["id"; "driverId"] params = inr params' ->
    forall name, In name ["id"; "driverId"] ->
    match param_get params' name with
    | None => True
    | Some (PStr s) => s = ""
    | Some (PNum x) => js_lt_one x = false
    end) /\
   (forall e, parseIds ["id"; "driverId"] params = inl e ->
    exists name, In name ["id"; "driverId"] /\
    e = BadRequestError (MsgText
          ("Invalid " ++ name ++ ": must be a positive integer")))).
Proof.
  intros params.
  assert (Hs : forall k v, param_get params k = Some v -> exists s, v = PStr s).
  { intros k v Hk. unfold param_get in Hk.
    destruct (find _ params) as [[k' v']|] eqn:Ef; [|discriminate].
    simpl in Hk. injection Hk as <-. apply find_some in Ef as [Hin _].
    destruct Hin as [E|[E|[]]]; injection E as <- <-; eexists; reflexivity. }
  split; [exact Hs|]. exact (parseIds_result ["id"; "driverId"] params Hs).
Defined.

(** X22. [parseId(name)] reads back an id printed in the URL, up to
    2^53 - 1: when [req.params[name]] is the decimal text of
    [1 <= n < 2^53], possibly followed by text that does not start with a
    digit, the parameter becomes the number [n], and running the middleware
    again on its output ([parseInt] of the number's string) changes
    nothing. *)
Theorem parseId_reads_safe_id (name suffix : string) (params : Params)
    (n : Z) :
  1 <= n < 2 ^ 53 ->
  (forall c s, suffix = String c s -> digit_value c = None) ->
  param_get params name = Some (PStr (number_string n ++ suffix)) ->
  parseId name params = inr (param_set params name (PNum (JsInt n))) /\
  parseId name (param_set params name (PNum (JsInt n))) =
    inr (param_set params name (PNum (JsInt n))).
Proof.
  intros Hn Hsuf Hg. split.
  - apply (parseId_accepts name params _ n Hg); [|exact Hn].
    apply parseInt10_number_string; [lia|exact Hsuf].
  - assert (Hget : param_get (param_set params name (PNum (JsInt n))) name
                   = Some (PNum (JsInt n))).
    { apply param_get_set_same. rewrite Hg. discriminate. }
    unfold parseId. rewrite Hget.
    replace (param_truthy (PNum (JsInt n))) with true
      by (simpl; destruct (Z.eqb_spec n 0); [lia|reflexivity]).
    replace (param_parseInt (PNum (JsInt n))) with (Some (JsInt n)).
    + cbn [js_lt_one].
      replace (n <? 1) with false by (symmetry; apply Z.ltb_ge; lia).
      rewrite param_set_idem. reflexivity.
    + unfold param_parseInt. rewrite js_number_string_safe by exact Hn.
      unfold js_parseInt.
      rewrite <- (append_empty_r (number_string n)).
      rewrite parseInt10_number_string
        by (try lia; intros c s' E; discriminate E).
      simpl. rewrite to_number_safe by lia. reflexivity.
Qed.

Lemma parseId_reads_safe_id_witness :
  let params := [("id", PStr "9007199254740991/"); ("driverId", PStr "7")] in
  (1 <= 9007199254740991 < 2 ^ 53 /\
   param_get params "id" =
     Some (PStr (number_string 9007199254740991 ++ "/"))) /\
  parseId "id" params =
    inr (param_set params "id" (PNum (JsInt 9007199254740991))) /\
  parseId "id" (param_set params "id" (PNum (JsInt 9007199254740991))) =
    inr (param_set params "id" (PNum (JsInt 9007199254740991))).
Proof.
  intros params. split; [split; [split; [lia | vm_compute; reflexivity]|
                                 vm_compute; reflexivity]|].
  apply (parseId_reads_safe_id "id" "/" params 9007199254740991).
  - split; [lia | vm_compute; reflexivity].
  - intros c s E. injection E as <- <-. reflexivity.
  - vm_compute. reflexivity.
Defined.

(* ------------------------------------------------------------------ *)
(** ** Fleet status *)

Lemma find_shift_of_In (st : Store) (s : Shift) :
  NoDup (map sh_id (shifts st)) -> In s (shifts st) ->
  find_shift st (sh_id s) = Some s.
Proof.
  intros Hnd Hs. unfold find_shift.
  destruct (find (fun x => sh_id x =? sh_id s) (shifts st)) as [y|] eqn:E.
  - apply find_some in E as [Hy Hk]. apply Z.eqb_eq in Hk.
    f_equal. exact (NoDup_map_inj sh_id _ y s Hnd Hy Hs Hk).
  - exfalso. eapply find_none in E; [|exact Hs].
    rewrite Z.eqb_refl in E. discriminate.
Qed.

Lemma fleet_getStatus_entry (st : Store) (e : FleetStatus) :
  forall l st', fleet_getStatus st = Ok l st' -> In e l ->
  st' = st /\ In (fs_shift e) (shifts st) /\
  sh_status (fs_shift e) = ShiftStatus.active /\
  fs_currentOrders e =
    filter (blocks_shift_end (sh_driverId (fs_shift e))
              (sh_shiftDate (fs_shift e))) (orders st).
Proof.
  intros l st' H Hin. cbv [fleet_getStatus bind reads ret] in H.
  injection H as <- <-. split; [reflexivity|].
  apply in_flat_map in Hin as [o [Ho He]].
  apply in_map_iff in Ho as [s [Hs Hin]].
  apply filter_In in Hin as [Hin Ha].
  destruct (match sh_vehicleAllocationId s with
            | Some aid => _ | None => None end) as [v|] in Hs;
    [|subst o; destruct He].
  subst o. destruct He as [<-|[]]. simpl.
  split; [exact Hin|]. split; [apply shift_status_eqb_eq; exact Ha|].
  reflexivity.
Qed.

(** X16. The current orders the fleet dashboard lists for an active shift
    are exactly the orders that stop its driver from ending it: ending the
    shift fails BadRequest listing them when there are any, and succeeds
    when there are none. *)
Theorem fleet_status_orders_block_endShift (st : Store) (l : list FleetStatus)
    (st' : Store) (e : FleetStatus) (now : Z) :
  NoDup (map sh_id (shifts st)) ->
  fleet_getStatus st = Ok l st' -> In e l ->
  st' = st /\
  (fs_currentOrders e <> [] ->
   shift_end (sh_id (fs_shift e)) (sh_driverId (fs_shift e)) now st =
     Err (BadRequestError (MsgIncompleteOrders
            (List.length (fs_currentOrders e)) (map o_id (fs_currentOrders e))))) /\
  (fs_currentOrders e = [] ->
   exists s st'',
     shift_end (sh_id (fs_shift e)) (sh_driverId (fs_shift e)) now st =
       Ok s st'' /\ sh_status s = ShiftStatus.completed).
Proof.
  intros Hnd H Hin.
  destruct (fleet_getStatus_entry st e l st' H Hin) as [-> [Hs [Ha Hc]]].
  split; [reflexivity|].
  rewrite (shift_end_result st (sh_id (fs_shift e)) (sh_driverId (fs_shift e))
             now (fs_shift e) (find_shift_of_In st _ Hnd Hs) eq_refl Ha).
  cbv zeta. rewrite <- Hc. split.
  - intros Hne. destruct (fs_currentOrders e) as [|o os]; [contradiction|].
    reflexivity.
  - intros ->. do 2 eexists. split; reflexivity.
Qed.

Lemma fleet_status_orders_block_endShift_witness :
  let st := run [(OpAllocate 1 1 (day 10), day 9);
                 (OpStartShift 1, day 10 + 1000);
                 (OpCreateOrder (mkOrderInput 3 1 500 (Some 1) (Some (day 10))),
                    day 10 + 2000)] fleet in
  exists l st', fleet_getStatus st = Ok l st' /\
  exists e, In e l /\
  (st' = st /\
   (fs_currentOrders e <> [] ->
    shift_end (sh_id (fs_shift e)) (sh_driverId (fs_shift e)) (day 10 + 3000) st =
      Err (BadRequestError (MsgIncompleteOrders
             (List.length (fs_currentOrders e)) (map o_id (fs_currentOrders e))))) /\
   (fs_currentOrders e = [] ->
    exists s st'',
      shift_end (sh_id (fs_shift e)) (sh_driverId (fs_shift e)) (day 10 + 3000) st =
        Ok s st'' /\ sh_status s = ShiftStatus.completed)).
Proof.
  intros st. eexists. eexists. split; [vm_compute; reflexivity|].
  match goal with
  | |- exists e, In e ?l /\ (?st' = _ /\ _) =>
      eexists; split; [vm_compute; left; reflexivity|];
      apply (fleet_status_orders_block_endShift st l st' _ (day 10 + 3000))
  end.
  - vm_compute. repeat constructor; simpl; tauto.
  - vm_compute. reflexivity.
  - vm_compute. left. reflexivity.
Defined.

(* ------------------------------------------------------------------ *)
(** ** Shift scheduling and allocation writes *)

Lemma existsb_find_none {A} (f : A -> bool) (l : list A) :
  find f l = None -> existsb f l = false.
Proof.
  induction l as [|a l IH]; simpl; [reflexivity|].
  destruct (f a); [discriminate|exact IH].
Qed.

Lemma find_of_witness {A} (f : A -> bool) (l : list A) (x : A) :
  In x l -> f x = true -> exists y, find f l = Some y.
Proof.
  intros Hx Hf. destruct (find f l) as [y|] eqn:E; [exists y; reflexivity|].
  exfalso. apply (find_none f l E) in Hx. congruence.
Qed.

(** X17. [schedule(driverId, shiftDate)]: NotFound for an unknown driver;
    Conflict as soon as the driver has a shift row on that day, whatever its
    status (a completed or cancelled shift blocks it too); otherwise one new
    scheduled shift, dated at midnight, with no allocation and no start or
    end time, is appended. *)
Theorem shift_schedule_outcomes (st : Store) (d t : Z) :
  (find_driver st d = None ->
   shift_schedule d t st = Err (NotFoundError (MsgNotFound "Driver" d))) /\
  (forall s, find_driver st d <> None -> In s (shifts st) ->
   sh_driverId s = d -> sh_shiftDate s = midnight t ->
   shift_schedule d t st =
     Err (ConflictError (MsgShiftAlreadyScheduled (midnight t)))) /\
  (find_driver st d <> None ->
   (forall s, In s (shifts st) -> sh_driverId s = d ->
      sh_shiftDate s <> midnight t) ->
   let s' := mkShift (next_id (map sh_id (shifts st))) d None (midnight t)
               ShiftStatus.scheduled None None in
   shift_schedule d t st = Ok s' (with_shifts st (shifts st ++ [s']))).
Proof.
  cbv [shift_schedule bind reads find_or throw_if ret throw].
  split; [|split].
  - intros E. rewrite E. reflexivity.
  - intros s Hd Hs Hsd Hst.
    destruct (find_driver st d) as [drv|]; [|contradiction].
    destruct (find_of_witness
                (fun x => (sh_driverId x =? d) && (sh_shiftDate x =? midnight t))
                (shifts st) s Hs) as [y Hy].
    { rewrite Hsd, Hst, !Z.eqb_refl. reflexivity. }
    unfold find_shift_for. rewrite Hy. reflexivity.
  - intros Hd Hno. destruct (find_driver st d) as [drv|]; [|contradiction].
    assert (Hf : find_shift_for st d (midnight t) = None).
    { unfold find_shift_for.
      destruct (find _ (shifts st)) as [y|] eqn:Ey; [|reflexivity].
      apply find_some in Ey as [Hy Hk]. apply andb_prop in Hk as [H1 H2].
      apply Z.eqb_eq in H1, H2. exfalso. exact (Hno y Hy H1 H2). }
    rewrite Hf. unfold shift_create.
    unfold find_shift_for in Hf. rewrite (existsb_find_none _ _ Hf).
    reflexivity.
Qed.

Lemma shift_schedule_outcomes_witness :
  let st := run [(OpScheduleShift 1 (day 12 + 5000), day 10)] fleet in
  shift_schedule 3 (day 12) st = Err (NotFoundError (MsgNotFound "Driver" 3)) /\
  shift_schedule 1 (day 12 + 7000) st =
    Err (ConflictError (MsgShiftAlreadyScheduled (midnight (day 12 + 7000)))) /\
  shift_schedule 2 (day 12) st =
    Ok (mkShift (next_id (map sh_id (shifts st))) 2 None (midnight (day 12))
          ShiftStatus.scheduled None None)
       (with_shifts st (shifts st ++
          [mkShift (next_id (map sh_id (shifts st))) 2 None (midnight (day 12))
             ShiftStatus.scheduled None None])).
Proof.
  intros st. split; [|split].
  - apply (proj1 (shift_schedule_outcomes st 3 (day 12))). reflexivity.
  - apply (proj1 (proj2 (shift_schedule_outcomes st 1 (day 12 + 7000)))
             (mkShift 1 1 None (day 12) ShiftStatus.scheduled None None)).
    + vm_compute. discriminate.
    + vm_compute. left. reflexivity.
    + reflexivity.
    + vm_compute. reflexivity.
  - apply (proj2 (proj2 (shift_schedule_outcomes st 2 (day 12)))).
    + vm_compute. discriminate.
    + intros s Hs. vm_compute in Hs. destruct Hs as [<-|[]].
      simpl. discriminate.
Defined.

Lemma filter_all_false {A} (f : A -> bool) (l : list A) :
  (forall x, In x l -> f x = false) -> filter f l = [].
Proof.
  induction l as [|a l IH]; simpl; intros H; [reflexivity|].
  rewrite (H a (or_introl eq_refl)). apply IH. intros x Hx. apply H.
  right. exact Hx.
Qed.

Lemma find_all_false {A} (f : A -> bool) (l : list A) :
  (forall x, In x l -> f x = false) -> find f l = None.
Proof.
  induction l as [|a l IH]; simpl; intros H; [reflexivity|].
  rewrite (H a (or_introl eq_refl)). apply IH. intros x Hx. apply H.
  right. exact Hx.
Qed.

(** X18. [DELETE /allocations/:id]: NotFound for an unknown id; Conflict as
    long as any shift, in whatever status, references the allocation;
    otherwise exactly that row is removed, nothing else changes, and a later
    lookup of [id] is NotFound. *)
Theorem allocation_remove_outcomes (st : Store) (id : Z) :
  (find_allocation st id = None ->
   allocation_remove id st = Err (NotFoundError (MsgNotFound "Allocation" id))) /\
  (forall s, find_allocation st id <> None -> In s (shifts st) ->
   sh_vehicleAllocationId s = Some id ->
   exists n, (0 < n)%nat /\
   allocation_remove id st = Err (ConflictError (MsgAllocationHasShifts n))) /\
  (find_allocation st id <> None ->
   (forall s, In s (shifts st) -> sh_vehicleAllocationId s <> Some id) ->
   let st' := with_allocations st
                (filter (fun a => negb (va_id a =? id)) (vehicleAllocations st)) in
   allocation_remove id st = Ok tt st' /\
   allocation_getById id st' = Err (NotFoundError (MsgNotFound "Allocation" id))).
Proof.
  cbv [allocation_remove allocation_getById bind reads find_or throw_if ret
       throw modify].
  split; [|split].
  - intros E. rewrite E. reflexivity.
  - intros s Ha Hs Hid. destruct (find_allocation st id) as [a|];
      [|contradiction].
    set (n := List.length (filter (fun s => opt_eqb (sh_vehicleAllocationId s)
                                              (Some id)) (shifts st))).
    assert (Hn : (0 < n)%nat).
    { unfold n. destruct (filter _ (shifts st)) as [|x xs] eqn:Ef.
      - exfalso. assert (Hin : In s (filter (fun s => opt_eqb
            (sh_vehicleAllocationId s) (Some id)) (shifts st))).
        { apply filter_In. split; [exact Hs|]. rewrite Hid. simpl.
          apply Z.eqb_refl. }
        rewrite Ef in Hin. destruct Hin.
      - simpl. lia. }
    exists n. split; [exact Hn|].
    fold n. replace (Nat.ltb 0 n) with true
      by (symmetry; apply Nat.ltb_lt; exact Hn).
    reflexivity.
  - intros Ha Hno. destruct (find_allocation st id) as [a|];
      [|contradiction].
    replace (filter (fun s => opt_eqb (sh_vehicleAllocationId s) (Some id))
               (shifts st)) with (@nil Shift).
    2:{ symmetry. apply filter_all_false. intros s Hs.
        destruct (sh_vehicleAllocationId s) as [x|] eqn:Ex; [|reflexivity].
        simpl. apply Z.eqb_neq. intros ->. exact (Hno s Hs Ex). }
    simpl. split; [reflexivity|].
    unfold find_allocation. simpl.
    replace (find (fun a => va_id a =? id)
               (filter (fun a => negb (va_id a =? id)) (vehicleAllocations st)))
      with (@None VehicleAllocation); [reflexivity|].
    symmetry. apply find_all_false. intros x Hx.
    apply filter_In in Hx as [_ Hx]. apply negb_true_iff. exact Hx.
Qed.

Lemma allocation_remove_outcomes_witness :
  let st := run [(OpAllocate 1 1 (day 10), day 9);
                 (OpAllocate 2 2 (day 10), day 9);
                 (OpStartShift 1, day 10 + 1000);
                 (OpEndShift 1 1, day 10 + 2000)] fleet in
  allocation_remove 7 st = Err (NotFoundError (MsgNotFound "Allocation" 7)) /\
  (exists n, (0 < n)%nat /\
   allocation_remove 1 st = Err (ConflictError (MsgAllocationHasShifts n))) /\
  (let st' := with_allocations st
                (filter (fun a => negb (va_id a =? 2)) (vehicleAllocations st)) in
   allocation_remove 2 st = Ok tt st' /\
   allocation_getById 2 st' = Err (NotFoundError (MsgNotFound "Allocation" 2))).
Proof.
  intros st. split; [|split].
  - apply (proj1 (allocation_remove_outcomes st 7)). vm_compute. reflexivity.
  - apply (proj1 (proj2 (allocation_remove_outcomes st 1))
             (mkShift 1 1 (Some 1) (day 10) ShiftStatus.completed
                (Some (day 10 + 1000)) (Some (day 10 + 2000)))).
    + vm_compute. discriminate.
    + vm_compute. left. reflexivity.
    + reflexivity.
  - apply (proj2 (proj2 (allocation_remove_outcomes st 2))).
    + vm_compute. discriminate.
    + intros s Hs. vm_compute in Hs. destruct Hs as [<-|[]]. discriminate.
Defined.

Lemma existsb_false_In {A} (f : A -> bool) (l : list A) (x : A) :
  existsb f l = false -> In x l -> f x = false.
Proof.
  intros E Hx. destruct (f x) eqn:Ef; [|reflexivity].
  rewrite <- E. symmetry. apply existsb_exists. exists x. split; assumption.
Qed.

(** X19. [PUT /allocations/:id] on an existing allocation: Conflict "Cannot
    update allocation: there is an active shift using it" while an active
    shift uses it; otherwise, when the updated (vehicle, date) or (driver,
    date) pair is held by another allocation, Conflict "Vehicle is already
    allocated for this date", also when it is the driver that is taken. *)
Theorem allocation_update_conflicts (st : Store) (id : Z)
    (data : AllocationChanges) (a : VehicleAllocation) :
  find_allocation st id = Some a ->
  let v := match ch_vehicleId data with Some v => v | None => va_vehicleId a end in
  let d := match ch_driverId data with Some d => d | None => va_driverId a end in
  let t := match ch_allocationDate data with
           | Some t => midnight t | None => va_allocationDate a end in
  ((exists s, In s (shifts st) /\ sh_vehicleAllocationId s = Some id /\
              sh_status s = ShiftStatus.active) ->
   allocation_update id data st =
     Err (ConflictError (MsgText
       "Cannot update allocation: there is an active shift using it"))) /\
  ((forall s, In s (shifts st) -> sh_vehicleAllocationId s = Some id ->
      sh_status s <> ShiftStatus.active) ->
   (exists b, In b (vehicleAllocations st) /\ va_id b <> id /\
      va_allocationDate b = t /\ (va_vehicleId b = v \/ va_driverId b = d)) ->
   allocation_update id data st =
     Err (ConflictError (MsgText "Vehicle is already allocated for this date"))).
Proof.
  intros Ha v d t. split.
  - intros [s [Hs [Hid Hst]]].
    cbv [allocation_update allocation_getById bind reads find_or throw_if ret
         throw catch].
    rewrite Ha.
    destruct (find_of_witness (fun s => opt_eqb (sh_vehicleAllocationId s)
                (Some id) && ShiftStatus.eqb (sh_status s) ShiftStatus.active)
                (shifts st) s Hs) as [y Hy].
    { rewrite Hid, Hst. simpl. rewrite Z.eqb_refl. reflexivity. }
    rewrite Hy. reflexivity.
  - intros Hno [b [Hb [Hbid [Hbt Hbk]]]].
    cbv [allocation_update allocation_getById bind reads find_or throw_if ret
         throw catch].
    rewrite Ha. rewrite find_all_false.
    2:{ intros s Hs.
        destruct (opt_eqb (sh_vehicleAllocationId s) (Some id)) eqn:E1;
          [|reflexivity].
        destruct (ShiftStatus.eqb (sh_status s) ShiftStatus.active) eqn:E2;
          [|reflexivity].
        exfalso. apply shift_status_eqb_eq in E2.
        destruct (sh_vehicleAllocationId s) as [x|] eqn:Ex; [|discriminate].
        apply Z.eqb_eq in E1. subst x. exact (Hno s Hs Ex E2). }
    assert (Hc : exists tg, allocation_constraint_error st (Some id) v d t =
                            Some (PrismaError "P2002" tg)).
    { unfold allocation_constraint_error.
      assert (Hin : In b (filter (fun a => negb (opt_eqb (Some (va_id a))
                                                    (Some id)))
                            (vehicleAllocations st))).
      { apply filter_In. split; [exact Hb|]. simpl.
        apply negb_true_iff, Z.eqb_neq. exact Hbid. }
      set (others := filter (fun a => negb (opt_eqb (Some (va_id a)) (Some id)))
                       (vehicleAllocations st)) in *.
      destruct (existsb (fun a => (va_vehicleId a =? v)
                                  && (va_allocationDate a =? t)) others)
        eqn:E1; [eexists; reflexivity|].
      destruct (existsb (fun a => (va_driverId a =? d)
                                  && (va_allocationDate a =? t)) others)
        eqn:E2; [eexists; reflexivity|].
      exfalso. destruct Hbk as [Hk|Hk].
      - pose proof (existsb_false_In _ _ b E1 Hin) as Hf. cbv beta in Hf.
        rewrite Hk, Hbt, !Z.eqb_refl in Hf. discriminate.
      - pose proof (existsb_false_In _ _ b E2 Hin) as Hf. cbv beta in Hf.
        rewrite Hk, Hbt, !Z.eqb_refl in Hf. discriminate. }
    destruct Hc as [tg Hc]. unfold v, d, t in Hc. rewrite Hc. reflexivity.
Qed.

Lemma allocation_update_conflicts_witness :
  let st := run [(OpAllocate 1 1 (day 10), day 9);
                 (OpAllocate 2 2 (day 10), day 9);
                 (OpStartShift 1, day 10 + 1000)] fleet in
  allocation_update 2 (mkChanges None (Some 1) None) st =
    Err (ConflictError (MsgText "Vehicle is already allocated for this date")) /\
  allocation_update 1 (mkChanges None None None) st =
    Err (ConflictError (MsgText
      "Cannot update allocation: there is an active shift using it")).
Proof.
  intros st. split.
  - apply (proj2 (allocation_update_conflicts st 2 (mkChanges None (Some 1) None)
                    (mkAllocation 2 2 2 (day 10))
                    ltac:(vm_compute; reflexivity))).
    + intros s Hs Hid. vm_compute in Hs. destruct Hs as [<-|[]].
      vm_compute in Hid. discriminate.
    + exists (mkAllocation 1 1 1 (day 10)).
      split; [vm_compute; left; reflexivity|].
      split; [discriminate|]. split; [reflexivity|]. right. reflexivity.
  - apply (proj1 (allocation_update_conflicts st 1 (mkChanges None None None)
                    (mkAllocation 1 1 1 (day 10))
                    ltac:(vm_compute; reflexivity))).
    exists (mkShift 1 1 (Some 1) (day 10) ShiftStatus.active
              (Some (day 10 + 1000)) None).
    split; [vm_compute; left; reflexivity|]. split; reflexivity.
Defined.

(* ------------------------------------------------------------------ *)
(** ** Latest positions *)

Lemma latest_gps_spec (st : Store) (v : Z) :
  (latest_gps st v = None ->
   forall g, In g (gpsLocations st) -> gps_vehicleId g <> v) /\
  (forall g, latest_gps st v = Some g ->
   In g (gpsLocations st) /\ gps_vehicleId g = v /\
   forall g', In g' (gpsLocations st) -> gps_vehicleId g' = v ->
   gps_recordedAt g' <= gps_recordedAt g).
Proof.
  unfold latest_gps.
  pose proof (latest_first_sorted
                (filter (fun g => gps_vehicleId g =? v) (gpsLocations st)))
    as Hs.
  assert (Hin : forall g, In g (sort_by latest_first
                  (filter (fun g => gps_vehicleId g =? v) (gpsLocations st)))
                <-> In g (gpsLocations st) /\ gps_vehicleId g = v).
  { intros g. rewrite sort_by_In, filter_In, Z.eqb_eq. tauto. }
  destruct (sort_by latest_first _) as [|g0 rest] eqn:E; simpl.
  - split; [|discriminate]. intros _ g Hg Hv.
    apply (proj2 (Hin g)). split; assumption.
  - split; [discriminate|]. intros g Hg. injection Hg as <-.
    destruct (proj1 (Hin g0) (or_introl eq_refl)) as [Hg0 Hv0].
    split; [exact Hg0|]. split; [exact Hv0|].
    intros g' Hg' Hv'. destruct (proj2 (Hin g') (conj Hg' Hv')) as [<-|Hr];
      [lia|].
    apply Sorted_extends in Hs.
    + rewrite Forall_forall in Hs. exact (Hs g' Hr).
    + intros a b c H1 H2. lia.
Qed.

(** X21. [getLatestForActiveVehicles()] lists, for each active shift with
    an allocation, the newest ping of the allocated vehicle: every listed
    ping belongs to such a vehicle and no ping of that vehicle is more
    recent, and every such vehicle that has a ping is listed. *)
Theorem latest_for_active_vehicles (st : Store) :
  exists l, gps_getLatestForActiveVehicles st = Ok l st /\
  (forall g, In g l ->
   exists s a, In s (shifts st) /\ sh_status s = ShiftStatus.active /\
     sh_vehicleAllocationId s = Some (va_id a) /\
     find_allocation st (va_id a) = Some a /\
     In g (gpsLocations st) /\ gps_vehicleId g = va_vehicleId a /\
     forall g', In g' (gpsLocations st) -> gps_vehicleId g' = va_vehicleId a ->
     gps_recordedAt g' <= gps_recordedAt g) /\
  (forall s aid a g', In s (shifts st) -> sh_status s = ShiftStatus.active ->
   sh_vehicleAllocationId s = Some aid -> find_allocation st aid = Some a ->
   In g' (gpsLocations st) -> gps_vehicleId g' = va_vehicleId a ->
   exists g, In g l /\ gps_vehicleId g = va_vehicleId a).
Proof.
  set (ids := flat_map (fun s =>
      match sh_vehicleAllocationId s with
      | Some aid =>
          match find_allocation st aid with
          | Some a => [va_vehicleId a]
          | None => []
          end
      | None => []
      end)
      (filter (fun s => ShiftStatus.eqb (sh_status s) ShiftStatus.active)
         (shifts st))).
  set (res := flat_map (fun g => match g with Some g => [g] | None => [] end)
                (map (latest_gps st) ids)).
  assert (Hids : forall v, In v ids <->
     exists s a, In s (shifts st) /\ sh_status s = ShiftStatus.active /\
       sh_vehicleAllocationId s = Some (va_id a) /\
       find_allocation st (va_id a) = Some a /\ v = va_vehicleId a).
  { intros v. unfold ids. rewrite in_flat_map. split.
    - intros [s [Hs Hv]]. apply filter_In in Hs as [Hs Ha].
      destruct (sh_vehicleAllocationId s) as [aid|] eqn:Eaid; [|destruct Hv].
      destruct (find_allocation st aid) as [a|] eqn:Ea; [|destruct Hv].
      destruct Hv as [<-|[]].
      pose proof Ea as Eid. unfold find_allocation in Eid.
      apply find_some in Eid as [_ Eid]. apply Z.eqb_eq in Eid. subst aid.
      exists s, a. repeat split; try assumption.
      apply shift_status_eqb_eq. exact Ha.
    - intros [s [a [Hs [Ha [Hid [Hf ->]]]]]]. exists s. split.
      + apply filter_In. split; [exact Hs|]. rewrite Ha. reflexivity.
      + rewrite Hid, Hf. left. reflexivity. }
  assert (Hres : forall g, In g res <->
     exists v, In v ids /\ latest_gps st v = Some g).
  { intros g. unfold res. rewrite in_flat_map. split.
    - intros [o [Ho Hg]]. apply in_map_iff in Ho as [v [Hv Hin]].
      destruct o as [g'|]; [|destruct Hg]. destruct Hg as [<-|[]].
      exists v. split; assumption.
    - intros [v [Hin Hv]]. exists (Some g). split; [|left; reflexivity].
      rewrite <- Hv. apply in_map. exact Hin. }
  exists res. split.
  - cbv [gps_getLatestForActiveVehicles bind reads ret]. fold ids.
    destruct ids; reflexivity.
  - split.
    + intros g Hg. apply Hres in Hg as [v [Hv Hl]].
      apply Hids in Hv as [s [a [Hs [Ha [Hid [Hf ->]]]]]].
      exists s, a. repeat (split; [assumption|]).
      exact (proj2 (latest_gps_spec st (va_vehicleId a)) g Hl).
    + intros s aid a g' Hs Ha Hid Hf Hg' Hv.
      pose proof Hf as Eid. unfold find_allocation in Eid.
      apply find_some in Eid as [_ Eid]. apply Z.eqb_eq in Eid. subst aid.
      destruct (latest_gps st (va_vehicleId a)) as [g|] eqn:El.
      * exists g. split.
        -- apply Hres. exists (va_vehicleId a). split; [|exact El].
           apply Hids. exists s, a. repeat split; assumption.
        -- exact (proj1 (proj2 (proj2 (latest_gps_spec st _) g El))).
      * exfalso. exact (proj1 (latest_gps_spec st _) El g' Hg' Hv).
Qed.
